(** * FSLAM front end: dataset reader and playback controller

    A shallow embedding of [FSLAM/src/util/DatasetReader.h]
    ([ImageFolderReader]) and of the playback thread of
    [FSLAM/src/main.cpp], with the properties of the ingestion layer
    stated and proved over it. The second half of the definitions adds
    [getdir], the constructor of the reader, [IMUFolderReader] and the
    handling of the command line in [main].

    Conventions.
    - C++ [int] and [long] values are [Z]; signed overflow is undefined in
      C++, so the model follows the executions in which none occurs, and
      vector sizes are taken to fit in an [int].
    - [float] and [double] are IEEE 754 binary32 and binary64, computed with
      the reference operations of [SpecFloat] (round to nearest even, each
      operation rounded on its own).
    - [std::vector] is a list; [v[i]] outside the vector is undefined
      behaviour and shows up as [OutOfBounds].
    - [exit(1)] shows up as [Exit 1].
    - The codecs, the rectification, the engine and the display are
      outside this layer: images are records of the calls that make them,
      the engine's constructor and [addActiveFrame] are parameters, and what
      the display and the clock do during an iteration is an input. *)

From Stdlib Require Import ZArith List Bool Lia QArith Qabs.
From Stdlib Require Import Floats.SpecFloat.
From stdpp Require Import base list strings sorting.
Import ListNotations.

Local Open Scope Z_scope.

(** ** IEEE 754 arithmetic of the two C++ floating-point types *)

Module IEEE.

(** C++ [float] is binary32 and [double] is binary64; both are carried by
    [spec_float], and the operations fix the format. *)
Abbreviation float := spec_float (only parsing).
Abbreviation double := spec_float (only parsing).

Definition prec32 : Z := 24.
Definition emax32 : Z := 128.
Definition prec64 : Z := 53.
Definition emax64 : Z := 1024.

Definition pzero : spec_float := S754_zero false.

(** Integer to floating point conversion. *)
Definition f32_of_int (z : Z) : float := binary_normalize prec32 emax32 z 0 false.
Definition f64_of_int (z : Z) : double := binary_normalize prec64 emax64 z 0 false.

(** [float] to [double] promotion: exact, the value is put in binary64
    canonical form. *)
Definition f64_of_f32 (x : float) : double :=
  match x with
  | S754_finite s m e => binary_normalize prec64 emax64 (cond_Zopp s (Zpos m)) e s
  | _ => x
  end.

Definition f32_add : float -> float -> float := SFadd prec32 emax32.
Definition f32_mul : float -> float -> float := SFmul prec32 emax32.
Definition f32_div : float -> float -> float := SFdiv prec32 emax32.
Definition f32_eqb : float -> float -> bool := SFeqb.
Definition f32_ltb : float -> float -> bool := SFltb.

Definition f64_add : double -> double -> double := SFadd prec64 emax64.
Definition f64_sub : double -> double -> double := SFsub prec64 emax64.
Definition f64_mul : double -> double -> double := SFmul prec64 emax64.
Definition f64_div : double -> double -> double := SFdiv prec64 emax64.
Definition f64_abs : double -> double := SFabs.
Definition f64_eqb : double -> double -> bool := SFeqb.
Definition f64_ltb : double -> double -> bool := SFltb.

(** A decimal literal [n/d] of the source, rounded to the nearest value
    of the type as a compiler does. *)
Definition f32_lit (n d : Z) : float := f32_div (f32_of_int n) (f32_of_int d).
Definition f64_lit (n d : Z) : double := f64_div (f64_of_int n) (f64_of_int d).

(** [(int) x]: truncation toward zero; undefined ([None]) for NaN, for
    the infinities and when the truncated value is not an [int]. *)
Definition f64_to_int (x : double) : option Z :=
  match x with
  | S754_zero _ => Some 0
  | S754_finite s m e =>
      let z := cond_Zopp s (match e with
                            | Zneg p => Z.shiftr (Zpos m) (Zpos p)
                            | _ => Z.shiftl (Zpos m) e
                            end) in
      if (- 2 ^ 31 <=? z) && (z <? 2 ^ 31) then Some z else None
  | _ => None
  end.

(** The rational number a finite value stands for. *)
Definition SF2Q (x : spec_float) : option Q :=
  match x with
  | S754_zero _ => Some 0%Q
  | S754_finite s m e =>
      Some (match e with
            | Zneg p => Qmake (cond_Zopp s (Zpos m)) (2 ^ p)
            | _ => inject_Z (cond_Zopp s (Zpos m) * 2 ^ e)
            end)
  | _ => None
  end.

(** *** Rounding to binary64

    What [binary_round] does to a magnitude [M * 2^e], stated on integers:
    the exponent of the result is that of the format for the digits of
    [M], or one more when the mantissa carries, and the mantissa is the
    one cut at that exponent or its successor. *)

(** The exponent at which binary64 holds a value of [e] digits. *)
Definition fexp64 (e : Z) : Z := Z.max (e - 53) (-1074).

(** The mantissa of [M * 2^e] cut at exponent [E]. *)
Definition cut (M e E : Z) : Z :=
  if E <=? e then M * 2 ^ (e - E) else M / 2 ^ (E - e).

Inductive rounded (sx : bool) (M : positive) (e : Z) : spec_float -> Prop :=
| rounded_inf :
    971 < fexp64 (Zpos (digits2_pos M) + e)
    \/ (fexp64 (Zpos (digits2_pos M) + e) = 971
        /\ 2 ^ 53 <= cut (Zpos M) e (fexp64 (Zpos (digits2_pos M) + e)) + 1) ->
    rounded sx M e (S754_infinity sx)
| rounded_fin (m : positive) (E' : Z) :
    bounded 53 1024 m E' = true ->
    fexp64 (Zpos (digits2_pos M) + e) <= E' <= fexp64 (Zpos (digits2_pos M) + e) + 1 ->
    (E' = fexp64 (Zpos (digits2_pos M) + e) ->
     cut (Zpos M) e E' <= Zpos m <= cut (Zpos M) e E' + 1) ->
    (E' = fexp64 (Zpos (digits2_pos M) + e) + 1 ->
     Zpos m = 2 ^ 52
     /\ 2 ^ 53 <= cut (Zpos M) e (fexp64 (Zpos (digits2_pos M) + e)) + 1) ->
    rounded sx M e (S754_finite sx m E').

(** Zeros and positive finite values. *)
Definition nonneg (y : spec_float) : bool :=
  match y with
  | S754_zero _ => true
  | S754_finite false _ _ => true
  | _ => false
  end.

End IEEE.

Import IEEE.

(** ** Outcomes of a call *)

(** A call returns a value, ends the process through [exit(code)], or
    indexes a [std::vector] outside its bounds. *)
Inductive outcome (A : Type) : Type :=
| Ok (a : A)
| Exit (code : Z)
| OutOfBounds.
Arguments Ok {A} a.
Arguments Exit {A} code.
Arguments OutOfBounds {A}.

Definition bind {A B : Type} (c : outcome A) (k : A -> outcome B) : outcome B :=
  match c with
  | Ok a => k a
  | Exit code => Exit code
  | OutOfBounds => OutOfBounds
  end.

Notation "'let*' x ':=' c 'in' k" := (bind c (fun x => k))
  (at level 10, x name, c at level 100, k at level 200).

(** [v[i]] for a [std::vector] and an [int] index: no bounds check. *)
Definition vec_at {A : Type} (v : list A) (i : Z) : outcome A :=
  if 0 <=? i then
    match v !! Z.to_nat i with
    | Some x => Ok x
    | None => OutOfBounds
    end
  else OutOfBounds.

(** [(int) v.size()] *)
Definition size {A : Type} (v : list A) : Z := Z.of_nat (length v).

Definition ptr := nat.

(** ** util/DatasetReader.h: [ImageFolderReader] *)

Module DatasetReader.

(** Images are built by the codecs of [IOWrap] and by [Undistort], which
    are outside this layer: an image is the record of the call that
    made it. *)
Inductive MinimalImage : Type :=
| readImageBW_8U (filename : string)
| readImageBW_16U (filename : string)
| readImageRGB_8U_split (filename : string)
| readStreamBW_8U (data : list Byte.byte).

Record ImageAndExposure : Type := {
  image : MinimalImage;       (* the raw image handed to [undistort] *)
  exposure_time : float;      (* its [exposure] argument *)
  timestamp : double          (* its [timestamp] argument *)
}.

Record ImageFolderReader : Type := {
  ids : list Z;
  files : list string;
  timestamps : list double;
  exposures : list float;
  widthOrg : Z;
  heightOrg : Z;
  isZipped : bool;
  use16Bit : bool;
  useColour : bool;
  ziparchive : string -> list Byte.byte;  (* entry name to entry contents *)
  databuffer : option Z;                  (* capacity in bytes; [None] is the null pointer *)
  photometricGamma : option ptr           (* [undistort->photometricUndist->getG()] or 0 *)
}.

Definition set_series (r : ImageFolderReader)
    (ids' : list Z) (timestamps' : list double) (exposures' : list float) :=
  {| ids := ids'; files := files r; timestamps := timestamps'; exposures := exposures';
     widthOrg := widthOrg r; heightOrg := heightOrg r; isZipped := isZipped r;
     use16Bit := use16Bit r; useColour := useColour r; ziparchive := ziparchive r;
     databuffer := databuffer r; photometricGamma := photometricGamma r |}.

Definition set_databuffer (r : ImageFolderReader) (b : option Z) :=
  {| ids := ids r; files := files r; timestamps := timestamps r; exposures := exposures r;
     widthOrg := widthOrg r; heightOrg := heightOrg r; isZipped := isZipped r;
     use16Bit := use16Bit r; useColour := useColour r; ziparchive := ziparchive r;
     databuffer := b; photometricGamma := photometricGamma r |}.

Definition getNumImages (r : ImageFolderReader) : Z := size (files r).

Definition getPhotometricGamma (r : ImageFolderReader) : option ptr := photometricGamma r.

(** [0.04f] *)
Definition c_0_04f : float := f32_lit 4 100.

(** [getTimestamp]; the last branch indexes the vector. *)
Definition getTimestamp_outcome (r : ImageFolderReader) (id : Z) : outcome double :=
  if size (timestamps r) =? 0 then Ok (f64_of_f32 (f32_mul (f32_of_int id) c_0_04f))
  else if id >=? size (timestamps r) then Ok (f64_of_int 0)
  else if id <? 0 then Ok (f64_of_int 0)
  else vec_at (timestamps r) id.

(** The value [getTimestamp] returns ([getTimestamp_total] shows that the
    default is never used). *)
Definition getTimestamp (r : ImageFolderReader) (id : Z) : double :=
  match getTimestamp_outcome r id with
  | Ok t => t
  | _ => pzero
  end.

Definition getFilename (r : ImageFolderReader) (id : Z) : outcome string :=
  vec_at (files r) id.

(** [(exposures.size() == 0 ? 1.0f : exposures[id])] *)
Definition exposure_of (r : ImageFolderReader) (id : Z) : outcome float :=
  if size (exposures r) =? 0 then Ok (f32_of_int 1) else vec_at (exposures r) id.

(** [(timestamps.size() == 0 ? 0.0 : timestamps[id])] *)
Definition timestamp_of (r : ImageFolderReader) (id : Z) : outcome double :=
  if size (timestamps r) =? 0 then Ok (f64_of_int 0) else vec_at (timestamps r) id.

(** [zip_fread(fle, databuffer, nbytes)] on a freshly opened entry: the
    bytes written to the buffer; their number is the return value. *)
Definition zip_fread (entry : list Byte.byte) (nbytes : Z) : list Byte.byte :=
  take (Z.to_nat nbytes) entry.

(** One call [zip_fread(fle, databuffer, nbytes)]. *)
Record fread : Type := {
  capacity : Z;     (* the size [databuffer] was allocated with *)
  nbytes : Z;       (* the limit passed to the call *)
  readbytes : Z     (* the value returned: the number of bytes written *)
}.

Record raw_read : Type := {
  result : outcome MinimalImage;
  reader_after : ImageFolderReader;  (* the reader with its [databuffer] after the call *)
  freads : list fread;               (* the [zip_fread] calls made, in order *)
  reads : nat;                       (* number of [zip_fread] calls made *)
  overrun : Z                        (* bytes written past the end of [databuffer], 0 if none *)
}.

(** [getImageRaw_internal]. [assert(!use16Bit)] is compiled out under
    NDEBUG and is not modelled. A [zip_fread] that writes more bytes than
    the buffer holds does not change the control flow; it is recorded in
    [overrun]. *)
Definition getImageRaw_internal (r : ImageFolderReader) (id : Z) : raw_read :=
  if negb (isZipped r) then
    {| result := (let* f := vec_at (files r) id in Ok (readImageBW_8U f));
       reader_after := r; freads := []; reads := 0; overrun := 0 |}
  else
    let wh := widthOrg r * heightOrg r in
    let cap := match databuffer r with
               | None => wh * 6 + 10000
               | Some c => c
               end in
    match vec_at (files r) id with
    | Ok name =>
        let limit := wh * 6 + 10000 in
        let data := zip_fread (ziparchive r name) limit in
        let readbytes := size data in
        let first := {| capacity := cap; nbytes := limit; readbytes := readbytes |} in
        let over := Z.max 0 (readbytes - cap) in
        if readbytes >? wh * 6 then
          let cap2 := wh * 30 in
          let limit2 := wh * 30 + 10000 in
          let data2 := zip_fread (ziparchive r name) limit2 in
          let readbytes2 := size data2 in
          let second := {| capacity := cap2; nbytes := limit2; readbytes := readbytes2 |} in
          let over2 := Z.max over (readbytes2 - cap2) in
          if readbytes2 >? wh * 30 then
            {| result := Exit 1;
               reader_after := set_databuffer r (Some cap2); freads := [first; second];
               reads := 2; overrun := over2 |}
          else
            {| result := Ok (readStreamBW_8U data2);
               reader_after := set_databuffer r (Some cap2); freads := [first; second];
               reads := 2; overrun := over2 |}
        else
          {| result := Ok (readStreamBW_8U data);
             reader_after := set_databuffer r (Some cap); freads := [first];
             reads := 1; overrun := over |}
    | Exit c =>
        {| result := Exit c; reader_after := set_databuffer r (Some cap);
           freads := []; reads := 0; overrun := 0 |}
    | OutOfBounds =>
        {| result := OutOfBounds; reader_after := set_databuffer r (Some cap);
           freads := []; reads := 0; overrun := 0 |}
    end.

Definition getImageRaw (r : ImageFolderReader) (id : Z) : raw_read :=
  getImageRaw_internal r id.

Definition getImageRaw3_internal (r : ImageFolderReader) (id : Z) : outcome MinimalImage :=
  if negb (isZipped r) then
    let* f := vec_at (files r) id in Ok (readImageRGB_8U_split f)
  else Exit 1.

(** [undistort->undistort<T>(minimg, exposure, timestamp, ...)] with the
    two conditional arguments of [getImage_internal]. *)
Definition undistort (r : ImageFolderReader) (id : Z) (minimg : MinimalImage)
    : outcome ImageAndExposure :=
  let* e := exposure_of r id in
  let* t := timestamp_of r id in
  Ok {| image := minimg; exposure_time := e; timestamp := t |}.

Definition getImage_internal (r : ImageFolderReader) (id : Z)
    : outcome ImageAndExposure * ImageFolderReader :=
  if use16Bit r then
    if useColour r then (Exit 1, r)
    else
      ((let* f := vec_at (files r) id in undistort r id (readImageBW_16U f)), r)
  else
    if useColour r then
      ((let* minimg := getImageRaw3_internal r id in undistort r id minimg), r)
    else
      let rd := getImageRaw_internal r id in
      ((let* minimg := result rd in undistort r id minimg), reader_after rd).

Definition getImage (r : ImageFolderReader) (id : Z) :=
  getImage_internal r id.

(** *** [loadTimestamps] *)

(** One line of [times.txt] as the two [sscanf] calls see it. *)
Inductive times_line : Type :=
| Line3 (id : Z) (stamp : double) (exposure : float)
    (* "%lld %lf %f" matched three fields *)
| Line2 (id : Z) (stamp : double)
    (* only "%lld %lf" matched two fields *)
| LineBad.
    (* neither matched: nothing is pushed *)

(** Body of the reading loop: the three vectors grow together, and
    [exposure] starts at 0 for every line. *)
Definition read_line (r : ImageFolderReader) (l : times_line) : ImageFolderReader :=
  match l with
  | Line3 id stamp exposure =>
      set_series r (ids r ++ [id]) (timestamps r ++ [stamp]) (exposures r ++ [exposure])
  | Line2 id stamp =>
      set_series r (ids r ++ [id]) (timestamps r ++ [stamp]) (exposures r ++ [f32_of_int 0])
  | LineBad => r
  end.

(** [exposures[i]] inside the repair loop, where every index is guarded. *)
Definition ex_at (exposures : list float) (i : nat) : float :=
  default pzero (exposures !! i).

(** The value of [exposures[i]] after iteration [i] of the repair loop,
    from [exposures[i-1]] (when [i > 0]), [exposures[i]] and
    [exposures[i+1]] (when [i+1 < size]). *)
Definition repaired (left : option float) (cur : float) (right : option float) : float :=
  if f32_eqb cur (f32_of_int 0) then
    let sum := f32_of_int 0 in
    let num := f32_of_int 0 in
    let '(sum, num) :=
      match left with
      | Some l => if f32_ltb (f32_of_int 0) l
                  then (f32_add sum l, f32_add num (f32_of_int 1))
                  else (sum, num)
      | None => (sum, num)
      end in
    let '(sum, num) :=
      match right with
      | Some x => if f32_ltb (f32_of_int 0) x
                  then (f32_add sum x, f32_add num (f32_of_int 1))
                  else (sum, num)
      | None => (sum, num)
      end in
    if f32_ltb (f32_of_int 0) num then f32_div sum num else cur
  else cur.

(** Body of [for(int i=0;i<(int)exposures.size();i++)]. *)
Definition repair_step (st : list float * bool) (i : nat) : list float * bool :=
  let '(exposures, exposuresGood) := st in
  let left := if 0 <? Z.of_nat i then Some (ex_at exposures (i - 1)) else None in
  let right := if Z.of_nat i + 1 <? size exposures
               then Some (ex_at exposures (i + 1)) else None in
  let exposures := <[i := repaired left (ex_at exposures i) right]> exposures in
  let exposuresGood :=
    if f32_eqb (ex_at exposures i) (f32_of_int 0) then false else exposuresGood in
  (exposures, exposuresGood).

Definition repair_loop (exposures : list float) (exposuresGood : bool)
    : list float * bool :=
  fold_left repair_step (seq 0 (length exposures)) (exposures, exposuresGood).

(** What iteration [i] of the repair loop writes at position [i], in
    terms of the list [out] as it is when the iteration starts (of which
    only position [i-1] is read) and of the list [e] the loop started from. *)
Definition repaired_at (out e : list float) (i : nat) : float :=
  repaired (if 0 <? Z.of_nat i then Some (ex_at out (i - 1)) else None)
           (ex_at e i)
           (if Z.of_nat i + 1 <? size e then Some (ex_at e (i + 1)) else None).

(** [exposures[i] == 0] fails. *)
Definition nonzero (x : float) : bool := negb (f32_eqb x (f32_of_int 0)).

(** The neighbours that take part in a repair: those that are [> 0]. *)
Definition positive_neighbours (left right : option float) : list float :=
  let keep (o : option float) :=
    match o with
    | Some x => if f32_ltb (f32_of_int 0) x then [x] else []
    | None => []
    end in
  keep left ++ keep right.

(** [sum/num] for [sum] and [num] accumulated from 0 over the values. *)
Definition average (xs : list float) : float :=
  f32_div (fold_left f32_add xs (f32_of_int 0))
          (fold_left (fun num _ => f32_add num (f32_of_int 1)) xs (f32_of_int 0)).

(** [loadTimestamps] on the lines read from [times.txt] (none when the
    file cannot be opened). *)
Definition loadTimestamps (r : ImageFolderReader) (lines : list times_line)
    : ImageFolderReader :=
  let r := fold_left read_line lines r in
  let exposuresGood := size (exposures r) =? getNumImages r in
  let '(exposures1, exposuresGood) := repair_loop (exposures r) exposuresGood in
  let r := set_series r (ids r) (timestamps r) exposures1 in
  let r := if negb (getNumImages r =? size (timestamps r))
           then set_series r (ids r) [] []
           else r in
  if negb (getNumImages r =? size (exposures r)) || negb exposuresGood
  then set_series r (ids r) (timestamps r) []
  else r.

(** The reader as its constructor leaves it: the vectors start empty and
    [databuffer] is null. *)
Definition construct (files : list string) (widthOrg heightOrg : Z)
    (isZipped use16Bit useColour : bool) (ziparchive : string -> list Byte.byte)
    (gamma : option ptr) (lines : list times_line) : ImageFolderReader :=
  loadTimestamps
    {| ids := []; files := files; timestamps := []; exposures := [];
       widthOrg := widthOrg; heightOrg := heightOrg; isZipped := isZipped;
       use16Bit := use16Bit; useColour := useColour; ziparchive := ziparchive;
       databuffer := None; photometricGamma := gamma |}
    lines.

(** The precondition of the per-id operations. *)
Definition in_range (r : ImageFolderReader) (id : Z) : Prop :=
  0 <= id < getNumImages r.

(** The lengths [loadTimestamps] leaves: each series is empty or has one
    entry per file. *)
Definition lengths_reconciled (r : ImageFolderReader) : Prop :=
  (size (timestamps r) = 0 \/ size (timestamps r) = getNumImages r)
  /\ (size (exposures r) = 0 \/ size (exposures r) = getNumImages r).

(** The configurations in which [getImage_internal] exits before it
    touches a vector: colour with 16 bit, and colour from an archive. *)
Definition unsupported (r : ImageFolderReader) : bool :=
  (use16Bit r && useColour r) || (negb (use16Bit r) && useColour r && isZipped r).

End DatasetReader.

(** ** main.cpp: playback plan, pacing and the session loop *)

Module Main.
Import DatasetReader.

(** *** Bounds of the playback loop ([main], lines 218-230) *)

Record bounds : Type := { lstart : Z; lend : Z; linc : Z }.

Definition playback_bounds (reverse : bool) (startIndex endIndex numImages : Z) : bounds :=
  if reverse then
    let lstart := endIndex - 1 in
    let lstart := if lstart >=? numImages then numImages - 1 else lstart in
    {| lstart := lstart; lend := startIndex; linc := -1 |}
  else
    {| lstart := startIndex; lend := endIndex; linc := 1 |}.

(** *** The playback plan ([runthread], lines 253-268) *)

Record plan : Type := { idsToPlay : list Z; timesToPlayAt : list double }.

(** [v[i]] where the index is in range by construction. *)
Definition at_ {A : Type} (d : A) (v : list A) (i : Z) : A :=
  default d (v !! Z.to_nat i).

(** Body of the plan loop for index [i]. *)
Definition plan_push (r : ImageFolderReader) (playbackSpeed : float) (p : plan) (i : Z)
    : plan :=
  let ids := idsToPlay p ++ [i] in
  let times :=
    if size (timesToPlayAt p) =? 0 then timesToPlayAt p ++ [f64_of_int 0]
    else
      let tsThis := getTimestamp r (at_ 0 ids (size ids - 1)) in
      let tsPrev := getTimestamp r (at_ 0 ids (size ids - 2)) in
      timesToPlayAt p ++
        [f64_add (default pzero (last (timesToPlayAt p)))    (* [timesToPlayAt.back()] *)
                 (f64_div (f64_abs (f64_sub tsThis tsPrev)) (f64_of_f32 playbackSpeed))] in
  {| idsToPlay := ids; timesToPlayAt := times |}.

(** [for(int i=lstart; i>=0 && i<N && linc*i < linc*lend; i+=linc)];
    [None] when the fuel runs out before the condition fails. *)
Fixpoint plan_loop (fuel : nat) (r : ImageFolderReader) (playbackSpeed : float)
    (b : bounds) (i : Z) (p : plan) : option plan :=
  if (i >=? 0) && (i <? getNumImages r) && (linc b * i <? linc b * lend b) then
    match fuel with
    | O => None
    | S fuel' => plan_loop fuel' r playbackSpeed b (i + linc b) (plan_push r playbackSpeed p i)
    end
  else Some p.

Definition build_plan (r : ImageFolderReader) (playbackSpeed : float) (b : bounds)
    : option plan :=
  plan_loop (Z.to_nat (getNumImages r)) r playbackSpeed b (lstart b)
    {| idsToPlay := []; timesToPlayAt := [] |}.

(** [n] integers from [a] on, [step] apart: the shape of [idsToPlay]. *)
Definition stride (a step : Z) (n : nat) : list Z :=
  map (fun k => a + step * Z.of_nat k) (seq 0 n).

(** The target that follows the target [t] of id [i] when the next id is
    [j]: [t + fabs(tsThis-tsPrev)/playbackSpeed]. *)
Definition next_target (r : ImageFolderReader) (playbackSpeed : float)
    (t : double) (i j : Z) : double :=
  f64_add t (f64_div (f64_abs (f64_sub (getTimestamp r j) (getTimestamp r i)))
                     (f64_of_f32 playbackSpeed)).

(** The two vectors of a plan grow together, the first target is 0 and
    every other target is [next_target] of the one before. *)
Definition plan_ok (r : ImageFolderReader) (playbackSpeed : float) (p : plan) : Prop :=
  length (timesToPlayAt p) = length (idsToPlay p)
  /\ (forall t, timesToPlayAt p !! 0%nat = Some t -> t = f64_of_int 0)
  /\ (forall (k : nat) (i j : Z) (t : double),
      idsToPlay p !! k = Some i -> idsToPlay p !! S k = Some j ->
      timesToPlayAt p !! k = Some t ->
      timesToPlayAt p !! S k = Some (next_target r playbackSpeed t i j)).

(** *** Pacing ([runthread], lines 314-327) *)

Record timeval : Type := { tv_sec : Z; tv_usec : Z }.

(** [sInitializerOffset + ((tv_now.tv_sec-tv_start.tv_sec)
    + (tv_now.tv_usec-tv_start.tv_usec)/(1000.0f*1000.0f))]: the
    parenthesis is computed in [float]. *)
Definition sSinceStart (sInitializerOffset : double) (tv_start tv_now : timeval) : double :=
  f64_add sInitializerOffset
    (f64_of_f32
       (f32_add (f32_of_int (tv_sec tv_now - tv_sec tv_start))
                (f32_div (f32_of_int (tv_usec tv_now - tv_usec tv_start))
                         (f32_mul (f32_of_int 1000) (f32_of_int 1000))))).

(** [timesToPlayAt[ii]+0.5+0.1*(ii%2)] *)
Definition skip_threshold (target : double) (ii : Z) : double :=
  f64_add (f64_add target (f64_lit 1 2))
          (f64_mul (f64_lit 1 10) (f64_of_int (Z.rem ii 2))).

Inductive pacing : Type :=
| Feed                      (* neither branch taken *)
| SleepThenFeed (usec : option Z)
    (* [usleep((int)(...))]; [None] when the conversion to [int] is undefined *)
| SkipFrame.                (* [skipFrame=true] *)

Definition pace (playbackSpeed : float) (ii : Z) (target since : double) : pacing :=
  if negb (f32_eqb playbackSpeed (f32_of_int 0)) then
    if f64_ltb since target then
      SleepThenFeed
        (f64_to_int (f64_mul (f64_mul (f64_sub target since) (f64_of_int 1000))
                             (f64_of_int 1000)))
    else if f64_ltb (skip_threshold target ii) since then SkipFrame
    else Feed
  else Feed.

Definition skipFrame (p : pacing) : bool :=
  match p with
  | SkipFrame => true
  | _ => false
  end.

(** *** The engine and the session ([runthread], lines 282-406) *)

(** What this layer sees of [FullSystem]: the fields it reads and
    writes. [internals] stands for the rest of the engine, which only
    the engine itself interprets. *)
Record FullSystem : Type := {
  gammaFunction : option ptr;      (* argument of [setGammaFunction] *)
  linearizeOperation : bool;
  outputWrapper : list ptr;
  initialized : bool;
  initFailed : bool;
  isLost : bool;
  internals : list Z
}.

Definition setGammaFunction (fs : FullSystem) (g : option ptr) : FullSystem :=
  {| gammaFunction := g; linearizeOperation := linearizeOperation fs;
     outputWrapper := outputWrapper fs; initialized := initialized fs;
     initFailed := initFailed fs; isLost := isLost fs; internals := internals fs |}.

Definition set_linearizeOperation (fs : FullSystem) (b : bool) : FullSystem :=
  {| gammaFunction := gammaFunction fs; linearizeOperation := b;
     outputWrapper := outputWrapper fs; initialized := initialized fs;
     initFailed := initFailed fs; isLost := isLost fs; internals := internals fs |}.

Definition set_outputWrapper (fs : FullSystem) (w : list ptr) : FullSystem :=
  {| gammaFunction := gammaFunction fs; linearizeOperation := linearizeOperation fs;
     outputWrapper := w; initialized := initialized fs;
     initFailed := initFailed fs; isLost := isLost fs; internals := internals fs |}.

Record config : Type := {
  reverse : bool;
  startIndex : Z;
  endIndex : Z;
  playbackSpeed : float;
  preload : bool;
  viewer : option ptr;          (* [None] when the display is disabled *)
  useSampleOutput : option ptr; (* the [SampleOutputWrapper], when requested *)
  setting_logStuff : bool
}.

Inductive event : Type :=
| Usleep (usec : option Z)
| AddActiveFrame (i : Z)
| PrintSkipFrame (ii : Z)
| WrapperReset (ow : ptr)
| DeleteFullSystem
| NewFullSystem
| BlockUntilMappingIsFinished
| PrintResult
| PrintStatistics
| WriteTimeLog.

Record session : Type := {
  fullSystem : FullSystem;
  reader : ImageFolderReader;
  tv_start : timeval;
  sInitializerOffset : double;
  setting_fullResetRequested : bool;
  events : list event             (* oldest first *)
}.

Definition log (st : session) (evs : list event) : session :=
  {| fullSystem := fullSystem st; reader := reader st; tv_start := tv_start st;
     sInitializerOffset := sInitializerOffset st;
     setting_fullResetRequested := setting_fullResetRequested st;
     events := events st ++ evs |}.

Definition set_fullSystem (st : session) (fs : FullSystem) : session :=
  {| fullSystem := fs; reader := reader st; tv_start := tv_start st;
     sInitializerOffset := sInitializerOffset st;
     setting_fullResetRequested := setting_fullResetRequested st;
     events := events st |}.

Definition set_reader (st : session) (r : ImageFolderReader) : session :=
  {| fullSystem := fullSystem st; reader := r; tv_start := tv_start st;
     sInitializerOffset := sInitializerOffset st;
     setting_fullResetRequested := setting_fullResetRequested st;
     events := events st |}.

Definition set_start (st : session) (tv : timeval) (offset : double) : session :=
  {| fullSystem := fullSystem st; reader := reader st; tv_start := tv;
     sInitializerOffset := offset;
     setting_fullResetRequested := setting_fullResetRequested st;
     events := events st |}.

Definition set_fullResetRequested (st : session) (b : bool) : session :=
  {| fullSystem := fullSystem st; reader := reader st; tv_start := tv_start st;
     sInitializerOffset := sInitializerOffset st;
     setting_fullResetRequested := b;
     events := events st |}.

(** What the rest of the process does during one iteration of the
    playback loop. *)
Record env : Type := {
  pause_polls : nat;       (* times [Pause] is found set at the top of the iteration *)
  tv_anchor : timeval;     (* [gettimeofday(&tv_start)] of line 298 *)
  tv_now : timeval;        (* [gettimeofday(&tv_now)] of line 317 *)
  viewer_isDead : bool;    (* [viewer->isDead] at line 336 *)
  reset_requested : bool   (* the display set [setting_fullResetRequested] since the last check *)
}.

(** How an iteration, the loop or the thread ends. *)
Inductive flow : Type :=
| Next                     (* the iteration is over: go on with [ii+1] *)
| LoopExit                 (* [break] *)
| Returned                 (* the body of the thread ran to its end *)
| ProcessExit (code : Z)   (* [exit(code)] *)
| IndexOutOfBounds.        (* a vector indexed out of range *)

(** The frames handed to the engine, in order, among the events. *)
Definition fed (evs : list event) : list Z :=
  omap (fun ev => match ev with
                  | AddActiveFrame i => Some i
                  | _ => None
                  end) evs.

(** The events of an honoured reset, for the wrappers [wraps]: lines
    344-353. *)
Definition reset_events (wraps : list ptr) : list event :=
  map WrapperReset wraps ++ [Usleep (Some 20000); DeleteFullSystem; NewFullSystem].

(** The events of lines 370-405. *)
Definition finalization_events (logStuff : bool) : list event :=
  [BlockUntilMappingIsFinished; PrintResult; PrintStatistics]
  ++ (if logStuff then [WriteTimeLog] else []).

Section Runthread.

(** The engine is an external collaborator: its constructor and
    [addActiveFrame] are taken as given. *)
Variable new_FullSystem : FullSystem.
Variable addActiveFrame : FullSystem -> ImageAndExposure -> Z -> FullSystem.

Variable cfg : config.

(** [new FullSystem(); setGammaFunction(reader->getPhotometricGamma());
    linearizeOperation = (playbackSpeed == 0)]: lines 234-236 and
    353-355. *)
Definition fresh_engine (r : ImageFolderReader) : FullSystem :=
  set_linearizeOperation
    (setGammaFunction new_FullSystem (getPhotometricGamma r))
    (f32_eqb (playbackSpeed cfg) (f32_of_int 0)).

Definition push_back_opt (w : option ptr) (fs : FullSystem) : FullSystem :=
  match w with
  | Some ow => set_outputWrapper fs (outputWrapper fs ++ [ow])
  | None => fs
  end.

(** Lines 234-248. *)
Definition initial_engine (r : ImageFolderReader) : FullSystem :=
  push_back_opt (useSampleOutput cfg) (push_back_opt (viewer cfg) (fresh_engine r)).

(** Lines 339-361. *)
Definition handle_reset (ii : Z) (st : session) : session :=
  if initFailed (fullSystem st) || setting_fullResetRequested st then
    if (ii <? 250) || setting_fullResetRequested st then
      let wraps := outputWrapper (fullSystem st) in
      let st := log st (reset_events wraps) in
      let st := set_fullSystem st (set_outputWrapper (fresh_engine (reader st)) wraps) in
      set_fullResetRequested st false
    else st
  else st.

(** Lines 339-367: reset handling, then the loss check. *)
Definition after_frame (ii : Z) (st : session) : flow * session :=
  let st := handle_reset ii st in
  if isLost (fullSystem st) then (LoopExit, st) else (Next, st).

(** Lines 290-293: [while (Pause) usleep(5000);]. *)
Definition wait_while_paused (e : env) (st : session) : session :=
  log st (replicate (pause_polls e) (Usleep (Some 5000))).

(** Lines 296-301: while the engine is not initialized the start time is
    reset and the offset is the target of the current position. *)
Definition anchor_start (target : double) (e : env) (st : session) : session :=
  if negb (initialized (fullSystem st)) then set_start st (tv_anchor e) target else st.

(** Lines 306-310. *)
Definition fetch_image (preloadedImages : list ImageAndExposure) (ii i : Z) (st : session)
    : outcome ImageAndExposure * session :=
  if preload cfg then (vec_at preloadedImages ii, st)
  else let '(img, r) := getImage (reader st) i in (img, set_reader st r).

(** Lines 314-327: the pacing decision at position [ii]. *)
Definition pacing_of (ii : Z) (target : double) (e : env) (st : session) : pacing :=
  pace (playbackSpeed cfg) ii target
       (sSinceStart (sInitializerOffset st) (tv_start st) (tv_now e)).

(** Lines 320-330: the sleep or the skip message, then
    [if (!skipFrame) fullSystem->addActiveFrame(img, i)]. *)
Definition feed_frame (pc : pacing) (ii i : Z) (img : ImageAndExposure) (st : session)
    : session :=
  let st := match pc with
            | SleepThenFeed usec => log st [Usleep usec]
            | SkipFrame => log st [PrintSkipFrame ii]
            | Feed => st
            end in
  if skipFrame pc then st
  else log (set_fullSystem st (addActiveFrame (fullSystem st) img i)) [AddActiveFrame i].

(** Body of the playback loop for plan position [ii], with
    [i = idsToPlay[ii]] and [target = timesToPlayAt[ii]]. *)
Definition iteration (preloadedImages : list ImageAndExposure)
    (ii i : Z) (target : double) (e : env) (st : session) : flow * session :=
  let st := anchor_start target e (wait_while_paused e st) in
  match fetch_image preloadedImages ii i st with
  | (Exit code, st) => (ProcessExit code, st)
  | (OutOfBounds, st) => (IndexOutOfBounds, st)
  | (Ok img, st) =>
      let st := feed_frame (pacing_of ii target e st) ii i img st in
      if bool_decide (is_Some (viewer cfg)) && viewer_isDead e then (LoopExit, st)
      else
        after_frame ii
          (set_fullResetRequested st (setting_fullResetRequested st || reset_requested e))
  end.

(** [n] iterations of [for(int ii=0;ii<(int)idsToPlay.size(); ii++)]
    from position [ii]; [Next] when all [n] ran and none left the loop.
    [idsToPlay[ii]] and [timesToPlayAt[ii]] are read at the head of the
    iteration. *)
Fixpoint playback (p : plan) (preloadedImages : list ImageAndExposure)
    (envs : Z -> env) (n : nat) (ii : Z) (st : session) : flow * session :=
  match n with
  | O => (Next, st)
  | S n' =>
      match vec_at (idsToPlay p) ii, vec_at (timesToPlayAt p) ii with
      | Ok i, Ok target =>
          match iteration preloadedImages ii i target (envs ii) st with
          | (Next, st') => playback p preloadedImages envs n' (ii + 1) st'
          | stop => stop
          end
      | _, _ => (IndexOutOfBounds, st)
      end
  end.

(** Lines 271-280: [preloadedImages.push_back(reader->getImage(i))]. *)
Fixpoint preload_images (r : ImageFolderReader) (ids : list Z)
    : outcome (list ImageAndExposure) * ImageFolderReader :=
  match ids with
  | [] => (Ok [], r)
  | i :: rest =>
      match getImage r i with
      | (Ok img, r') =>
          match preload_images r' rest with
          | (Ok imgs, r'') => (Ok (img :: imgs), r'')
          | stop => stop
          end
      | (Exit code, r') => (Exit code, r')
      | (OutOfBounds, r') => (OutOfBounds, r')
      end
  end.

(** Lines 370-405: what follows the loop. *)
Definition finalize (p : plan) (st : session) : flow * session :=
  let st := log st [BlockUntilMappingIsFinished; PrintResult] in
  match idsToPlay p with
  | [] => (IndexOutOfBounds, st)     (* [idsToPlay[0]] *)
  | _ :: _ =>
      (Returned,
       log st (PrintStatistics :: if setting_logStuff cfg then [WriteTimeLog] else []))
  end.

(** The plan of the run ([the_plan_built] shows that the loop always
    yields one). *)
Definition the_plan (r : ImageFolderReader) : plan :=
  default {| idsToPlay := []; timesToPlayAt := [] |}
    (build_plan r (playbackSpeed cfg)
       (playback_bounds (reverse cfg) (startIndex cfg) (endIndex cfg) (getNumImages r))).

(** The session as [runthread] starts its loop; the engine is built
    from the reader before any image is read, and reading images leaves
    [getPhotometricGamma] unchanged. *)
Definition initial_session (r : ImageFolderReader) (tv : timeval) : session :=
  {| fullSystem := initial_engine r; reader := r; tv_start := tv;
     sInitializerOffset := f64_of_int 0; setting_fullResetRequested := false;
     events := [] |}.

(** The body of [runthread]. *)
Definition runthread (r : ImageFolderReader) (tv : timeval) (envs : Z -> env)
    : flow * session :=
  let p := the_plan r in
  let '(imgs, r1) := if preload cfg then preload_images r (idsToPlay p) else (Ok [], r) in
  let st := initial_session r1 tv in
  match imgs with
  | Exit code => (ProcessExit code, st)
  | OutOfBounds => (IndexOutOfBounds, st)
  | Ok imgs =>
      match playback p imgs envs (length (idsToPlay p)) 0 st with
      | (Next, st') => finalize p st'       (* the loop condition failed *)
      | (LoopExit, st') => finalize p st'   (* [break] *)
      | stop => stop
      end
  end.

End Runthread.

End Main.

(** ** Inputs used in the examples, and the wording of the specification *)

Module Examples.
Import DatasetReader Main.

Definition no_archive : string -> list Byte.byte := fun _ => [].

(** A directory of [n] image files and the given lines of [times.txt]. *)
Definition folder (n : nat) (lines : list times_line) : ImageFolderReader :=
  construct (replicate n "img.png"%string) 640 480 false false false no_archive None lines.

(** Five frames, no side-car file. *)
Definition five_frames : ImageFolderReader := folder 5 [].

(** [times.txt] giving frame [k] the timestamp [k] seconds and the
    [k]-th exposure of the list. *)
Definition lines_of (exposures : list Z) : list times_line :=
  imap (fun k x => Line3 (Z.of_nat k) (f64_of_int (Z.of_nat k)) (f32_of_int x)) exposures.

Definition with_exposures (exposures : list Z) : ImageFolderReader :=
  folder (length exposures) (lines_of exposures).

(** Three frames one second apart. *)
Definition three_frames : ImageFolderReader := with_exposures [1; 1; 1].

(** An archive of 30x20 images whose only entry holds [n] bytes. *)
Definition archive (n : Z) : ImageFolderReader :=
  construct ["000.png"%string] 30 20 true false false
    (fun _ => replicate (Z.to_nat n) Byte.x00) None [].

(** The specification's wording of the repair: the nearest non-zero
    exposure on one side of a position, at any distance. *)
Definition nearest_valid (side : list float) : option float :=
  List.find (fun x => negb (f32_eqb x (f32_of_int 0))) side.

Definition nearest_valid_left (exposures : list float) (i : nat) : option float :=
  nearest_valid (rev (take i exposures)).

Definition nearest_valid_right (exposures : list float) (i : nat) : option float :=
  nearest_valid (drop (S i) exposures).

(** An engine as its constructor leaves it. *)
Definition engine0 : FullSystem :=
  {| gammaFunction := None; linearizeOperation := false; outputWrapper := [];
     initialized := false; initFailed := false; isLost := false; internals := [] |}.

(** An engine that is initialized by its first frame and loses track when
    it is given frame [bad]. *)
Definition lost_at (bad : Z) (fs : FullSystem) (img : ImageAndExposure) (i : Z)
    : FullSystem :=
  {| gammaFunction := gammaFunction fs; linearizeOperation := linearizeOperation fs;
     outputWrapper := outputWrapper fs; initialized := true;
     initFailed := initFailed fs; isLost := isLost fs || (i =? bad);
     internals := internals fs ++ [i] |}.

(** Unpaced forward playback of the whole catalog, with a display and
    logging. *)
Definition cfg0 : config :=
  {| reverse := false; startIndex := 0; endIndex := 100000;
     playbackSpeed := f32_of_int 0; preload := false; viewer := Some 1%nat;
     useSampleOutput := None; setting_logStuff := true |}.

Definition tv0 : timeval := {| tv_sec := 1000; tv_usec := 0 |}.

(** Nothing happens around the loop: no pause, a live display, no reset
    request. *)
Definition quiet : Z -> env :=
  fun _ => {| pause_polls := 0; tv_anchor := tv0; tv_now := tv0;
              viewer_isDead := false; reset_requested := false |}.

(** A session whose engine, with two output wrappers, has just reported
    [initFailed]. *)
Definition failed_session : session :=
  {| fullSystem :=
       {| gammaFunction := None; linearizeOperation := true; outputWrapper := [1; 2]%nat;
          initialized := false; initFailed := true; isLost := false; internals := [7] |};
     reader := three_frames; tv_start := tv0; sInitializerOffset := f64_of_int 0;
     setting_fullResetRequested := false; events := [AddActiveFrame 0] |}.

(** An engine that is initialized by its first frame and reports
    [initFailed] from frame [bad] on. *)
Definition fails_at (bad : Z) (fs : FullSystem) (img : ImageAndExposure) (i : Z)
    : FullSystem :=
  {| gammaFunction := gammaFunction fs; linearizeOperation := linearizeOperation fs;
     outputWrapper := outputWrapper fs; initialized := true;
     initFailed := initFailed fs || (i =? bad); isLost := isLost fs;
     internals := internals fs ++ [i] |}.

(** The display is closed during iteration [at_ii]; nothing else
    happens. *)
Definition closed_at (at_ii : Z) : Z -> env :=
  fun ii => {| pause_polls := 0; tv_anchor := tv0; tv_now := tv0;
               viewer_isDead := (ii =? at_ii); reset_requested := false |}.

(** The display requests a full reset during iteration [at_ii]; nothing
    else happens. *)
Definition reset_at (at_ii : Z) : Z -> env :=
  fun ii => {| pause_polls := 0; tv_anchor := tv0; tv_now := tv0;
               viewer_isDead := false; reset_requested := (ii =? at_ii) |}.



(** The specification's wording of an iteration of the playback loop.
    The start time and the offset in force are those of the session when
    the engine is initialized at the head of the iteration, else the time
    read then and the target of the position. *)
Definition anchor_of (target : double) (e : env) (st : session) : timeval * double :=
  if initialized (fullSystem st) then (tv_start st, sInitializerOffset st)
  else (tv_anchor e, target).

(** The elapsed time compared with the target: the offset plus the time
    measured since the start. *)
Definition elapsed (target : double) (e : env) (st : session) : double :=
  sSinceStart (snd (anchor_of target e st)) (fst (anchor_of target e st)) (tv_now e).

(** What the pacing decision and the hand-over of frame [i] at position
    [ii] do. *)
Definition pacing_events (pc : pacing) (ii i : Z) : list event :=
  match pc with
  | SleepThenFeed usec => [Usleep usec; AddActiveFrame i]
  | SkipFrame => [PrintSkipFrame ii]
  | Feed => [AddActiveFrame i]
  end.

(** The session when the frame [img] of position [ii], read with the
    reader left as [rd], has been paced and handed over or skipped: the
    state at the check of the display (line 335). *)
Definition paced (addActiveFrame : FullSystem -> ImageAndExposure -> Z -> FullSystem)
    (cfg : config) (ii i : Z) (target : double) (e : env) (st : session)
    (rd : ImageFolderReader) (img : ImageAndExposure) : session :=
  let pc := pace (playbackSpeed cfg) ii target (elapsed target e st) in
  {| fullSystem := if skipFrame pc then fullSystem st
                   else addActiveFrame (fullSystem st) img i;
     reader := rd;
     tv_start := fst (anchor_of target e st);
     sInitializerOffset := snd (anchor_of target e st);
     setting_fullResetRequested := setting_fullResetRequested st;
     events := events st ++ replicate (pause_polls e) (Usleep (Some 5000))
               ++ pacing_events pc ii i |}.

(** The engine a performed reset builds, in the specification's wording:
    a new engine with the gamma function of the reader and the linearized
    flag of the playback speed, and the output wrappers [wraps]. *)
Definition rebuilt (new_FullSystem : FullSystem) (cfg : config) (r : ImageFolderReader)
    (wraps : list ptr) : FullSystem :=
  {| gammaFunction := getPhotometricGamma r;
     linearizeOperation := f32_eqb (playbackSpeed cfg) (f32_of_int 0);
     outputWrapper := wraps;
     initialized := initialized new_FullSystem;
     initFailed := initFailed new_FullSystem;
     isLost := isLost new_FullSystem;
     internals := internals new_FullSystem |}.

End Examples.

(** ** Notions used to state the properties of the reader and of a run *)

Module ReaderNotions.
Import DatasetReader.

(** What the reading loop of [loadTimestamps] pushes for a line, if
    anything: the id, the stamp and the exposure, which is 0 when the line
    has no third field. *)
Definition line_entry (l : times_line) : option (Z * double * float) :=
  match l with
  | Line3 id stamp exposure => Some (id, stamp, exposure)
  | Line2 id stamp => Some (id, stamp, f32_of_int 0)
  | LineBad => None
  end.

Definition entries (lines : list times_line) : list (Z * double * float) :=
  omap line_entry lines.

Definition entry_id (e : Z * double * float) : Z := fst (fst e).
Definition entry_stamp (e : Z * double * float) : double := snd (fst e).
Definition entry_exposure (e : Z * double * float) : float := snd e.

(** Two readers that differ at most in the state of the archive buffer. *)
Definition same_catalog (r r' : ImageFolderReader) : Prop :=
  set_databuffer r None = set_databuffer r' None.

(** [databuffer] is null or holds the [w*h*6+10000] bytes of the first
    read of a frame. *)
Definition first_read_fits (r : ImageFolderReader) : Prop :=
  match databuffer r with
  | None => True
  | Some c => widthOrg r * heightOrg r * 6 + 10000 <= c
  end.

(** The file or archive entry an image was decoded from. *)
Definition decoded_from (r : ImageFolderReader) (name : string) (m : MinimalImage) : Prop :=
  match m with
  | readImageBW_8U f => isZipped r = false /\ f = name
  | readImageBW_16U f => f = name
  | readImageRGB_8U_split f => f = name
  | readStreamBW_8U data => isZipped r = true /\ data = ziparchive r name
  end.

End ReaderNotions.

Module RunSettings.
Import DatasetReader Main.

(** The configuration with another value of [preload]. *)
Definition set_preload (c : config) (b : bool) : config :=
  {| reverse := reverse c; startIndex := startIndex c; endIndex := endIndex c;
     playbackSpeed := playbackSpeed c; preload := b; viewer := viewer c;
     useSampleOutput := useSampleOutput c; setting_logStuff := setting_logStuff c |}.

End RunSettings.

Module RunEvents.
Import DatasetReader Main.

(** The events of a run that is not paced: the polls of a pause, the
    frames, the resets and the finalization, but no sleep to wait for a
    target and no skipped frame. *)
Definition unpaced_event (ev : event) : bool :=
  match ev with
  | Usleep usec => bool_decide (usec = Some 5000) || bool_decide (usec = Some 20000)
  | PrintSkipFrame _ => false
  | _ => true
  end.

(** No event of the session is a sleep for a target or a skipped frame. *)
Definition quiet_events (st : session) : Prop := forallb unpaced_event (events st) = true.

End RunEvents.

Module Numbers.

(** A value of the binary64 format. *)
Definition is_double (x : spec_float) : bool := valid_binary prec64 emax64 x.

(** A value of the binary32 format. *)
Definition is_float (x : spec_float) : bool := valid_binary prec32 emax32 x.

(** Neither an infinity nor NaN. *)
Definition is_finite (x : spec_float) : bool :=
  match x with
  | S754_zero _ | S754_finite _ _ _ => true
  | _ => false
  end.

(** A number that is not negative: +0, a positive value or +infinity. *)
Definition nonneg_number (x : spec_float) : bool :=
  match x with
  | S754_zero false | S754_finite false _ _ | S754_infinity false => true
  | _ => false
  end.

End Numbers.

(** ** util/DatasetReader.h: [getdir] and the constructor of [ImageFolderReader] *)

Module Directory.
Import DatasetReader.

(** A call that may end in an uncaught [std::out_of_range], which is
    what [std::string::at] throws past the end of the string. *)
Inductive may_throw (A : Type) : Type :=
| Done (a : A)
| ThrowsOutOfRange.
Arguments Done {A} a.
Arguments ThrowsOutOfRange {A}.

(** The character ['/']. *)
Definition slash : Ascii.ascii := Ascii.ascii_of_nat 47.

(** [s.at(i)] for an index [i] of type [size_t]. *)
Definition string_at (s : string) (i : Z) : may_throw Ascii.ascii :=
  if i <? Z.of_nat (String.length s) then
    match String.get (Z.to_nat i) s with
    | Some c => Done c
    | None => ThrowsOutOfRange
    end
  else ThrowsOutOfRange.

(** [s.length() - 1] in [size_t]: the subtraction wraps around for the
    empty string, and only for it. *)
Definition length_minus_1 (s : string) : Z :=
  if Z.of_nat (String.length s) =? 0 then 2 ^ 64 - 1 else Z.of_nat (String.length s) - 1.

(** [a <= b] for [std::string]: [operator<] compares the bytes in
    lexicographic order. *)
Definition string_le (a b : string) : Prop := Is_true (String.leb a b).

(** [std::sort(files.begin(), files.end())]. The order is total and two
    names that compare equal are the same name, so the sorted vector does
    not depend on the algorithm ([sorted_files_unique]); a merge sort
    stands for it. *)
Definition sort_files (files : list string) : list string :=
  @merge_sort string string_le (fun a b => Is_true_dec (String.leb a b)) files.

(** [name != "." && name != ".."] *)
Definition keep_entry (name : string) : bool :=
  negb (String.eqb name ".") && negb (String.eqb name "..").

(** [dir + files[i]] unless [files[i].at(0)] is a slash. *)
Definition with_dir (dir f : string) : may_throw string :=
  match string_at f 0 with
  | Done c => Done (if negb (Ascii.eqb c slash) then dir ++ f else f)%string
  | ThrowsOutOfRange => ThrowsOutOfRange
  end.

(** The loop [for(unsigned int i=0;i<files.size();i++)] of [getdir]. *)
Fixpoint prefix_files (dir : string) (files : list string) : may_throw (list string) :=
  match files with
  | [] => Done []
  | f :: rest =>
      match with_dir dir f with
      | Done f' =>
          match prefix_files dir rest with
          | Done rest' => Done (f' :: rest')
          | ThrowsOutOfRange => ThrowsOutOfRange
          end
      | ThrowsOutOfRange => ThrowsOutOfRange
      end
  end.

(** [getdir(dir, files)]. [listing] is what the directory gives: [None]
    when [opendir] fails, else the names [readdir] returns, in its order.
    The result is the returned [int] and [files] as the call leaves it. *)
Definition getdir (dir : string) (listing : option (list string)) (files : list string)
    : may_throw (Z * list string) :=
  match listing with
  | None => Done (-1, files)
  | Some names =>
      let files := sort_files (files ++ filter (fun name => keep_entry name = true) names) in
      match string_at dir (length_minus_1 dir) with
      | Done c =>
          let dir := (if negb (Ascii.eqb c slash) then dir ++ "/" else dir)%string in
          match prefix_files dir files with
          | Done files => Done (size files, files)
          | ThrowsOutOfRange => ThrowsOutOfRange
          end
      | ThrowsOutOfRange => ThrowsOutOfRange
      end
  end.

(** The directory name as [getdir] prefixes it: with one slash at its
    end. *)
Definition slashed (dir : string) : string :=
  match string_at dir (length_minus_1 dir) with
  | Done c => if negb (Ascii.eqb c slash) then dir ++ "/" else dir
  | ThrowsOutOfRange => dir
  end%string.

(** A name as [readdir] gives it: not empty, and no slash in front. *)
Definition plain_name (name : string) : Prop :=
  match name with
  | EmptyString => False
  | String c _ => c <> slash
  end.

End Directory.

Module Construction.
Import DatasetReader Directory.

(** [s.substr(pos)] for [pos <= s.length()]. *)
Fixpoint substr_from (pos : nat) (s : string) : string :=
  match pos, s with
  | O, _ => s
  | S pos', String _ s' => substr_from pos' s'
  | S _, EmptyString => EmptyString
  end.

(** [s.find_last_of(c)]; [None] is [npos]. *)
Fixpoint find_last_of (c : Ascii.ascii) (s : string) : option nat :=
  match s with
  | EmptyString => None
  | String a s' =>
      match find_last_of c s' with
      | Some k => Some (S k)
      | None => if Ascii.eqb a c then Some 0%nat else None
      end
  end.

(** [path.length()>4 && path.substr(path.length()-4) == ".zip"] *)
Definition zip_path (path : string) : bool :=
  (4 <? Z.of_nat (String.length path))
  && String.eqb (substr_from (String.length path - 4) path) ".zip".

(** [path.substr(0,path.find_last_of('/')) + "/times.txt"] *)
Definition timesFile (path : string) : string :=
  (match find_last_of slash path with
   | Some pos => String.substring 0 pos path
   | None => path
   end ++ "/times.txt")%string.

(** What the constructor finds outside the program. *)
Record surroundings : Type := {
  opendir : string -> option (list string);
    (* the names of a directory in [readdir] order; [None] when it cannot be opened *)
  zip_open : string -> Z * list string;
    (* [ziperror] and, by index, the names of the entries of an archive *)
  zip_entry : string -> string -> list Byte.byte;
    (* the contents of an entry of an archive *)
  text_lines : string -> list times_line;
    (* the lines of a text file as the loop of [loadTimestamps] reads them;
       none when the file cannot be opened *)
  originalSize : Z * Z;          (* [undistort->getOriginalSize()] *)
  photometricG : option ptr      (* [undistort->photometricUndist->getG()], or 0 *)
}.

Inductive construction : Type :=
| Constructed (r : ImageFolderReader)
| ConstructionExits (code : Z)      (* [exit(code)] *)
| ConstructionThrows.               (* an uncaught [std::out_of_range] *)

(** The catalog the constructor builds: the entries of the archive, or
    the files of the directory. The value [getdir] returns is not looked
    at. *)
Definition list_files (w : surroundings) (path : string) : construction + list string :=
  if zip_path path then
    let '(ziperror, names) := zip_open w path in
    if negb (ziperror =? 0) then inl (ConstructionExits 1)
    else inr (sort_files (filter (fun name => keep_entry name = true) names))
  else
    match getdir path (opendir w path) [] with
    | Done (_, files) => inr files
    | ThrowsOutOfRange => inl ConstructionThrows
    end.

(** [ImageFolderReader(path, calibFile, gammaFile, vignetteFile,
    use16BitPassed, useColourPassed)], with the undistorter obtained. *)
Definition new_ImageFolderReader (w : surroundings) (path : string)
    (use16BitPassed useColourPassed : bool) : construction :=
  match list_files w path with
  | inl stop => stop
  | inr files =>
      Constructed
        (construct files (fst (originalSize w)) (snd (originalSize w)) (zip_path path)
           use16BitPassed useColourPassed (zip_entry w path) (photometricG w)
           (text_lines w (timesFile path)))
  end.

End Construction.

(** ** util/DatasetReader.h: [IMUFolderReader] *)

Module IMU.

(** [Vec3]: three doubles; a component no extraction has written has no
    defined value and is [None]. *)
Record Vec3 : Type := { x0 : option double; x1 : option double; x2 : option double }.

(** What the extractions of the loop body leave in [time], [gyro] and
    [acc] for one line. *)
Record imu_fields : Type := {
  time_read : option double;
  gyro_read : Vec3;
  acc_read : Vec3
}.

Record IMUFolderReader : Type := {
  m_gry : list Vec3;
  m_acc : list Vec3;
  imu_time_stamp : list (option double)
}.

(** [IMUFolderReader(path, calibFile)]: the three vectors start empty. *)
Definition new_IMUFolderReader : IMUFolderReader :=
  {| m_gry := []; m_acc := []; imu_time_stamp := [] |}.

(** [time/1e9] *)
Definition seconds (time : option double) : option double :=
  option_map (fun t => f64_div t (f64_of_int 1000000000)) time.

(** The body of [while(std::getline(inf,sline))]. *)
Definition push_sample (r : IMUFolderReader) (f : imu_fields) : IMUFolderReader :=
  {| m_gry := m_gry r ++ [gyro_read f];
     m_acc := m_acc r ++ [acc_read f];
     imu_time_stamp := imu_time_stamp r ++ [seconds (time_read f)] |}.

Section Reading.

(** The extractions from a [std::istringstream] on a line. *)
Variable extract : string -> imu_fields.

(** [getIMUfiles_euroc]. [lines] is what [std::getline] reads from the
    file, none when the file cannot be opened: the first line is read and
    dropped, every other line gives one sample. *)
Definition getIMUfiles_euroc (r : IMUFolderReader) (lines : list string) : IMUFolderReader :=
  match lines with
  | [] => r
  | _ :: data => fold_left (fun r sline => push_sample r (extract sline)) data r
  end.

End Reading.

Definition get_gyrodata (r : IMUFolderReader) (i : Z) : outcome Vec3 := vec_at (m_gry r) i.
Definition get_acceldata (r : IMUFolderReader) (i : Z) : outcome Vec3 := vec_at (m_acc r) i.
Definition get_timestampdata (r : IMUFolderReader) (i : Z) : outcome (option double) :=
  vec_at (imu_time_stamp r) i.

End IMU.

(** ** main.cpp: the command line *)

Module CommandLine.
Import DatasetReader Main.

(** The values [options.parse] gives. *)
Record options : Type := {
  help : bool;                 (* [result.count("help")] is not 0 *)
  source0 : string;
  calib0 : string;
  imu : string;
  imu_calib : string;
  vocabPath : string;
  vignette : string;
  gammaCalib : string;
  opt_loopclosure : bool;
  opt_reverse : bool;
  opt_preload : bool;
  opt_usesampleoutput : bool;
  opt_nolog : bool;
  opt_nogui : bool;
  opt_save : bool;
  opt_quiet : bool;
  opt_nomt : bool;
  opt_startindex : Z;
  opt_endindex : Z;
  opt_preset : Z;
  opt_mode : Z;
  opt_speed : float;
  opt_imu_weight : float;
  opt_imu_weight_tracker : float
}.

Definition is_empty (s : string) : bool :=
  match s with
  | EmptyString => true
  | String _ _ => false
  end.

(** The local variables and the settings [main] has fixed when it
    creates the reader (line 193). The settings of the engine that the mode
    and the preset assign are kept as the list of the assignments, in the
    order they are made. *)
Record startup : Type := {
  LoopClosure : bool;
  s_reverse : bool;
  s_preload : bool;
  s_useSampleOutput : bool;
  s_logStuff : bool;              (* [setting_logStuff] *)
  disableAllDisplay : bool;
  debugSaveImages : bool;
  setting_debugout_runquiet : bool;
  multiThreading : bool;
  s_startIndex : Z;
  s_endIndex : Z;
  s_playbackSpeed : float;
  setting_photometricCalibration : Z;
  assigned : list (string * Z);
  commands : list string          (* the arguments of the calls of [system] *)
}.

(** [switch (mode)], lines 124-139. *)
Definition mode_settings (mode : Z) : list (string * Z) :=
  if mode =? 1 then
    [("setting_photometricCalibration"%string, 0); ("setting_affineOptModeA"%string, 0);
     ("setting_affineOptModeB"%string, 0)]
  else if mode =? 2 then
    [("setting_photometricCalibration"%string, 0); ("setting_affineOptModeA"%string, -1);
     ("setting_affineOptModeB"%string, -1); ("setting_minGradHistAdd"%string, 3)]
  else [].

(** The assignments of the preset 2 or 3, lines 180-188. *)
Definition fast_settings : list (string * Z) :=
  [("setting_desiredImmatureDensity"%string, 600); ("setting_desiredPointDensity"%string, 800);
   ("setting_minFrames"%string, 4); ("setting_maxFrames"%string, 6);
   ("setting_maxOptIterations"%string, 4); ("setting_minOptIterations"%string, 1);
   ("benchmarkSetting_width"%string, 424); ("benchmarkSetting_height"%string, 320)].

(** Lines 88-191 of [main]. [photometricCalibration0] is the value
    [setting_photometricCalibration] has when [main] starts, and
    [vocabulary_empty] what [Vocab.empty()] gives once the vocabulary is
    loaded. Leaving [main] with [return(0)] ends the process like
    [exit(0)]. *)
Definition start (o : options) (photometricCalibration0 : Z) (vocabulary_empty : bool)
    : outcome startup :=
  if help o then Exit 0
  else if is_empty (source0 o) || is_empty (calib0 o) then Exit 0
  else
    let commands :=
      if opt_save o
      then ["rm -rf images_out"; "mkdir images_out"; "rm -rf images_out"; "mkdir images_out"]%string
      else [] in
    let photometric :=
      if (opt_mode o =? 1) || (opt_mode o =? 2) then 0 else photometricCalibration0 in
    if opt_loopclosure o && negb (is_empty (vocabPath o)) && vocabulary_empty then Exit 1
    else
      let loop := opt_loopclosure o && negb (is_empty (vocabPath o)) in
      let preset := opt_preset o in
      if (preset =? 0) || (preset =? 1) then
        Ok {| LoopClosure := loop; s_reverse := opt_reverse o; s_preload := opt_preload o;
              s_useSampleOutput := opt_usesampleoutput o; s_logStuff := negb (opt_nolog o);
              disableAllDisplay := opt_nogui o; debugSaveImages := opt_save o;
              setting_debugout_runquiet := opt_quiet o; multiThreading := negb (opt_nomt o);
              s_startIndex := opt_startindex o; s_endIndex := opt_endindex o;
              s_playbackSpeed := f32_of_int (if preset =? 0 then 0 else 1);
              setting_photometricCalibration := photometric;
              assigned := mode_settings (opt_mode o); commands := commands |}
      else if (preset =? 2) || (preset =? 3) then
        Ok {| LoopClosure := loop; s_reverse := opt_reverse o; s_preload := (preset =? 3);
              s_useSampleOutput := opt_usesampleoutput o; s_logStuff := false;
              disableAllDisplay := opt_nogui o; debugSaveImages := opt_save o;
              setting_debugout_runquiet := opt_quiet o; multiThreading := negb (opt_nomt o);
              s_startIndex := opt_startindex o; s_endIndex := opt_endindex o;
              s_playbackSpeed := f32_of_int (if preset =? 2 then 0 else 5);
              setting_photometricCalibration := photometric;
              assigned := mode_settings (opt_mode o) ++ fast_settings; commands := commands |}
      else
        Ok {| LoopClosure := loop; s_reverse := opt_reverse o; s_preload := opt_preload o;
              s_useSampleOutput := opt_usesampleoutput o; s_logStuff := negb (opt_nolog o);
              disableAllDisplay := opt_nogui o; debugSaveImages := opt_save o;
              setting_debugout_runquiet := opt_quiet o; multiThreading := negb (opt_nomt o);
              s_startIndex := opt_startindex o; s_endIndex := opt_endindex o;
              s_playbackSpeed := opt_speed o;
              setting_photometricCalibration := photometric;
              assigned := mode_settings (opt_mode o); commands := commands |}.

(** Line 197: the check made once the reader is built. *)
Definition photometric_check (s : startup) (r : ImageFolderReader) : outcome unit :=
  if (0 <? setting_photometricCalibration s) && negb (bool_decide (is_Some (getPhotometricGamma r)))
  then Exit 1 else Ok tt.

(** The configuration of the playback thread: the variables the lambda
    of line 252 captures, with the display of lines 238-243 and the sample
    wrapper of lines 247-248. *)
Definition config_of (s : startup) (viewer_ptr sample_ptr : ptr) : config :=
  {| reverse := s_reverse s; startIndex := s_startIndex s; endIndex := s_endIndex s;
     playbackSpeed := s_playbackSpeed s; preload := s_preload s;
     viewer := if disableAllDisplay s then None else Some viewer_ptr;
     useSampleOutput := if s_useSampleOutput s then Some sample_ptr else None;
     setting_logStuff := s_logStuff s |}.

End CommandLine.

(** ** Further inputs used in the examples *)

Module Setups.
Import DatasetReader Main Examples Directory Construction CommandLine.

(** An engine that tracks every frame it is given. *)
Definition tracking (fs : FullSystem) (img : ImageAndExposure) (i : Z) : FullSystem :=
  {| gammaFunction := gammaFunction fs; linearizeOperation := linearizeOperation fs;
     outputWrapper := outputWrapper fs; initialized := true;
     initFailed := false; isLost := false; internals := internals fs ++ [i] |}.

(** A disk with the image directory [/data/seq], the archive
    [/data/seq.zip] of the same two images, 30x20 pixels each, and no
    [times.txt]. Nothing else can be opened. *)
Definition disk : surroundings :=
  {| opendir := fun dir =>
       if String.eqb dir "/data/seq" then Some [".."; "2.png"; "."; "1.png"]%string else None;
     zip_open := fun path =>
       if String.eqb path "/data/seq.zip" then (0, ["2.png"; "1.png"]%string) else (9, []);
     zip_entry := fun _ _ => replicate 600 Byte.x00;
     text_lines := fun _ => [];
     originalSize := (30, 20);
     photometricG := None |}.

(** The command line [-f /data/seq -C camera.txt --preset p --speed s]
    with every other option at its default. *)
Definition command_line (p : Z) (s : float) : options :=
  {| help := false; source0 := "/data/seq"; calib0 := "camera.txt"; imu := ""; imu_calib := "";
     vocabPath := ""; vignette := ""; gammaCalib := "";
     opt_loopclosure := false; opt_reverse := false; opt_preload := false;
     opt_usesampleoutput := false; opt_nolog := false; opt_nogui := false; opt_save := false;
     opt_quiet := true; opt_nomt := false; opt_startindex := 0; opt_endindex := 100000;
     opt_preset := p; opt_mode := 1; opt_speed := s;
     opt_imu_weight := f32_of_int 5; opt_imu_weight_tracker := f32_lit 1 2 |}.

End Setups.

(** ** Properties of the dataset reader *)

Module ReaderProperties.
Import DatasetReader Examples.

Lemma size_nonneg {A : Type} (v : list A) : 0 <= size v.
Proof. unfold size. lia. Qed.

Lemma size_zero_nil {A : Type} (v : list A) : size v = 0 -> v = [].
Proof. destruct v; [reflexivity | unfold size; simpl; lia]. Qed.

Lemma vec_at_Ok {A : Type} (v : list A) (i : Z) (x : A) :
  vec_at v i = Ok x <-> 0 <= i /\ v !! Z.to_nat i = Some x.
Proof.
  unfold vec_at. destruct (Z.leb_spec 0 i) as [Hi | Hi].
  - destruct (v !! Z.to_nat i) eqn:E; split; intros H.
    + injection H as <-. auto.
    + destruct H as [_ H]. congruence.
    + discriminate.
    + destruct H as [_ H]. discriminate.
  - split; [discriminate | lia].
Qed.

Lemma vec_at_in_range {A : Type} (v : list A) (i : Z) :
  0 <= i < size v -> exists x, vec_at v i = Ok x.
Proof.
  intros Hi. destruct (v !! Z.to_nat i) eqn:E.
  - exists a. apply vec_at_Ok. split; [lia | exact E].
  - apply lookup_ge_None in E. unfold size in Hi. lia.
Qed.

Lemma vec_at_OutOfBounds {A : Type} (v : list A) (i : Z) :
  vec_at v i = OutOfBounds <-> ~ (0 <= i < size v).
Proof.
  split.
  - intros H Hi. destruct (vec_at_in_range v i Hi) as [x Hx]. congruence.
  - intros Hi. unfold vec_at. destruct (Z.leb_spec 0 i) as [H0 | H0]; [| reflexivity].
    destruct (v !! Z.to_nat i) eqn:E; [| reflexivity].
    apply lookup_lt_Some in E. unfold size in Hi. lia.
Qed.

Lemma vec_at_not_Exit {A : Type} (v : list A) (i code : Z) : vec_at v i <> Exit code.
Proof.
  unfold vec_at. destruct (0 <=? i); [| discriminate].
  destruct (v !! Z.to_nat i); discriminate.
Qed.

(** *** Per-id queries *)

Lemma getTimestamp_total (r : ImageFolderReader) (id : Z) :
  getTimestamp_outcome r id = Ok (getTimestamp r id).
Proof.
  unfold getTimestamp. unfold getTimestamp_outcome.
  destruct (size (timestamps r) =? 0); [reflexivity |].
  destruct (Z.geb_spec id (size (timestamps r))) as [Hge | Hlt]; [reflexivity |].
  destruct (Z.ltb_spec id 0) as [Hneg | Hpos]; [reflexivity |].
  destruct (vec_at_in_range (timestamps r) id) as [t Ht]; [lia |].
  rewrite Ht. reflexivity.
Qed.

(** C4. [getTimestamp(id)] is [id * 0.04f] (a [float] product, promoted
    to [double]) when no timestamp is loaded, 0 for an id outside a loaded
    series, and the loaded value otherwise; the exposure handed to the
    rectification is [1.0f] when the exposure series is empty and the
    loaded value otherwise. With five frames and no side-car file,
    [getTimestamp(0)] is 0 and [getTimestamp(4)] is the [float] nearest to
    0.16, which is within 1e-8 of 0.16. *)
Theorem timestamp_and_exposure_lookup (r : ImageFolderReader) (id : Z) :
  (size (timestamps r) = 0 ->
     getTimestamp r id = f64_of_f32 (f32_mul (f32_of_int id) (f32_lit 4 100)))
  /\ (size (timestamps r) <> 0 -> id < 0 \/ size (timestamps r) <= id ->
     getTimestamp r id = f64_of_int 0)
  /\ (forall t : double, 0 <= id -> timestamps r !! Z.to_nat id = Some t ->
     getTimestamp r id = t)
  /\ (size (exposures r) = 0 -> exposure_of r id = Ok (f32_of_int 1))
  /\ (forall x : float, 0 <= id -> exposures r !! Z.to_nat id = Some x ->
     exposure_of r id = Ok x)
  /\ getNumImages five_frames = 5
  /\ timestamps five_frames = []
  /\ getTimestamp five_frames 0 = f64_of_int 0
  /\ getTimestamp five_frames 4 = f64_of_f32 (f32_lit 16 100)
  /\ (exists q : Q, SF2Q (getTimestamp five_frames 4) = Some q
                    /\ (Qabs (q - (16 # 100)) < 1 # 100000000)%Q).
Proof.
  repeat apply conj.
  - intros H0. unfold getTimestamp, getTimestamp_outcome. rewrite H0. reflexivity.
  - intros Hne Hout. unfold getTimestamp, getTimestamp_outcome.
    destruct (Z.eqb_spec (size (timestamps r)) 0) as [E | _]; [contradiction |].
    destruct (Z.geb_spec id (size (timestamps r))) as [_ | Hlt]; [reflexivity |].
    destruct (Z.ltb_spec id 0) as [_ | Hpos]; [reflexivity | lia].
  - intros t Hid Ht. unfold getTimestamp, getTimestamp_outcome.
    pose proof (lookup_lt_Some _ _ _ Ht) as Hlen.
    destruct (Z.eqb_spec (size (timestamps r)) 0) as [E | _];
      [unfold size in E; lia |].
    destruct (Z.geb_spec id (size (timestamps r))) as [Hge | _];
      [unfold size in Hge; lia |].
    destruct (Z.ltb_spec id 0) as [Hneg | _]; [lia |].
    assert (Hv : vec_at (timestamps r) id = Ok t) by (apply vec_at_Ok; auto).
    rewrite Hv. reflexivity.
  - intros H0. unfold exposure_of. rewrite H0. reflexivity.
  - intros x Hid Hx. unfold exposure_of.
    pose proof (lookup_lt_Some _ _ _ Hx) as Hlen.
    destruct (Z.eqb_spec (size (exposures r)) 0) as [E | _];
      [unfold size in E; lia |].
    apply vec_at_Ok. auto.
  - vm_compute. reflexivity.
  - vm_compute. reflexivity.
  - vm_compute. reflexivity.
  - vm_compute. reflexivity.
  - eexists. split; [vm_compute; reflexivity | vm_compute; reflexivity].
Qed.

Lemma timestamp_and_exposure_lookup_witness :
  getTimestamp five_frames 7 = f64_of_f32 (f32_mul (f32_of_int 7) (f32_lit 4 100))
  /\ getTimestamp three_frames 3 = f64_of_int 0
  /\ getTimestamp three_frames 2 = f64_of_int 2
  /\ exposure_of five_frames 7 = Ok (f32_of_int 1)
  /\ exposure_of three_frames 2 = Ok (f32_of_int 1).
Proof.
  destruct (timestamp_and_exposure_lookup five_frames 7) as (H1 & _ & _ & H4 & _).
  destruct (timestamp_and_exposure_lookup three_frames 3) as (_ & H2 & _).
  destruct (timestamp_and_exposure_lookup three_frames 2) as (_ & _ & H3 & _ & H5 & _).
  split; [apply H1; reflexivity |].
  split; [apply H2; [vm_compute; discriminate | right; vm_compute; discriminate] |].
  split; [apply H3; [lia | reflexivity] |].
  split; [apply H4; reflexivity |].
  apply H5; [lia | reflexivity].
Defined.

Lemma exposure_of_in_range (r : ImageFolderReader) (id : Z) :
  lengths_reconciled r -> in_range r id -> exists x, exposure_of r id = Ok x.
Proof.
  intros [_ [He | He]] Hid; unfold exposure_of.
  - rewrite He. simpl. eauto.
  - destruct (size (exposures r) =? 0); [eauto |].
    apply vec_at_in_range. unfold in_range in Hid. lia.
Qed.

Lemma timestamp_of_in_range (r : ImageFolderReader) (id : Z) :
  lengths_reconciled r -> in_range r id -> exists t, timestamp_of r id = Ok t.
Proof.
  intros [[Ht | Ht] _] Hid; unfold timestamp_of.
  - rewrite Ht. simpl. eauto.
  - destruct (size (timestamps r) =? 0); [eauto |].
    apply vec_at_in_range. unfold in_range in Hid. lia.
Qed.

Lemma undistort_in_range (r : ImageFolderReader) (id : Z) (minimg : MinimalImage) :
  lengths_reconciled r -> in_range r id -> exists img, undistort r id minimg = Ok img.
Proof.
  intros Hl Hid. unfold undistort.
  destruct (exposure_of_in_range r id Hl Hid) as [x ->].
  destruct (timestamp_of_in_range r id Hl Hid) as [t ->].
  simpl. eauto.
Qed.

Lemma getImageRaw_OutOfBounds (r : ImageFolderReader) (id : Z) :
  result (getImageRaw_internal r id) = OutOfBounds <-> ~ in_range r id.
Proof.
  unfold in_range, getNumImages. rewrite <- vec_at_OutOfBounds.
  unfold getImageRaw_internal.
  destruct (isZipped r); simpl.
  - destruct (vec_at (files r) id) as [name | code | ] eqn:E; simpl.
    + repeat match goal with |- context [if ?c then _ else _] => destruct c end;
        simpl; split; discriminate.
    + split; discriminate.
    + tauto.
  - destruct (vec_at (files r) id); simpl; split; congruence.
Qed.

Lemma getImageRaw_keeps_series (r : ImageFolderReader) (id : Z) :
  let r' := reader_after (getImageRaw_internal r id) in
  files r' = files r /\ timestamps r' = timestamps r /\ exposures r' = exposures r
  /\ photometricGamma r' = photometricGamma r.
Proof.
  unfold getImageRaw_internal.
  destruct (isZipped r); simpl; [| auto].
  destruct (vec_at (files r) id); simpl; auto.
  repeat match goal with |- context [if ?c then _ else _] => destruct c end; simpl; auto.
Qed.

Lemma in_range_dec (r : ImageFolderReader) (id : Z) : in_range r id \/ ~ in_range r id.
Proof. unfold in_range. lia. Qed.

Lemma files_at_in_range (r : ImageFolderReader) (id : Z) (f : string) :
  vec_at (files r) id = Ok f -> in_range r id.
Proof.
  intros H. destruct (in_range_dec r id) as [Hin | Hout]; [exact Hin |].
  apply vec_at_OutOfBounds in Hout. congruence.
Qed.

Lemma getImage_OutOfBounds (r : ImageFolderReader) (id : Z) :
  unsupported r = false -> lengths_reconciled r ->
  (fst (getImage_internal r id) = OutOfBounds <-> ~ in_range r id).
Proof.
  intros Hsup Hlen. unfold unsupported in Hsup. unfold getImage_internal.
  destruct (use16Bit r), (useColour r); simpl in *; try discriminate.
  - (* 16 bit, mono *)
    destruct (vec_at (files r) id) as [f | code | ] eqn:E; simpl.
    + pose proof (files_at_in_range r id f E) as Hin.
      destruct (undistort_in_range r id (readImageBW_16U f) Hlen Hin) as [img ->].
      split; [discriminate | tauto].
    + exfalso. exact (vec_at_not_Exit _ _ _ E).
    + apply vec_at_OutOfBounds in E. unfold in_range, getNumImages. tauto.
  - (* 8 bit, colour *)
    unfold getImageRaw3_internal. destruct (isZipped r); simpl in *; try discriminate.
    destruct (vec_at (files r) id) as [f | code | ] eqn:E; simpl.
    + pose proof (files_at_in_range r id f E) as Hin.
      destruct (undistort_in_range r id (readImageRGB_8U_split f) Hlen Hin) as [img ->].
      split; [discriminate | tauto].
    + exfalso. exact (vec_at_not_Exit _ _ _ E).
    + apply vec_at_OutOfBounds in E. unfold in_range, getNumImages. tauto.
  - (* 8 bit, mono *)
    pose proof (getImageRaw_OutOfBounds r id) as Hraw.
    destruct (result (getImageRaw_internal r id)) as [minimg | code | ]; simpl.
    + assert (Hin : in_range r id).
      { destruct (in_range_dec r id) as [Hin | Hout]; [exact Hin |].
        apply Hraw in Hout. discriminate. }
      destruct (undistort_in_range r id minimg Hlen Hin) as [img ->].
      split; [discriminate | tauto].
    + split; [discriminate |]. intros Hout. apply Hraw in Hout. discriminate.
    + tauto.
Qed.

Lemma getImage_Ok_in_range (r : ImageFolderReader) (id : Z) (img : ImageAndExposure) :
  fst (getImage_internal r id) = Ok img -> in_range r id.
Proof.
  unfold getImage_internal.
  destruct (use16Bit r), (useColour r); simpl; try discriminate.
  - destruct (vec_at (files r) id) as [f | code | ] eqn:E; simpl; try discriminate.
    intros _. exact (files_at_in_range r id f E).
  - unfold getImageRaw3_internal. destruct (isZipped r); simpl; try discriminate.
    destruct (vec_at (files r) id) as [f | code | ] eqn:E; simpl; try discriminate.
    intros _. exact (files_at_in_range r id f E).
  - pose proof (getImageRaw_OutOfBounds r id) as Hraw.
    destruct (result (getImageRaw_internal r id)) as [minimg | code | ];
      simpl; try discriminate.
    intros _. destruct (in_range_dec r id) as [Hin | Hout]; [exact Hin |].
    apply Hraw in Hout. discriminate.
Qed.

(** C10. [getFilename], [getImageRaw] and [getImage] index [files],
    [exposures] and [timestamps] with no bounds check: they run out of
    bounds exactly for the ids outside [0, getNumImages) (for [getImage], in
    the configurations that reach the decoding and with the lengths
    [loadTimestamps] leaves), they return an image only for an id in that
    range, and there the exposure and timestamp lookups succeed thanks to
    the reconciled lengths. [getTimestamp] never indexes out of bounds,
    whatever the id. *)
Theorem unchecked_indexing (r : ImageFolderReader) (id : Z) :
  (getFilename r id = OutOfBounds <-> ~ in_range r id)
  /\ (result (getImageRaw r id) = OutOfBounds <-> ~ in_range r id)
  /\ (unsupported r = false -> lengths_reconciled r ->
      (fst (getImage r id) = OutOfBounds <-> ~ in_range r id))
  /\ (forall img, fst (getImage r id) = Ok img -> in_range r id)
  /\ (lengths_reconciled r -> in_range r id ->
      (exists x, exposure_of r id = Ok x) /\ (exists t, timestamp_of r id = Ok t))
  /\ (exists t, getTimestamp_outcome r id = Ok t).
Proof.
  split_and!.
  - unfold getFilename, in_range, getNumImages. exact (vec_at_OutOfBounds (files r) id).
  - exact (getImageRaw_OutOfBounds r id).
  - exact (getImage_OutOfBounds r id).
  - exact (getImage_Ok_in_range r id).
  - intros Hl Hin. split;
      [apply exposure_of_in_range | apply timestamp_of_in_range]; assumption.
  - exists (getTimestamp r id). apply getTimestamp_total.
Qed.

Lemma unchecked_indexing_witness :
  (fst (getImage three_frames 3) = OutOfBounds <-> ~ in_range three_frames 3)
  /\ in_range three_frames 2
  /\ (exists x, exposure_of three_frames 2 = Ok x)
  /\ (exists t, timestamp_of three_frames 2 = Ok t).
Proof.
  assert (Hl : lengths_reconciled three_frames).
  { split; right; reflexivity. }
  assert (Hin : in_range three_frames 2).
  { unfold in_range. replace (getNumImages three_frames) with 3 by reflexivity. lia. }
  destruct (unchecked_indexing three_frames 3) as (_ & _ & H3 & _).
  destruct (unchecked_indexing three_frames 2) as (_ & _ & _ & H4 & H5 & _).
  split; [exact (H3 eq_refl Hl) |].
  split; [apply (H4 {| image := readImageBW_8U "img.png"; exposure_time := f32_of_int 1;
                      timestamp := f64_of_int 2 |}); reflexivity |].
  apply H5; assumption.
Defined.

(** *** Reading a frame from an archive *)

Lemma size_zip_fread (entry : list Byte.byte) (nbytes : Z) :
  size (zip_fread entry nbytes) = Z.min (size entry) (Z.max 0 nbytes).
Proof. unfold size, zip_fread. rewrite length_take. lia. Qed.

Lemma zip_fread_all (entry : list Byte.byte) (nbytes : Z) :
  size entry <= nbytes -> zip_fread entry nbytes = entry.
Proof. unfold size, zip_fread. intros H. apply take_ge. lia. Qed.

(** C1, as stated, fails: with 30x20 images, an entry of 18001 bytes is
    larger than the first buffer (13600 bytes) and not larger than the
    second size the claim names (28000 bytes), yet it is not decoded: the
    retry reads more than 18000 bytes and the process exits. *)
Lemma archive_retry_counterexample :
  widthOrg (archive 18001) * heightOrg (archive 18001) * 6 + 10000
    < size (ziparchive (archive 18001) "000.png")
    <= widthOrg (archive 18001) * heightOrg (archive 18001) * 30 + 10000
  /\ result (getImageRaw_internal (archive 18001) 0) = Exit 1.
Proof. vm_compute. repeat split; discriminate. Qed.

(** C1, amended. Reading frame [id] of an archive reads at most
    [w*h*6+10000] bytes of the entry into the buffer (allocated with that
    size when there is none yet). When more than [w*h*6] bytes were read the
    buffer is replaced and the read is made once more, and only once, with a
    limit of [w*h*30+10000] bytes. An entry of at most [w*h*6] bytes is
    decoded whole from the first read, an entry of more than [w*h*6] and at
    most [w*h*30] bytes is decoded whole from the second, and an entry of
    more than [w*h*30] bytes ends the process with [exit(1)]. The calls of
    [zip_fread] are given with the buffer they write to, their limit and
    the number of bytes they return: one call with the limit [w*h*6+10000]
    for an entry of at most [w*h*6] bytes, and for a larger entry that call
    followed by one call with the limit [w*h*30+10000] into the buffer
    newly allocated (with [w*h*30] bytes), which is the buffer the reader
    keeps. *)
Theorem archive_read_retry (r : ImageFolderReader) (id : Z) (name : string) :
  isZipped r = true ->
  vec_at (files r) id = Ok name ->
  (databuffer r = None ->
   size (ziparchive r name) <= widthOrg r * heightOrg r * 6 ->
   databuffer (reader_after (getImageRaw_internal r id))
   = Some (widthOrg r * heightOrg r * 6 + 10000))
  /\ (size (ziparchive r name) <= widthOrg r * heightOrg r * 6 ->
      result (getImageRaw_internal r id) = Ok (readStreamBW_8U (ziparchive r name))
      /\ reads (getImageRaw_internal r id) = 1%nat)
  /\ (widthOrg r * heightOrg r * 6 < size (ziparchive r name)
        <= widthOrg r * heightOrg r * 30 ->
      result (getImageRaw_internal r id) = Ok (readStreamBW_8U (ziparchive r name))
      /\ reads (getImageRaw_internal r id) = 2%nat)
  /\ (widthOrg r * heightOrg r * 30 < size (ziparchive r name) ->
      result (getImageRaw_internal r id) = Exit 1
      /\ reads (getImageRaw_internal r id) = 2%nat)
  /\ (reads (getImageRaw_internal r id) <= 2)%nat
  /\ reads (getImageRaw_internal r id) = length (freads (getImageRaw_internal r id))
  /\ (size (ziparchive r name) <= widthOrg r * heightOrg r * 6 ->
      freads (getImageRaw_internal r id)
      = [{| capacity := default (widthOrg r * heightOrg r * 6 + 10000) (databuffer r);
            nbytes := widthOrg r * heightOrg r * 6 + 10000;
            readbytes := size (ziparchive r name) |}]
      /\ databuffer (reader_after (getImageRaw_internal r id))
         = Some (default (widthOrg r * heightOrg r * 6 + 10000) (databuffer r)))
  /\ (0 <= widthOrg r * heightOrg r ->
      widthOrg r * heightOrg r * 6 < size (ziparchive r name) ->
      freads (getImageRaw_internal r id)
      = [{| capacity := default (widthOrg r * heightOrg r * 6 + 10000) (databuffer r);
            nbytes := widthOrg r * heightOrg r * 6 + 10000;
            readbytes := Z.min (size (ziparchive r name))
                               (widthOrg r * heightOrg r * 6 + 10000) |};
         {| capacity := widthOrg r * heightOrg r * 30;
            nbytes := widthOrg r * heightOrg r * 30 + 10000;
            readbytes := Z.min (size (ziparchive r name))
                               (widthOrg r * heightOrg r * 30 + 10000) |}]
      /\ databuffer (reader_after (getImageRaw_internal r id))
         = Some (widthOrg r * heightOrg r * 30)).
Proof.
  intros Hzip Hname.
  unfold getImageRaw_internal. rewrite Hzip, Hname. simpl negb. cbv iota.
  set (wh := widthOrg r * heightOrg r).
  set (entry := ziparchive r name).
  pose proof (size_nonneg entry) as Hn.
  pose proof (size_zip_fread entry (wh * 6 + 10000)) as H1.
  pose proof (size_zip_fread entry (wh * 30 + 10000)) as H2.
  assert (Hcap : match databuffer r with
                 | Some c => c
                 | None => wh * 6 + 10000
                 end = default (wh * 6 + 10000) (databuffer r))
    by (destruct (databuffer r); reflexivity).
  split_and!.
  - intros Hnull Hsmall. rewrite Hnull.
    destruct (Z.gtb_spec (size (zip_fread entry (wh * 6 + 10000))) (wh * 6)) as [Hgt | _];
      [lia | reflexivity].
  - intros Hsmall.
    destruct (Z.gtb_spec (size (zip_fread entry (wh * 6 + 10000))) (wh * 6)) as [Hgt | _];
      [lia |].
    simpl. rewrite zip_fread_all by lia. auto.
  - intros Hmid.
    destruct (Z.gtb_spec (size (zip_fread entry (wh * 6 + 10000))) (wh * 6)) as [_ | Hle];
      [| lia].
    destruct (Z.gtb_spec (size (zip_fread entry (wh * 30 + 10000))) (wh * 30)) as [Hgt | _];
      [lia |].
    simpl. rewrite zip_fread_all by lia. auto.
  - intros Hbig.
    destruct (Z.gtb_spec (size (zip_fread entry (wh * 6 + 10000))) (wh * 6)) as [_ | Hle];
      [| lia].
    destruct (Z.gtb_spec (size (zip_fread entry (wh * 30 + 10000))) (wh * 30)) as [_ | Hle];
      [| lia].
    simpl. auto.
  - repeat match goal with |- context [if ?c then _ else _] => destruct c end; simpl; lia.
  - repeat match goal with |- context [if ?c then _ else _] => destruct c end; reflexivity.
  - intros Hsmall.
    destruct (Z.gtb_spec (size (zip_fread entry (wh * 6 + 10000))) (wh * 6)) as [Hgt | _];
      [lia |].
    cbn [freads reader_after databuffer set_databuffer]. rewrite Hcap, H1.
    replace (Z.min (size entry) (Z.max 0 (wh * 6 + 10000))) with (size entry) by lia.
    split; reflexivity.
  - intros Hwh Hbig.
    destruct (Z.gtb_spec (size (zip_fread entry (wh * 6 + 10000))) (wh * 6)) as [_ | Hle];
      [| lia].
    assert (Hfreads : forall x y : raw_read,
               freads x = freads y -> reader_after x = reader_after y ->
               freads (if size (zip_fread entry (wh * 30 + 10000)) >? wh * 30 then x else y)
               = freads x
               /\ reader_after (if size (zip_fread entry (wh * 30 + 10000)) >? wh * 30
                                then x else y) = reader_after x).
    { intros x y Hf Hr. destruct (_ >? _); auto. }
    match goal with
    | |- context [if _ >? _ then ?x else ?y] =>
        destruct (Hfreads x y eq_refl eq_refl) as [-> ->]
    end.
    cbn [freads reader_after databuffer set_databuffer]. rewrite Hcap, H1, H2.
    replace (Z.max 0 (wh * 6 + 10000)) with (wh * 6 + 10000) by lia.
    replace (Z.max 0 (wh * 30 + 10000)) with (wh * 30 + 10000) by lia.
    split; reflexivity.
Qed.

Lemma archive_read_retry_witness :
  result (getImageRaw_internal (archive 3600) 0) = Ok (readStreamBW_8U (replicate (Z.to_nat 3600) Byte.x00))
  /\ reads (getImageRaw_internal (archive 3600) 0) = 1%nat
  /\ result (getImageRaw_internal (archive 18000) 0)
     = Ok (readStreamBW_8U (replicate (Z.to_nat 18000) Byte.x00))
  /\ reads (getImageRaw_internal (archive 18000) 0) = 2%nat
  /\ result (getImageRaw_internal (archive 18001) 0) = Exit 1
  /\ freads (getImageRaw_internal (archive 3600) 0)
     = [{| capacity := 13600; nbytes := 13600; readbytes := 3600 |}]
  /\ freads (getImageRaw_internal (archive 18000) 0)
     = [{| capacity := 13600; nbytes := 13600; readbytes := 13600 |};
        {| capacity := 18000; nbytes := 28000; readbytes := 18000 |}].
Proof.
  destruct (archive_read_retry (archive 3600) 0 "000.png" eq_refl eq_refl)
    as (_ & [H1 H1'] & _ & _ & _ & _ & H4 & _); [vm_compute; discriminate |].
  destruct (archive_read_retry (archive 18000) 0 "000.png" eq_refl eq_refl)
    as (_ & _ & [H2 H2'] & _ & _ & _ & _ & H5);
    [vm_compute; split; [reflexivity | discriminate] |].
  destruct (archive_read_retry (archive 18001) 0 "000.png" eq_refl eq_refl)
    as (_ & _ & _ & [H3 _] & _); [vm_compute; reflexivity |].
  split; [exact H1 |]. split; [exact H1' |]. split; [exact H2 |]. split; [exact H2' |].
  split; [exact H3 |].
  split.
  - destruct H4 as [H4 _]; [vm_compute; discriminate |]. rewrite H4. vm_compute. reflexivity.
  - destruct H5 as [H5 _]; [vm_compute; discriminate | vm_compute; reflexivity |].
    rewrite H5. vm_compute. reflexivity.
Defined.

(** The second buffer is allocated with [w*h*30] bytes while up to
    [w*h*30+10000] are read into it: the read of the 18001-byte entry
    writes one byte past its end. *)
Example second_buffer_overrun :
  databuffer (reader_after (getImageRaw_internal (archive 18001) 0)) = Some 18000
  /\ overrun (getImageRaw_internal (archive 18001) 0) = 1.
Proof. vm_compute. split; reflexivity. Qed.

(** *** The exposure repair loop *)

Lemma repaired_at_insert (out e : list float) (k j : nat) (v : float) :
  (j <= k)%nat -> repaired_at (<[k := v]> out) e j = repaired_at out e j.
Proof.
  intros Hjk. unfold repaired_at, ex_at.
  destruct (Z.ltb_spec 0 (Z.of_nat j)) as [Hpos | _]; [| reflexivity].
  rewrite list_lookup_insert_ne by lia. reflexivity.
Qed.

(** The state of the loop after its first [k] iterations. *)
Lemma repair_prefix (e : list float) (g : bool) (k : nat) :
  (k <= length e)%nat ->
  let st := fold_left repair_step (seq 0 k) (e, g) in
  length (fst st) = length e
  /\ (forall j, (k <= j)%nat -> fst st !! j = e !! j)
  /\ (forall j, (j < k)%nat -> fst st !! j = Some (repaired_at (fst st) e j))
  /\ snd st = g && forallb nonzero (take k (fst st)).
Proof.
  induction k as [| k IH]; intros Hk; cbv zeta.
  - simpl. split_and!; [reflexivity | reflexivity | lia |].
    destruct g; reflexivity.
  - rewrite seq_S, fold_left_app.
    destruct IH as (Hlen & Hrest & Hdone & Hgood); [lia |].
    destruct (fold_left repair_step (seq 0 k) (e, g)) as [out good] eqn:Est.
    simpl in *. unfold repair_step.
    set (v := repaired _ _ _).
    assert (Hv : v = repaired_at out e k).
    { unfold v, repaired_at. unfold size. rewrite Hlen.
      unfold ex_at. rewrite (Hrest k) by lia. rewrite (Hrest (k + 1)%nat) by lia.
      reflexivity. }
    assert (Hk' : (k < length out)%nat) by lia.
    simpl. split_and!.
    + rewrite length_insert. exact Hlen.
    + intros j Hj. rewrite list_lookup_insert_ne by lia. apply Hrest. lia.
    + intros j Hj. rewrite repaired_at_insert by lia.
      destruct (decide (j = k)) as [-> | Hne].
      * rewrite list_lookup_insert_eq by lia. rewrite Hv. reflexivity.
      * rewrite list_lookup_insert_ne by lia. apply Hdone. lia.
    + assert (Hat : ex_at (<[k := v]> out) k = v).
      { unfold ex_at. rewrite list_lookup_insert_eq by lia. reflexivity. }
      rewrite Hat.
      rewrite (take_S_r _ k v) by (rewrite list_lookup_insert_eq by lia; reflexivity).
      rewrite take_insert_ge by lia.
      rewrite forallb_app. cbn [forallb]. rewrite Hgood.
      unfold nonzero. change (f32_of_int 0) with (S754_zero false).
      destruct (f32_eqb v (S754_zero false)); cbn [negb andb];
        rewrite ?andb_true_r, ?andb_false_r; reflexivity.
Qed.

(** The list the loop leaves: same length, and every position holds what
    its iteration wrote; the flag is kept only if no position is 0. *)
Lemma repair_loop_spec (e : list float) (g : bool) :
  let out := fst (repair_loop e g) in
  length out = length e
  /\ (forall j, (j < length e)%nat -> out !! j = Some (repaired_at out e j))
  /\ snd (repair_loop e g) = g && forallb nonzero out.
Proof.
  unfold repair_loop.
  destruct (repair_prefix e g (length e)) as (Hlen & _ & Hdone & Hgood); [lia |].
  simpl in *. split_and!; [exact Hlen | exact Hdone |].
  rewrite Hgood. rewrite take_ge by lia. reflexivity.
Qed.

Lemma repair_fold_flag (l : list nat) (e : list float) (g g' : bool) :
  fst (fold_left repair_step l (e, g)) = fst (fold_left repair_step l (e, g')).
Proof.
  revert e g g'. induction l as [| i l IH]; intros e g g'; [reflexivity |].
  simpl. apply IH.
Qed.

Lemma repair_loop_flag (e : list float) (g g' : bool) :
  fst (repair_loop e g) = fst (repair_loop e g').
Proof. apply repair_fold_flag. Qed.

(** Position [i] after the loop, from its left neighbour after the loop,
    its own value before the loop and its right neighbour before the
    loop. *)
Lemma repair_loop_lookup (e : list float) (g : bool) (i : nat) (cur : float) :
  e !! i = Some cur ->
  fst (repair_loop e g) !! i
  = Some (repaired (match i with
                    | O => None
                    | S j => fst (repair_loop e g) !! j
                    end) cur (e !! S i)).
Proof.
  intros Hcur. pose proof (lookup_lt_Some _ _ _ Hcur) as Hi.
  destruct (repair_loop_spec e g) as (Hlen & Hdone & _).
  rewrite (Hdone i Hi). f_equal. unfold repaired_at. f_equal.
  - destruct i as [| j]; [reflexivity |].
    replace (0 <? Z.of_nat (S j)) with true by (symmetry; apply Z.ltb_lt; lia).
    replace (S j - 1)%nat with j by lia.
    destruct (fst (repair_loop e g) !! j) eqn:E.
    + unfold ex_at. rewrite E. reflexivity.
    + apply lookup_ge_None in E. lia.
  - unfold ex_at. rewrite Hcur. reflexivity.
  - unfold size. replace (i + 1)%nat with (S i) by lia.
    destruct (e !! S i) eqn:E.
    + pose proof (lookup_lt_Some _ _ _ E) as Hlt.
      replace (Z.of_nat i + 1 <? Z.of_nat (length e)) with true
        by (symmetry; apply Z.ltb_lt; lia).
      unfold ex_at. rewrite E. reflexivity.
    + apply lookup_ge_None in E.
      replace (Z.of_nat i + 1 <? Z.of_nat (length e)) with false
        by (symmetry; apply Z.ltb_ge; lia).
      reflexivity.
Qed.

(** *** [loadTimestamps] *)

Lemma read_lines_files (lines : list times_line) (r : ImageFolderReader) :
  files (fold_left read_line lines r) = files r.
Proof.
  revert r. induction lines as [| l lines IH]; intros r; [reflexivity |].
  simpl. rewrite IH. destruct l; reflexivity.
Qed.

Lemma read_lines_same_length (lines : list times_line) (r : ImageFolderReader) :
  length (timestamps r) = length (exposures r) ->
  length (timestamps (fold_left read_line lines r))
  = length (exposures (fold_left read_line lines r)).
Proof.
  revert r. induction lines as [| l lines IH]; intros r Hr; [exact Hr |].
  simpl. apply IH. destruct l; simpl; rewrite ?length_app; simpl; lia.
Qed.

Lemma forallb_nonzero (out : list float) :
  forallb nonzero out = true ->
  forall x, In x out -> f32_eqb x (f32_of_int 0) = false.
Proof.
  intros H x Hx. rewrite forallb_forall in H. specialize (H x Hx).
  unfold nonzero in H. destruct (f32_eqb x (f32_of_int 0)); [discriminate | reflexivity].
Qed.

Lemma forallb_nonzero_false (out : list float) (x : float) :
  In x out -> f32_eqb x (f32_of_int 0) = true -> forallb nonzero out = false.
Proof.
  intros Hx Hz. destruct (forallb nonzero out) eqn:E; [| reflexivity].
  rewrite (forallb_nonzero out E x Hx) in Hz. discriminate.
Qed.

(** What [loadTimestamps] leaves, by cases on the two counts and on the
    repaired exposures. *)
Lemma loadTimestamps_cases (r : ImageFolderReader) (lines : list times_line) :
  let loaded := fold_left read_line lines r in
  let out := fst (repair_loop (exposures loaded) true) in
  files (loadTimestamps r lines) = files r
  /\ timestamps (loadTimestamps r lines)
     = (if size (timestamps loaded) =? getNumImages r then timestamps loaded else [])
  /\ exposures (loadTimestamps r lines)
     = (if (size (timestamps loaded) =? getNumImages r)
           && (size (exposures loaded) =? getNumImages r)
           && forallb nonzero out
        then out else []).
Proof.
  intros loaded out. unfold loadTimestamps. fold loaded.
  assert (HN : getNumImages loaded = getNumImages r).
  { unfold getNumImages, loaded. rewrite read_lines_files. reflexivity. }
  destruct (repair_loop_spec (exposures loaded) (size (exposures loaded) =? getNumImages loaded))
    as (Hlen & _ & Hflag).
  rewrite (repair_loop_flag _ _ true) in Hlen, Hflag. fold out in Hlen, Hflag.
  destruct (repair_loop (exposures loaded) (size (exposures loaded) =? getNumImages loaded))
    as [ex1 good] eqn:E.
  assert (Hex1 : ex1 = out).
  { unfold out. rewrite (repair_loop_flag _ true (size (exposures loaded) =? getNumImages loaded)).
    rewrite E. reflexivity. }
  subst ex1. simpl in Hflag.
  assert (Hsz : size out = size (exposures loaded)) by (unfold size; rewrite Hlen; reflexivity).
  change (getNumImages (set_series loaded (ids loaded) (timestamps loaded) out))
    with (getNumImages loaded).
  cbn [timestamps exposures set_series].
  rewrite HN in *. rewrite (Z.eqb_sym (getNumImages r) (size (timestamps loaded))).
  destruct (size (timestamps loaded) =? getNumImages r) eqn:Et; cbn [negb andb].
  - change (getNumImages (set_series loaded (ids loaded) (timestamps loaded) out))
      with (getNumImages loaded).
    cbn [timestamps exposures set_series]. rewrite HN, Hsz.
    rewrite (Z.eqb_sym (getNumImages r) (size (exposures loaded))).
    rewrite Hflag.
    destruct (size (exposures loaded) =? getNumImages r) eqn:Ee; cbn [negb andb orb].
    + destruct (forallb nonzero out); cbn [negb];
        (split_and!; [apply read_lines_files | rewrite ?Et; reflexivity | reflexivity]).
    + split_and!; [apply read_lines_files | reflexivity | reflexivity].
  - cbn [timestamps exposures files set_series].
    destruct (negb _ || negb good);
      (split_and!; [apply read_lines_files | reflexivity | reflexivity]).
Qed.

(** C6. After [loadTimestamps], for a catalog of N files, the timestamp
    series has length 0 or N and the exposure series has length 0 or N,
    and no retained exposure compares equal to 0. A timestamp count other
    than N empties both series; an exposure count other than N, or an
    exposure still 0 after the repair loop, empties the exposure series.
    Otherwise the timestamps are kept as read and the exposures as
    repaired. *)
Theorem series_lengths_after_loading (r : ImageFolderReader) (lines : list times_line) :
  getNumImages (loadTimestamps r lines) = getNumImages r
  /\ lengths_reconciled (loadTimestamps r lines)
  /\ (forall x, In x (exposures (loadTimestamps r lines)) ->
      f32_eqb x (f32_of_int 0) = false)
  /\ (size (timestamps (fold_left read_line lines r)) <> getNumImages r ->
      timestamps (loadTimestamps r lines) = []
      /\ exposures (loadTimestamps r lines) = [])
  /\ (size (exposures (fold_left read_line lines r)) <> getNumImages r ->
      exposures (loadTimestamps r lines) = [])
  /\ (forall x,
      In x (fst (repair_loop (exposures (fold_left read_line lines r)) true)) ->
      f32_eqb x (f32_of_int 0) = true ->
      exposures (loadTimestamps r lines) = [])
  /\ (size (timestamps (fold_left read_line lines r)) = getNumImages r ->
      timestamps (loadTimestamps r lines) = timestamps (fold_left read_line lines r))
  /\ (size (timestamps (fold_left read_line lines r)) = getNumImages r ->
      size (exposures (fold_left read_line lines r)) = getNumImages r ->
      forallb nonzero (fst (repair_loop (exposures (fold_left read_line lines r)) true))
      = true ->
      exposures (loadTimestamps r lines)
      = fst (repair_loop (exposures (fold_left read_line lines r)) true)).
Proof.
  destruct (loadTimestamps_cases r lines) as (Hf & Ht & He). cbv zeta in Ht, He.
  set (loaded := fold_left read_line lines r) in *.
  set (out := fst (repair_loop (exposures loaded) true)) in *.
  destruct (repair_loop_spec (exposures loaded) true) as (Hlen & _ & _). fold out in Hlen.
  assert (HN : getNumImages (loadTimestamps r lines) = getNumImages r).
  { unfold getNumImages. rewrite Hf. reflexivity. }
  split_and!.
  - exact HN.
  - unfold lengths_reconciled. rewrite HN, Ht, He. split.
    + destruct (Z.eqb_spec (size (timestamps loaded)) (getNumImages r)); [right | left]; auto.
    + destruct (Z.eqb_spec (size (timestamps loaded)) (getNumImages r));
        destruct (Z.eqb_spec (size (exposures loaded)) (getNumImages r));
        destruct (forallb nonzero out); cbn [andb]; try (left; reflexivity).
      right. unfold size in *. rewrite Hlen. assumption.
  - intros x. rewrite He.
    destruct (_ && _ && forallb nonzero out) eqn:E; [| intros []].
    apply andb_true_iff in E as [_ E]. apply forallb_nonzero. exact E.
  - intros Hne. rewrite Ht, He.
    destruct (Z.eqb_spec (size (timestamps loaded)) (getNumImages r)); [contradiction |].
    split; reflexivity.
  - intros Hne. rewrite He.
    destruct (Z.eqb_spec (size (exposures loaded)) (getNumImages r)); [contradiction |].
    rewrite andb_false_r. reflexivity.
  - intros x Hx Hz. rewrite He.
    rewrite (forallb_nonzero_false out x Hx Hz). rewrite andb_false_r. reflexivity.
  - intros Heq. rewrite Ht. rewrite Heq, Z.eqb_refl. reflexivity.
  - intros Heq Heq' Hgood. rewrite He. rewrite Heq, Heq', Z.eqb_refl, Hgood. reflexivity.
Qed.

Lemma series_lengths_after_loading_witness :
  (timestamps (loadTimestamps (folder 3 []) (lines_of [1])) = []
   /\ exposures (loadTimestamps (folder 3 []) (lines_of [1])) = [])
  /\ exposures (loadTimestamps (folder 3 []) (lines_of [0; 0; 3])) = []
  /\ timestamps (loadTimestamps (folder 3 []) (lines_of [0; 0; 3]))
     = map f64_of_int [0; 1; 2]
  /\ exposures (loadTimestamps (folder 3 []) (lines_of [0; 2; 0]))
     = map f32_of_int [2; 2; 2]
  /\ (forall x, In x (exposures (loadTimestamps (folder 3 []) (lines_of [0; 2; 0]))) ->
      f32_eqb x (f32_of_int 0) = false).
Proof.
  destruct (series_lengths_after_loading (folder 3 []) (lines_of [1]))
    as (_ & _ & _ & H1 & _).
  destruct (series_lengths_after_loading (folder 3 []) (lines_of [0; 0; 3]))
    as (_ & _ & _ & _ & _ & H2 & H3 & _).
  destruct (series_lengths_after_loading (folder 3 []) (lines_of [0; 2; 0]))
    as (_ & _ & H6 & _ & _ & _ & _ & H4).
  split; [apply H1; vm_compute; discriminate |].
  split; [apply (H2 (f32_of_int 0)); [left; reflexivity | reflexivity] |].
  split; [apply H3; reflexivity |].
  split; [apply H4; reflexivity |].
  exact H6.
Defined.

(** *** The repair of the exposures *)

Lemma repaired_average (left right : option float) (cur : float) :
  repaired left cur right
  = if f32_eqb cur (f32_of_int 0) then
      match positive_neighbours left right with
      | [] => cur
      | xs => average xs
      end
    else cur.
Proof.
  unfold repaired, positive_neighbours.
  destruct (f32_eqb cur (f32_of_int 0)); [| reflexivity].
  destruct left as [l |], right as [x |];
    repeat match goal with
           | |- context [f32_ltb (f32_of_int 0) ?y] =>
               is_var y; destruct (f32_ltb (f32_of_int 0) y)
           end; reflexivity.
Qed.

Lemma lookup_In {A : Type} (l : list A) (i : nat) (x : A) : l !! i = Some x -> In x l.
Proof. intros H. apply list_elem_of_In. eapply list_elem_of_lookup_2. exact H. Qed.

(** C5, as stated, fails. In [0, 0, 3] the first exposure is exactly 0
    and has a non-zero exposure on its right, yet it is still 0 after the
    loop; in [-1, 0] the second exposure is 0 and its left neighbour is
    non-zero, yet it is still 0 after the loop. *)
Lemma exposure_repair_counterexample :
  (nearest_valid_right (map f32_of_int [0; 0; 3]) 0 = Some (f32_of_int 3)
   /\ fst (repair_loop (map f32_of_int [0; 0; 3]) true) !! 0%nat = Some (f32_of_int 0))
  /\ (nearest_valid_left (map f32_of_int [-1; 0]) 1 = Some (f32_of_int (-1))
      /\ fst (repair_loop (map f32_of_int [-1; 0]) true) !! 1%nat = Some (f32_of_int 0)).
Proof. vm_compute. repeat split. Qed.

(** C5, amended. The repair loop leaves an exposure that is not 0 as it
    is. An exposure that is exactly 0 is replaced by the average of those of
    its two immediate neighbours that are strictly positive, the left one as
    the loop left it and the right one as it was read, when there is at
    least one; otherwise it stays 0 and the series is flagged as bad, so
    that [loadTimestamps] empties it. The series [0, 2, 0] for three frames
    becomes [2, 2, 2]; the series [0, 0, 0] is emptied and every exposure
    lookup then gives 1. *)
Theorem exposure_repair (e : list float) (g : bool) (i : nat) (cur : float) :
  e !! i = Some cur ->
  (f32_eqb cur (f32_of_int 0) = false -> fst (repair_loop e g) !! i = Some cur)
  /\ (f32_eqb cur (f32_of_int 0) = true ->
      positive_neighbours
        (match i with O => None | S j => fst (repair_loop e g) !! j end) (e !! S i) <> [] ->
      fst (repair_loop e g) !! i
      = Some (average (positive_neighbours
                         (match i with O => None | S j => fst (repair_loop e g) !! j end)
                         (e !! S i))))
  /\ (f32_eqb cur (f32_of_int 0) = true ->
      positive_neighbours
        (match i with O => None | S j => fst (repair_loop e g) !! j end) (e !! S i) = [] ->
      fst (repair_loop e g) !! i = Some cur /\ snd (repair_loop e g) = false)
  /\ exposures (with_exposures [0; 2; 0]) = map f32_of_int [2; 2; 2]
  /\ exposures (with_exposures [0; 0; 0]) = []
  /\ (forall id, exposure_of (with_exposures [0; 0; 0]) id = Ok (f32_of_int 1)).
Proof.
  intros Hcur. pose proof (repair_loop_lookup e g i cur Hcur) as Hout.
  rewrite repaired_average in Hout.
  split_and!.
  - intros Hnz. rewrite Hnz in Hout. exact Hout.
  - intros Hz Hpos. rewrite Hz in Hout.
    destruct (positive_neighbours _ _) eqn:E; [contradiction | exact Hout].
  - intros Hz Hnone. rewrite Hz, Hnone in Hout. split; [exact Hout |].
    destruct (repair_loop_spec e g) as (_ & _ & Hflag). rewrite Hflag.
    rewrite (forallb_nonzero_false _ cur (lookup_In _ _ _ Hout) Hz).
    apply andb_false_r.
  - vm_compute. reflexivity.
  - vm_compute. reflexivity.
  - intros id. unfold exposure_of.
    replace (exposures (with_exposures [0; 0; 0])) with (@nil spec_float)
      by (vm_compute; reflexivity).
    reflexivity.
Qed.

Lemma exposure_repair_witness :
  fst (repair_loop (map f32_of_int [1; 0; 4]) true) !! 1%nat
  = Some (f32_div (f32_of_int 5) (f32_of_int 2))
  /\ fst (repair_loop (map f32_of_int [1; 0; 4]) true) !! 2%nat = Some (f32_of_int 4)
  /\ (fst (repair_loop (map f32_of_int [0; 0; 3]) true) !! 0%nat = Some (f32_of_int 0)
      /\ snd (repair_loop (map f32_of_int [0; 0; 3]) true) = false).
Proof.
  destruct (exposure_repair (map f32_of_int [1; 0; 4]) true 1 (f32_of_int 0) eq_refl)
    as (_ & H1 & _).
  destruct (exposure_repair (map f32_of_int [1; 0; 4]) true 2 (f32_of_int 4) eq_refl)
    as (H2 & _).
  destruct (exposure_repair (map f32_of_int [0; 0; 3]) true 0 (f32_of_int 0) eq_refl)
    as (_ & _ & H3 & _).
  split; [apply H1; [reflexivity | vm_compute; discriminate] |].
  split; [apply H2; reflexivity |].
  apply H3; reflexivity.
Defined.

(** *** The sweep reads only the immediate neighbours *)

Lemma take_lookup_agree (e e' : list float) (n j : nat) :
  take n e = take n e' -> (j < n)%nat -> e !! j = e' !! j.
Proof.
  intros Ht Hj. rewrite <- (lookup_take_lt e n j Hj), <- (lookup_take_lt e' n j Hj).
  rewrite Ht. reflexivity.
Qed.

Lemma repair_loop_prefix (e e' : list float) (g g' : bool) (i : nat) :
  take (S (S i)) e = take (S (S i)) e' ->
  forall j, (j <= i)%nat -> fst (repair_loop e g) !! j = fst (repair_loop e' g') !! j.
Proof.
  intros Ht. induction j as [| j IH]; intros Hj.
  - destruct (e !! 0%nat) as [cur |] eqn:E.
    + pose proof E as E'. rewrite (take_lookup_agree e e' _ 0 Ht) in E' by lia.
      rewrite (repair_loop_lookup e g 0 cur E), (repair_loop_lookup e' g' 0 cur E').
      rewrite (take_lookup_agree e e' _ 1 Ht) by lia. reflexivity.
    + pose proof E as E'. rewrite (take_lookup_agree e e' _ 0 Ht) in E' by lia.
      destruct (repair_loop_spec e g) as (Hl & _). destruct (repair_loop_spec e' g') as (Hl' & _).
      apply lookup_ge_None in E, E'.
      rewrite (proj2 (lookup_ge_None _ _)) by lia.
      rewrite (proj2 (lookup_ge_None _ _)) by lia. reflexivity.
  - destruct (e !! S j) as [cur |] eqn:E.
    + pose proof E as E'. rewrite (take_lookup_agree e e' _ (S j) Ht) in E' by lia.
      rewrite (repair_loop_lookup e g (S j) cur E), (repair_loop_lookup e' g' (S j) cur E').
      rewrite IH by lia.
      rewrite (take_lookup_agree e e' _ (S (S j)) Ht) by lia. reflexivity.
    + pose proof E as E'. rewrite (take_lookup_agree e e' _ (S j) Ht) in E' by lia.
      destruct (repair_loop_spec e g) as (Hl & _). destruct (repair_loop_spec e' g') as (Hl' & _).
      apply lookup_ge_None in E, E'.
      rewrite (proj2 (lookup_ge_None _ _)) by lia.
      rewrite (proj2 (lookup_ge_None _ _)) by lia. reflexivity.
Qed.

(** C9. The repair is one left-to-right sweep in place: what it leaves
    at position [i] is a function of what it left at [i-1], of the value
    read at [i] and of the value read at [i+1], and of nothing else; in
    particular two series that agree up to position [i+1] are repaired alike
    at [i]. A repaired value therefore propagates to the right ([2, 0, 0]
    becomes [2, 2, 2]), while in [0, 0, 3] the first exposure, whose only
    valid value is two positions away, stays 0, and [loadTimestamps] empties
    the series. *)
Theorem repair_sweep_is_local :
  (forall (e : list float) (g : bool) (i : nat) (cur : float),
      e !! i = Some cur ->
      fst (repair_loop e g) !! i
      = Some (repaired (match i with O => None | S j => fst (repair_loop e g) !! j end)
                       cur (e !! S i)))
  /\ (forall (e e' : list float) (g g' : bool) (i : nat),
      take (S (S i)) e = take (S (S i)) e' ->
      fst (repair_loop e g) !! i = fst (repair_loop e' g') !! i)
  /\ fst (repair_loop (map f32_of_int [2; 0; 0]) true) = map f32_of_int [2; 2; 2]
  /\ exposures (with_exposures [2; 0; 0]) = map f32_of_int [2; 2; 2]
  /\ repair_loop (map f32_of_int [0; 0; 3]) true = (map f32_of_int [0; 3; 3], false)
  /\ exposures (with_exposures [0; 0; 3]) = [].
Proof.
  split_and!.
  - exact repair_loop_lookup.
  - intros e e' g g' i Ht. apply (repair_loop_prefix e e' g g' i Ht i). lia.
  - vm_compute. reflexivity.
  - vm_compute. reflexivity.
  - vm_compute. reflexivity.
  - vm_compute. reflexivity.
Qed.

Lemma repair_sweep_is_local_witness :
  fst (repair_loop (map f32_of_int [0; 0; 3; 7]) true) !! 0%nat
  = fst (repair_loop (map f32_of_int [0; 0; 5]) false) !! 0%nat
  /\ fst (repair_loop (map f32_of_int [2; 0; 0]) true) !! 2%nat
     = Some (repaired (fst (repair_loop (map f32_of_int [2; 0; 0]) true) !! 1%nat)
                      (f32_of_int 0) None).
Proof.
  destruct repair_sweep_is_local as (H1 & H2 & _).
  split.
  - apply H2. reflexivity.
  - apply (H1 (map f32_of_int [2; 0; 0]) true 2%nat (f32_of_int 0)). reflexivity.
Defined.

End ReaderProperties.

(** ** Order and rounding of binary64 addition *)

Module RoundingProperties.

(** *** Digits and shifts *)

Lemma digits2_pos_bounds (m : positive) :
  2 ^ (Zpos (digits2_pos m) - 1) <= Zpos m < 2 ^ Zpos (digits2_pos m).
Proof.
  induction m as [m IH | m IH |]; simpl digits2_pos.
  - rewrite Pos2Z.inj_succ. set (d := Zpos (digits2_pos m)) in *.
    assert (Hd : 0 < d) by (unfold d; lia).
    replace (Z.succ d - 1) with d by lia.
    assert (H1 : 2 ^ d = 2 * 2 ^ (d - 1)).
    { rewrite <- Z.pow_succ_r by lia. f_equal. lia. }
    rewrite Z.pow_succ_r by lia. change (Zpos m~1) with (2 * Zpos m + 1). lia.
  - rewrite Pos2Z.inj_succ. set (d := Zpos (digits2_pos m)) in *.
    assert (Hd : 0 < d) by (unfold d; lia).
    replace (Z.succ d - 1) with d by lia.
    assert (H1 : 2 ^ d = 2 * 2 ^ (d - 1)).
    { rewrite <- Z.pow_succ_r by lia. f_equal. lia. }
    rewrite Z.pow_succ_r by lia. change (Zpos m~0) with (2 * Zpos m). lia.
  - simpl. lia.
Qed.

Lemma digits_unique (m : positive) (d : Z) :
  2 ^ (d - 1) <= Zpos m < 2 ^ d -> Zpos (digits2_pos m) = d.
Proof.
  intros [Hl Hu]. pose proof (digits2_pos_bounds m) as [Hl' Hu'].
  assert (0 < d).
  { destruct (Z.ltb_spec 0 d); [assumption |]. 
    assert (2 ^ d <= 2 ^ 0) by (apply Z.pow_le_mono_r; lia). simpl in *. lia. }
  destruct (Z.lt_trichotomy (Zpos (digits2_pos m)) d) as [Hlt | [Heq | Hgt]]; [| exact Heq |].
  - assert (2 ^ Zpos (digits2_pos m) <= 2 ^ (d - 1)) by (apply Z.pow_le_mono_r; lia). lia.
  - assert (2 ^ d <= 2 ^ (Zpos (digits2_pos m) - 1)) by (apply Z.pow_le_mono_r; lia). lia.
Qed.

Lemma digits_mono (a b : positive) :
  (a <= b)%positive -> Zpos (digits2_pos a) <= Zpos (digits2_pos b).
Proof.
  intros Hab. pose proof (digits2_pos_bounds a) as [Hl Hu].
  pose proof (digits2_pos_bounds b) as [Hl' Hu'].
  destruct (Z.leb_spec (Zpos (digits2_pos a)) (Zpos (digits2_pos b))); [assumption |].
  assert (2 ^ Zpos (digits2_pos b) <= 2 ^ (Zpos (digits2_pos a) - 1)) by (apply Z.pow_le_mono_r; lia).
  lia.
Qed.

Lemma digits_shift (m : positive) (k : Z) : 0 <= k ->
  forall m', Zpos m' = Zpos m * 2 ^ k -> Zpos (digits2_pos m') = Zpos (digits2_pos m) + k.
Proof.
  intros Hk m' Hm'. apply digits_unique. rewrite Hm'.
  pose proof (digits2_pos_bounds m) as [Hl Hu].
  replace (Zpos (digits2_pos m) + k - 1) with ((Zpos (digits2_pos m) - 1) + k) by lia.
  rewrite !Z.pow_add_r by lia.
  assert (0 < 2 ^ k) by (apply Z.pow_pos_nonneg; lia). nia.
Qed.

Lemma iter_pos_nat {A} (f : A -> A) (p : positive) (x : A) :
  SpecFloat.iter_pos f p x = Nat.iter (Pos.to_nat p) f x.
Proof.
  revert x. induction p as [p IH | p IH |]; intros x; simpl SpecFloat.iter_pos.
  - rewrite !IH. rewrite Pos2Nat.inj_xI. simpl. rewrite Nat.add_0_r.
    rewrite <- Nat.iter_succ_r. rewrite <- Nat.iter_add. simpl.
    replace (Pos.to_nat p + S (Pos.to_nat p))%nat with (S (Pos.to_nat p + Pos.to_nat p)) by lia.
    reflexivity.
  - rewrite !IH. rewrite Pos2Nat.inj_xO. simpl. rewrite Nat.add_0_r.
    rewrite <- Nat.iter_add. reflexivity.
  - reflexivity.
Qed.

Lemma shr_1_m (mrs : shr_record) : 0 <= shr_m mrs -> shr_m (shr_1 mrs) = shr_m mrs / 2.
Proof.
  destruct mrs as [m r s]. simpl. intros Hm.
  destruct m as [| p | p]; [reflexivity | | lia].
  destruct p; simpl.
  - change (Zpos p~1) with (2 * Zpos p + 1). apply Z.div_unique with 1; lia.
  - change (Zpos p~0) with (2 * Zpos p). apply Z.div_unique with 0; lia.
  - reflexivity.
Qed.

Lemma shr_iter_m (n : nat) (mrs : shr_record) :
  0 <= shr_m mrs -> shr_m (Nat.iter n shr_1 mrs) = shr_m mrs / 2 ^ Z.of_nat n.
Proof.
  intros Hm. induction n as [| n IH].
  - simpl. rewrite Z.div_1_r. reflexivity.
  - rewrite Nat.iter_succ. rewrite shr_1_m.
    + rewrite IH. rewrite Nat2Z.inj_succ, Z.pow_succ_r by lia.
      rewrite Z.div_div by (try lia; apply Z.pow_pos_nonneg; lia).
      f_equal. lia.
    + rewrite IH. apply Z.div_pos; [lia | apply Z.pow_pos_nonneg; lia].
Qed.

Lemma fexp_64 (e : Z) : fexp 53 1024 e = fexp64 e.
Proof. reflexivity. Qed.

Lemma shift_pos_val (m d : positive) : Zpos (Pos.iter xO m d) = Zpos m * 2 ^ Zpos d.
Proof.
  change (Pos.iter xO m d) with (shift_pos d m). rewrite shift_pos_correct.
  rewrite Zpower_pos_is_exp_pow || idtac. 
  rewrite <- Z.pow_pos_fold || idtac. lia.
Qed.

Lemma binary_round_aux_exact (sx : bool) (m : positive) (E : Z) :
  fexp64 (Zpos (digits2_pos m) + E) = E ->
  binary_round_aux 53 1024 sx (Zpos m) E loc_Exact
  = if E <=? 971 then S754_finite sx m E else S754_infinity sx.
Proof.
  intros HE. unfold binary_round_aux, shr_fexp. rewrite !fexp_64.
  cbn [Zdigits2 shr_record_of_loc]. rewrite HE, Z.sub_diag. cbn [shr].
  cbn [shr_m loc_of_shr_record round_nearest_even Zdigits2 shr_record_of_loc].
  rewrite fexp_64, HE, Z.sub_diag. cbn [shr shr_m]. reflexivity.
Qed.

Lemma rne_bounds (m : Z) (l : location) :
  m <= round_nearest_even m l <= m + 1.
Proof.
  unfold round_nearest_even. destruct l as [| []]; try lia.
  destruct (Z.even m); lia.
Qed.

Lemma bounded_intro (m : positive) (E : Z) :
  fexp64 (Zpos (digits2_pos m) + E) = E -> E <= 971 -> bounded 53 1024 m E = true.
Proof.
  intros H1 H2. unfold bounded, canonical_mantissa. rewrite fexp_64, H1, Z.eqb_refl.
  simpl. apply Z.leb_le. lia.
Qed.

Lemma bounded_elim (m : positive) (E : Z) :
  bounded 53 1024 m E = true -> fexp64 (Zpos (digits2_pos m) + E) = E /\ E <= 971.
Proof.
  unfold bounded, canonical_mantissa. rewrite fexp_64. intros H.
  apply andb_true_iff in H as [H1 H2]. apply Z.eqb_eq in H1. apply Z.leb_le in H2.
  split; [exact H1 | lia].
Qed.

Lemma binary_round_aux_shift (sx : bool) (M : positive) (e : Z) :
  -1074 <= e ->
  e < fexp64 (Zpos (digits2_pos M) + e) ->
  rounded sx M e (binary_round_aux 53 1024 sx (Zpos M) e loc_Exact).
Proof.
  intros He Hlt.
  pose proof (digits2_pos_bounds M) as [HdL HdU].
  set (d := Zpos (digits2_pos M)) in *.
  assert (HE : fexp64 (d + e) = d + e - 53) by (unfold fexp64 in *; lia).
  assert (Hk : exists kp, d - 53 = Zpos kp).
  { destruct (d - 53) as [| kp | kp] eqn:Ek; [lia | eauto | lia]. }
  destruct Hk as [kp Hkp].
  unfold binary_round_aux, shr_fexp. rewrite fexp_64.
  cbn [Zdigits2 shr_record_of_loc]. fold d.
  replace (fexp64 (d + e) - e) with (Zpos kp) by lia.
  cbn [shr]. rewrite iter_pos_nat.
  set (mrs' := Nat.iter (Pos.to_nat kp) shr_1 {| shr_m := Zpos M; shr_r := false; shr_s := false |}).
  assert (Hm1 : shr_m mrs' = Zpos M / 2 ^ Zpos kp).
  { unfold mrs'. rewrite shr_iter_m by (simpl; lia). rewrite positive_nat_Z. reflexivity. }
  assert (Hpow : 0 < 2 ^ Zpos kp) by (apply Z.pow_pos_nonneg; lia).
  assert (HdL' : 2 ^ (d - 1) = 2 ^ 52 * 2 ^ Zpos kp).
  { rewrite <- Z.pow_add_r by lia. f_equal. lia. }
  assert (HdU' : 2 ^ d = 2 ^ 53 * 2 ^ Zpos kp).
  { rewrite <- Z.pow_add_r by lia. f_equal. lia. }
  assert (Hm1L : 2 ^ 52 <= shr_m mrs').
  { rewrite Hm1. apply Z.div_le_lower_bound; lia. }
  assert (Hm1U : shr_m mrs' < 2 ^ 53).
  { rewrite Hm1. apply Z.div_lt_upper_bound; lia. }
  pose proof (rne_bounds (shr_m mrs') (loc_of_shr_record mrs')) as Hrne.
  set (m2 := round_nearest_even (shr_m mrs') (loc_of_shr_record mrs')) in *.
  destruct m2 as [| p2 | p2] eqn:Em2; [lia | | lia].
  rewrite fexp_64. cbn [Zdigits2].
  assert (Hcut : cut (Zpos M) e (e + Zpos kp) = shr_m mrs').
  { unfold cut. destruct (Z.leb_spec (e + Zpos kp) e); [lia |].
    rewrite Hm1. do 2 f_equal. lia. }
  destruct (Z.ltb_spec (Zpos p2) (2 ^ 53)) as [Hsmall | Hbig].
  - assert (Hd2 : Zpos (digits2_pos p2) = 53) by (apply digits_unique; lia).
    rewrite Hd2.
    replace (fexp64 (53 + (e + Zpos kp)) - (e + Zpos kp)) with 0 by (unfold fexp64; lia).
    cbn [shr shr_m].
    destruct (Z.leb_spec (e + Zpos kp) (1024 - 53));
      [| apply rounded_inf; fold d; left; lia].
    apply rounded_fin; fold d.
    + apply bounded_intro; [rewrite Hd2; unfold fexp64; lia | lia].
    + lia.
    + intros _. rewrite Hcut. lia.
    + intros Habs. lia.
  - assert (Hp2 : Zpos p2 = 2 ^ 53) by lia.
    assert (Hd2 : Zpos (digits2_pos p2) = 54) by (apply digits_unique; rewrite Hp2; simpl; lia).
    rewrite Hd2.
    replace (fexp64 (54 + (e + Zpos kp)) - (e + Zpos kp)) with 1 by (unfold fexp64; lia).
    cbn [shr SpecFloat.iter_pos].
    assert (Hhalf : shr_m (shr_1 {| shr_m := Zpos p2; shr_r := false; shr_s := false |})
                    = 2 ^ 52).
    { rewrite shr_1_m by (simpl; lia). simpl shr_m. rewrite Hp2. reflexivity. }
    destruct (shr_m (shr_1 {| shr_m := Zpos p2; shr_r := false; shr_s := false |}))
      as [| q | q] eqn:Eq; [discriminate | | discriminate].
    assert (Hcut' : 2 ^ 53 <= cut (Zpos M) e (fexp64 (d + e)) + 1).
    { replace (fexp64 (d + e)) with (e + Zpos kp) by lia. rewrite Hcut. lia. }
    destruct (Z.leb_spec (e + Zpos kp + 1) (1024 - 53)).
    2:{ apply rounded_inf; fold d.
        destruct (Z.eq_dec (fexp64 (d + e)) 971); [right; split; assumption | left; lia]. }
    apply rounded_fin; fold d.
    + apply bounded_intro; [| lia].
      replace (Zpos (digits2_pos q)) with 53
        by (symmetry; apply digits_unique; rewrite Hhalf; simpl; lia).
      unfold fexp64. lia.
    + lia.
    + intros Habs. lia.
    + intros _. split; [exact Hhalf | exact Hcut'].
Qed.

Lemma binary_round_rounded (sx : bool) (M : positive) (e : Z) :
  -1074 <= e -> rounded sx M e (binary_round 53 1024 sx M e).
Proof.
  intros He. unfold binary_round. rewrite fexp_64.
  pose proof (digits2_pos_bounds M) as [HdL HdU].
  set (d := Zpos (digits2_pos M)) in *.
  unfold shl_align.
  destruct (fexp64 (d + e) - e) as [| k | k] eqn:Ek.
  - (* already at the right exponent *)
    rewrite binary_round_aux_exact by (fold d; lia).
    destruct (Z.leb_spec e 971); [| apply rounded_inf; fold d; left; lia].
    apply rounded_fin; fold d.
    + apply bounded_intro; [fold d; lia | lia].
    + lia.
    + intros _. unfold cut. rewrite Z.leb_refl, Z.sub_diag. simpl. lia.
    + lia.
  - apply binary_round_aux_shift; [lia | fold d; lia].
  - (* shift left *)
    assert (Hmz : Zpos (Pos.iter xO M k) = Zpos M * 2 ^ Zpos k) by apply shift_pos_val.
    assert (Hdz : Zpos (digits2_pos (Pos.iter xO M k)) = d + Zpos k).
    { apply (digits_shift M (Zpos k)); [lia | exact Hmz]. }
    rewrite binary_round_aux_exact
      by (rewrite Hdz; replace (d + Zpos k + fexp64 (d + e)) with (d + e) by lia; reflexivity).
    destruct (Z.leb_spec (fexp64 (d + e)) 971); [| apply rounded_inf; fold d; left; lia].
    apply rounded_fin; fold d.
    + apply bounded_intro; [| lia].
      rewrite Hdz. replace (d + Zpos k + fexp64 (d + e)) with (d + e) by lia. reflexivity.
    + lia.
    + intros _. unfold cut. destruct (Z.leb_spec (fexp64 (d + e)) e); [| lia].
      rewrite Hmz. replace (e - fexp64 (d + e)) with (Zpos k) by lia. lia.
    + lia.
Qed.

Lemma shl_align_val (m : positive) (e e' : Z) :
  e' <= e -> Zpos (fst (shl_align m e e')) = Zpos m * 2 ^ (e - e').
Proof.
  intros He. unfold shl_align. destruct (e' - e) as [| k | k] eqn:E; cbn [fst].
  - replace (e - e') with 0 by lia. rewrite Z.pow_0_r. lia.
  - lia.
  - rewrite shift_pos_val. do 2 f_equal. lia.
Qed.

Lemma fexp64_mono (a b : Z) : a <= b -> fexp64 a <= fexp64 b.
Proof. unfold fexp64. lia. Qed.

Lemma bounded_facts (m : positive) (e : Z) :
  bounded 53 1024 m e = true ->
  -1074 <= e <= 971 /\ Zpos m < 2 ^ 53 /\ (-1074 < e -> 2 ^ 52 <= Zpos m)
  /\ fexp64 (Zpos (digits2_pos m) + e) = e.
Proof.
  intros Hb. apply bounded_elim in Hb as [Hc He].
  pose proof (digits2_pos_bounds m) as [HL HU].
  set (d := Zpos (digits2_pos m)) in *.
  assert (Hd : d <= 53) by (unfold fexp64 in Hc; lia).
  repeat split.
  - unfold fexp64 in Hc. lia.
  - exact He.
  - assert (2 ^ d <= 2 ^ 53) by (apply Z.pow_le_mono_r; lia). lia.
  - intros Hn. assert (d = 53) by (unfold fexp64 in Hc; lia).
    replace (2 ^ 52) with (2 ^ (d - 1)) by (f_equal; lia). exact HL.
  - exact Hc.
Qed.

Lemma cut_ge (s m : Z) (ez ex : Z) :
  ez <= ex -> m * 2 ^ (ex - ez) <= s -> m <= cut s ez ex.
Proof.
  intros He HS. unfold cut.
  assert (Hp : 0 < 2 ^ (ex - ez)) by (apply Z.pow_pos_nonneg; lia).
  destruct (Z.leb_spec ex ez).
  - replace (ez - ex) with 0 by lia. replace (ex - ez) with 0 in HS by lia.
    rewrite Z.pow_0_r in *. lia.
  - apply Z.div_le_lower_bound; lia.
Qed.

Lemma cut_lt (s m : Z) (ez ex : Z) :
  ez <= ex -> s < m * 2 ^ (ex - ez) -> cut s ez ex < m.
Proof.
  intros He HS. unfold cut.
  assert (Hp : 0 < 2 ^ (ex - ez)) by (apply Z.pow_pos_nonneg; lia).
  destruct (Z.leb_spec ex ez).
  - replace (ez - ex) with 0 by lia. replace (ex - ez) with 0 in HS by lia.
    rewrite Z.pow_0_r in *. lia.
  - apply Z.div_lt_upper_bound; lia.
Qed.

(** The digits of [S] placed at [ez] against those of [m] placed at [ex]. *)
Lemma digits_scaled_le (Sp m : positive) (ez ex : Z) :
  ez <= ex -> Zpos m * 2 ^ (ex - ez) <= Zpos Sp ->
  Zpos (digits2_pos m) + ex <= Zpos (digits2_pos Sp) + ez.
Proof.
  intros He HS.
  assert (Hp : 0 < 2 ^ (ex - ez)) by (apply Z.pow_pos_nonneg; lia).
  destruct (Zpos m * 2 ^ (ex - ez)) as [| X |] eqn:EX; try lia.
  pose proof (digits_shift m (ex - ez) ltac:(lia) X (eq_sym EX) ) as HdX.
  pose proof (digits_mono X Sp ltac:(lia)). lia.
Qed.

Lemma digits_scaled_ge (Sp m : positive) (ez ex : Z) :
  ez <= ex -> Zpos Sp <= Zpos m * 2 ^ (ex - ez) ->
  Zpos (digits2_pos Sp) + ez <= Zpos (digits2_pos m) + ex.
Proof.
  intros He HS.
  assert (Hp : 0 < 2 ^ (ex - ez)) by (apply Z.pow_pos_nonneg; lia).
  destruct (Zpos m * 2 ^ (ex - ez)) as [| X |] eqn:EX; try lia.
  pose proof (digits_shift m (ex - ez) ltac:(lia) X (eq_sym EX) ) as HdX.
  pose proof (digits_mono Sp X ltac:(lia)). lia.
Qed.

Lemma SFltb_fin_pos (m1 m2 : positive) (e1 e2 : Z) :
  e2 < e1 \/ (e2 = e1 /\ Zpos m2 <= Zpos m1) ->
  SFltb (S754_finite false m1 e1) (S754_finite false m2 e2) = false.
Proof.
  intros H. unfold SFltb, SFcompare.
  change (Pos.compare_cont Eq m1 m2) with (Pos.compare m1 m2).
  destruct (Z.compare_spec e1 e2); try reflexivity; try lia.
  destruct (Pos.compare_spec m1 m2); try reflexivity; lia.
Qed.

Lemma SFltb_fin_neg (m1 m2 : positive) (e1 e2 : Z) :
  e1 < e2 \/ (e1 = e2 /\ Zpos m1 <= Zpos m2) ->
  SFltb (S754_finite true m1 e1) (S754_finite true m2 e2) = false.
Proof.
  intros H. unfold SFltb, SFcompare.
  change (Pos.compare_cont Eq m1 m2) with (Pos.compare m1 m2).
  destruct (Z.compare_spec e1 e2); try reflexivity; try lia.
  destruct (Pos.compare_spec m1 m2); try reflexivity; lia.
Qed.

(** Rounding a value that is not below a representable one does not go
    below it. *)
Lemma round_ge_pos (Sp mx : positive) (ez ex : Z) (r : spec_float) :
  bounded 53 1024 mx ex = true ->
  ez <= ex ->
  Zpos mx * 2 ^ (ex - ez) <= Zpos Sp ->
  rounded false Sp ez r ->
  SFltb r (S754_finite false mx ex) = false.
Proof.
  intros Hb He HS Hr.
  apply bounded_facts in Hb as (Hrange & Hmx & Hnormal & Hcanon).
  pose proof (digits_scaled_le Sp mx ez ex He HS) as Hd.
  pose proof (fexp64_mono _ _ Hd) as HE. rewrite Hcanon in HE.
  destruct Hr as [Hinf | m E' Hbm HE' Hsame Hnext]; [reflexivity |].
  apply SFltb_fin_pos.
  destruct (Z.eq_dec E' ex) as [-> | Hne]; [right | left; lia].
  split; [reflexivity |].
  assert (Heq : ex = fexp64 (Zpos (digits2_pos Sp) + ez)) by lia.
  specialize (Hsame Heq).
  pose proof (cut_ge (Zpos Sp) (Zpos mx) ez ex He HS). lia.
Qed.

(** Rounding a magnitude that is below a representable one does not go
    above it. *)
Lemma round_le_neg (Sp mx : positive) (ez ex : Z) (r : spec_float) :
  bounded 53 1024 mx ex = true ->
  -1074 <= ez <= ex ->
  Zpos Sp < Zpos mx * 2 ^ (ex - ez) ->
  rounded true Sp ez r ->
  SFltb r (S754_finite true mx ex) = false.
Proof.
  intros Hb He HS Hr.
  apply bounded_facts in Hb as (Hrange & Hmx & Hnormal & Hcanon).
  pose proof (digits_scaled_ge Sp mx ez ex ltac:(lia) ltac:(lia)) as Hd.
  pose proof (fexp64_mono _ _ Hd) as HE. rewrite Hcanon in HE.
  set (E := fexp64 (Zpos (digits2_pos Sp) + ez)) in *.
  assert (HEmin : -1074 <= E) by (unfold E, fexp64; lia).
  assert (Hcut : E = ex -> cut (Zpos Sp) ez E + 1 <= Zpos mx).
  { intros ->. pose proof (cut_lt (Zpos Sp) (Zpos mx) ez ex ltac:(lia) HS). lia. }
  destruct Hr as [Hinf | m E' Hbm HE' Hsame Hnext].
  - exfalso. fold E in Hinf. destruct Hinf as [Hbig | [H971 Hov]]; [lia |].
    assert (E = ex) by lia. specialize (Hcut H). lia.
  - fold E in HE', Hsame, Hnext. apply SFltb_fin_neg.
    destruct (Z.eq_dec E' E) as [-> | Hne].
    + destruct (Z.eq_dec E ex) as [Heq | Hne]; [right | left; lia].
      split; [exact Heq |]. specialize (Hsame eq_refl). specialize (Hcut Heq). lia.
    + assert (HE1 : E' = E + 1) by lia. destruct (Hnext HE1) as [Hm Hov].
      destruct (Z.eq_dec E ex) as [Heq | Hne'].
      * exfalso. specialize (Hcut Heq). lia.
      * destruct (Z.eq_dec E' ex) as [Heq' | Hne'']; [right | left; lia].
        split; [exact Heq' |]. rewrite Hm. apply Hnormal. lia.
Qed.

Lemma rounded_valid (sx : bool) (M : positive) (e : Z) (r : spec_float) :
  rounded sx M e r -> valid_binary 53 1024 r = true /\ r <> S754_nan.
Proof. intros [H | m E' Hb _ _ _]; split; try reflexivity; try discriminate. exact Hb. Qed.

Lemma SFltb_irrefl_fin (s : bool) (m : positive) (e : Z) :
  SFltb (S754_finite s m e) (S754_finite s m e) = false.
Proof.
  destruct s; [apply SFltb_fin_neg | apply SFltb_fin_pos]; right; split; lia.
Qed.

(** Adding a value that is not negative does not give less. *)
Lemma SFadd_nonneg (x y : spec_float) :
  valid_binary 53 1024 x = true -> valid_binary 53 1024 y = true -> nonneg y = true ->
  SFltb (SFadd 53 1024 x y) x = false
  /\ valid_binary 53 1024 (SFadd 53 1024 x y) = true
  /\ (x <> S754_nan -> SFadd 53 1024 x y <> S754_nan).
Proof.
  intros Hx Hy Hpos.
  destruct y as [sy | sy | | sy my ey]; try discriminate.
  - (* y is a zero *)
    destruct x as [sx | sx | | sx mx ex]; simpl.
    + destruct sx, sy; (split; [| split]); try reflexivity; discriminate.
    + (split; [| split]); try reflexivity; try discriminate. destruct sx; reflexivity.
    + (split; [| split]); try reflexivity. congruence.
    + split; [apply SFltb_irrefl_fin | split; [exact Hx | discriminate]].
  - destruct sy; [discriminate |].
    destruct x as [sx | sx | | sx mx ex].
    + simpl. split; [reflexivity | split; [exact Hy | discriminate]].
    + simpl. (split; [| split]); try reflexivity; try discriminate. destruct sx; reflexivity.
    + simpl. (split; [| split]); try reflexivity. congruence.
    + (* both finite *)
      simpl in Hx, Hy.
      pose proof (bounded_facts _ _ Hx) as (Hxr & _).
      pose proof (bounded_facts _ _ Hy) as (Hyr & _).
      unfold SFadd. set (ez := Z.min ex ey).
      pose proof (shl_align_val mx ex ez ltac:(lia)) as Ha.
      pose proof (shl_align_val my ey ez ltac:(lia)) as Hb.
      set (a := fst (shl_align mx ex ez)) in *. set (b := fst (shl_align my ey ez)) in *.
      assert (Hbpos : 0 < Zpos my * 2 ^ (ey - ez)).
      { assert (0 < 2 ^ (ey - ez)) by (apply Z.pow_pos_nonneg; lia). lia. }
      destruct sx; cbn [cond_Zopp]; try change (- Z.pos a) with (Z.neg a).
      * (* x negative *)
        destruct (Z.neg a + Zpos b) as [| Sp | Sp] eqn:ES; cbn [binary_normalize].
        -- split; [reflexivity | split; [reflexivity | discriminate]].
        -- destruct (rounded_valid _ _ _ _ (binary_round_rounded false Sp ez ltac:(lia)))
             as [Hv Hn].
           split; [| split; [exact Hv | intros _; exact Hn]].
           destruct (binary_round_rounded false Sp ez ltac:(lia)); reflexivity.
        -- destruct (rounded_valid _ _ _ _ (binary_round_rounded true Sp ez ltac:(lia)))
             as [Hv Hn].
           split; [| split; [exact Hv | intros _; exact Hn]].
           apply (round_le_neg Sp mx ez ex); [exact Hx | lia | lia |].
           apply binary_round_rounded. lia.
      * (* x positive *)
        destruct (Zpos a + Zpos b) as [| Sp | Sp] eqn:ES; try lia. cbn [binary_normalize].
        destruct (rounded_valid _ _ _ _ (binary_round_rounded false Sp ez ltac:(lia)))
          as [Hv Hn].
        split; [| split; [exact Hv | intros _; exact Hn]].
        apply (round_ge_pos Sp mx ez ex); [exact Hx | lia | lia |].
        apply binary_round_rounded. lia.
Qed.



End RoundingProperties.

(** ** Properties of the playback plan and of the session loop *)

Module PlaybackProperties.
Import DatasetReader Main Examples ReaderProperties.

(** *** The index sequence *)

Lemma stride_S (a step : Z) (n : nat) :
  stride a step (S n) = a :: stride (a + step) step n.
Proof.
  unfold stride. simpl. f_equal; [lia |].
  rewrite <- seq_shift, map_map. apply map_ext. intros k. lia.
Qed.

Lemma stride_lookup (a step : Z) (n k : nat) (x : Z) :
  stride a step n !! k = Some x <-> (k < n)%nat /\ x = a + step * Z.of_nat k.
Proof.
  revert a k. induction n as [| n IH]; intros a k.
  - unfold stride. simpl. split; [discriminate | lia].
  - rewrite stride_S. destruct k as [| k]; simpl.
    + split; [intros [= <-]; split; lia | intros [_ ->]; f_equal; lia].
    + rewrite IH. split; intros [Hk ->]; split; lia.
Qed.

Lemma plan_push_ids (r : ImageFolderReader) (speed : float) (p : plan) (i : Z) :
  idsToPlay (plan_push r speed p i) = idsToPlay p ++ [i].
Proof. reflexivity. Qed.

(** The ascending loop: enough fuel for the indices left gives the plan. *)
Lemma plan_loop_forward (r : ImageFolderReader) (speed : float) (b : bounds) :
  linc b = 1 ->
  forall (fuel : nat) (i : Z) (p : plan),
    0 <= i ->
    (Z.to_nat (Z.min (lend b) (getNumImages r) - i) <= fuel)%nat ->
    option_map idsToPlay (plan_loop fuel r speed b i p)
    = Some (idsToPlay p ++ stride i 1 (Z.to_nat (Z.min (lend b) (getNumImages r) - i))).
Proof.
  intros Hinc. induction fuel as [| fuel IH]; intros i p Hi Hfuel; simpl; rewrite Hinc.
  - destruct (Z.geb_spec i 0); [| lia].
    destruct (Z.ltb_spec i (getNumImages r)); simpl;
      [destruct (Z.ltb_spec (1 * i) (1 * lend b)); simpl; [lia |] |];
      (replace (Z.to_nat _) with 0%nat by lia; simpl; rewrite app_nil_r; reflexivity).
  - destruct (Z.geb_spec i 0); [| lia].
    destruct (Z.ltb_spec i (getNumImages r)); simpl;
      [destruct (Z.ltb_spec (1 * i) (1 * lend b)); simpl |].
    + rewrite IH by lia. rewrite plan_push_ids, <- app_assoc. simpl.
      replace (Z.to_nat (Z.min (lend b) (getNumImages r) - i))
        with (S (Z.to_nat (Z.min (lend b) (getNumImages r) - (i + 1)))) by lia.
      rewrite stride_S. reflexivity.
    + replace (Z.to_nat _) with 0%nat by lia; simpl; rewrite app_nil_r; reflexivity.
    + replace (Z.to_nat _) with 0%nat by lia; simpl; rewrite app_nil_r; reflexivity.
Qed.

(** The descending loop, started below the catalog size. *)
Lemma plan_loop_backward (r : ImageFolderReader) (speed : float) (b : bounds) :
  linc b = -1 ->
  forall (fuel : nat) (i : Z) (p : plan),
    i < getNumImages r ->
    (Z.to_nat (i - Z.max (lend b) (-1)) <= fuel)%nat ->
    option_map idsToPlay (plan_loop fuel r speed b i p)
    = Some (idsToPlay p ++ stride i (-1) (Z.to_nat (i - Z.max (lend b) (-1)))).
Proof.
  intros Hinc. induction fuel as [| fuel IH]; intros i p Hi Hfuel; simpl; rewrite Hinc.
  - destruct (Z.ltb_spec i (getNumImages r)); [| lia].
    destruct (Z.geb_spec i 0); simpl;
      [destruct (Z.ltb_spec (-1 * i) (-1 * lend b)); simpl; [lia |] |];
      (replace (Z.to_nat _) with 0%nat by lia; simpl; rewrite app_nil_r; reflexivity).
  - destruct (Z.ltb_spec i (getNumImages r)); [| lia].
    destruct (Z.geb_spec i 0); simpl;
      [destruct (Z.ltb_spec (-1 * i) (-1 * lend b)); simpl |].
    + rewrite IH by lia. rewrite plan_push_ids, <- app_assoc. simpl.
      replace (Z.to_nat (i - Z.max (lend b) (-1)))
        with (S (Z.to_nat (i + -1 - Z.max (lend b) (-1)))) by lia.
      rewrite stride_S. reflexivity.
    + replace (Z.to_nat _) with 0%nat by lia; simpl; rewrite app_nil_r; reflexivity.
    + replace (Z.to_nat _) with 0%nat by lia; simpl; rewrite app_nil_r; reflexivity.
Qed.

Lemma forward_ids (r : ImageFolderReader) (speed : float) (startIndex endIndex : Z) :
  option_map idsToPlay
    (build_plan r speed (playback_bounds false startIndex endIndex (getNumImages r)))
  = Some (if 0 <=? startIndex
          then stride startIndex 1 (Z.to_nat (Z.min endIndex (getNumImages r) - startIndex))
          else []).
Proof.
  unfold build_plan, playback_bounds. cbn [lstart].
  pose proof (size_nonneg (files r)) as HN. fold (getNumImages r) in HN.
  destruct (Z.leb_spec 0 startIndex) as [Hs | Hs].
  - rewrite plan_loop_forward; [reflexivity | reflexivity | exact Hs | cbn [lend]; lia].
  - destruct (Z.to_nat (getNumImages r)); simpl;
      destruct (Z.geb_spec startIndex 0); try lia; reflexivity.
Qed.

Lemma backward_ids (r : ImageFolderReader) (speed : float) (startIndex endIndex : Z) :
  option_map idsToPlay
    (build_plan r speed (playback_bounds true startIndex endIndex (getNumImages r)))
  = Some (stride (Z.min endIndex (getNumImages r) - 1) (-1)
            (Z.to_nat (Z.min endIndex (getNumImages r) - 1 - Z.max startIndex (-1)))).
Proof.
  unfold build_plan, playback_bounds.
  pose proof (size_nonneg (files r)) as HN. fold (getNumImages r) in HN.
  assert (Hl : (if endIndex - 1 >=? getNumImages r then getNumImages r - 1 else endIndex - 1)
               = Z.min endIndex (getNumImages r) - 1).
  { destruct (Z.geb_spec (endIndex - 1) (getNumImages r)); lia. }
  rewrite Hl. cbn [lstart].
  rewrite plan_loop_backward; [reflexivity | reflexivity | lia | cbn [lend]; lia].
Qed.

Lemma option_map_Some {A B : Type} (f : A -> B) (o : option A) (y : B) :
  option_map f o = Some y -> exists x, o = Some x /\ f x = y.
Proof. destruct o as [x |]; [intros [= <-]; eauto | discriminate]. Qed.

(** The fuel of [build_plan] is enough for the bounds [main] computes. *)
Lemma build_plan_total (r : ImageFolderReader) (speed : float) (reversed : bool)
    (startIndex endIndex : Z) :
  exists p, build_plan r speed (playback_bounds reversed startIndex endIndex (getNumImages r))
            = Some p.
Proof.
  destruct reversed.
  - destruct (option_map_Some _ _ _ (backward_ids r speed startIndex endIndex))
      as (p & Hp & _). eauto.
  - destruct (option_map_Some _ _ _ (forward_ids r speed startIndex endIndex))
      as (p & Hp & _). eauto.
Qed.

Lemma the_plan_built (cfg : config) (r : ImageFolderReader) :
  build_plan r (playbackSpeed cfg)
    (playback_bounds (reverse cfg) (startIndex cfg) (endIndex cfg) (getNumImages r))
  = Some (the_plan cfg r).
Proof.
  unfold the_plan.
  destruct (build_plan_total r (playbackSpeed cfg) (reverse cfg) (startIndex cfg) (endIndex cfg))
    as [p ->]. reflexivity.
Qed.

(** C7. Without reversal the ids played are [start, start+1, ...] up to
    [min(end, N) - 1] (none when [start] is negative). With reversal the
    loop starts at [min(end, N) - 1] with step -1 and bound [lend = start],
    and the ids are [min(end, N) - 1, min(end, N) - 2, ...] down to
    [start + 1] (down to 0 when [start] is negative): consecutive ids differ
    by the step and [start] itself is never played. Over 8 frames with
    start 0 and end 10 the reversed ids are 7, 6, ..., 1. *)
Theorem playback_index_sequence
    (r : ImageFolderReader) (speed : float) (startIndex endIndex : Z) :
  option_map idsToPlay
    (build_plan r speed (playback_bounds false startIndex endIndex (getNumImages r)))
  = Some (if 0 <=? startIndex
          then stride startIndex 1 (Z.to_nat (Z.min endIndex (getNumImages r) - startIndex))
          else [])
  /\ playback_bounds true startIndex endIndex (getNumImages r)
     = {| lstart := Z.min endIndex (getNumImages r) - 1; lend := startIndex; linc := -1 |}
  /\ option_map idsToPlay
       (build_plan r speed (playback_bounds true startIndex endIndex (getNumImages r)))
     = Some (stride (Z.min endIndex (getNumImages r) - 1) (-1)
               (Z.to_nat (Z.min endIndex (getNumImages r) - 1 - Z.max startIndex (-1))))
  /\ (forall (reversed : bool) (p : plan) (k : nat) (a b : Z),
      build_plan r speed (playback_bounds reversed startIndex endIndex (getNumImages r))
      = Some p ->
      idsToPlay p !! k = Some a -> idsToPlay p !! S k = Some b ->
      b = a + (if reversed then -1 else 1))
  /\ (forall p : plan,
      build_plan r speed (playback_bounds true startIndex endIndex (getNumImages r))
      = Some p ->
      forall i, In i (idsToPlay p) ->
                startIndex < i <= Z.min endIndex (getNumImages r) - 1)
  /\ getNumImages (folder 8 []) = 8
  /\ option_map idsToPlay
       (build_plan (folder 8 []) speed (playback_bounds true 0 10 (getNumImages (folder 8 []))))
     = Some [7; 6; 5; 4; 3; 2; 1].
Proof.
  pose proof (forward_ids r speed startIndex endIndex) as Hf.
  pose proof (backward_ids r speed startIndex endIndex) as Hb.
  split_and!.
  - exact Hf.
  - unfold playback_bounds. f_equal.
    destruct (Z.geb_spec (endIndex - 1) (getNumImages r)); lia.
  - exact Hb.
  - intros reversed p k a b Hp Ha Hb'. destruct reversed.
    + rewrite Hp in Hb. injection Hb as Hb. rewrite Hb in Ha, Hb'.
      apply stride_lookup in Ha as [_ ->]. apply stride_lookup in Hb' as [_ ->]. lia.
    + rewrite Hp in Hf. injection Hf as Hf. rewrite Hf in Ha, Hb'.
      destruct (0 <=? startIndex); [| discriminate].
      apply stride_lookup in Ha as [_ ->]. apply stride_lookup in Hb' as [_ ->]. lia.
  - intros p Hp i Hi. rewrite Hp in Hb. injection Hb as Hb. rewrite Hb in Hi.
    apply list_elem_of_In, list_elem_of_lookup in Hi as [k Hk].
    apply stride_lookup in Hk as [Hk ->]. lia.
  - reflexivity.
  - rewrite backward_ids. reflexivity.
Qed.

Lemma playback_index_sequence_witness :
  (forall i, In i [7; 6; 5; 4; 3; 2; 1] -> 0 < i <= Z.min 10 (getNumImages (folder 8 [])) - 1)
  /\ 6 = 7 + -1.
Proof.
  pose (speed := f32_of_int 0).
  destruct (playback_index_sequence (folder 8 []) speed 0 10) as (_ & _ & _ & H4 & H5 & _).
  split.
  - exact (H5 {| idsToPlay := [7; 6; 5; 4; 3; 2; 1];
                 timesToPlayAt := S754_zero false :: replicate 6 (S754_infinity false) |} eq_refl).
  - exact (H4 true {| idsToPlay := [7; 6; 5; 4; 3; 2; 1];
                      timesToPlayAt := S754_zero false :: replicate 6 (S754_infinity false) |}
              0%nat 7 6 eq_refl eq_refl eq_refl).
Defined.

(** *** The targets of the plan *)

Lemma plan_push_ok (r : ImageFolderReader) (speed : float) (p : plan) (i : Z) :
  plan_ok r speed p -> plan_ok r speed (plan_push r speed p i).
Proof.
  intros (Hlen & Hfirst & Hnext). unfold plan_push.
  destruct (Z.eqb_spec (size (timesToPlayAt p)) 0) as [Hz | Hnz].
  - apply size_zero_nil in Hz. rewrite Hz in *.
    destruct (idsToPlay p) as [| ? ?] eqn:Eids; [| discriminate].
    unfold plan_ok. cbn [idsToPlay timesToPlayAt]. simpl. split_and!.
    + reflexivity.
    + intros t [= <-]. reflexivity.
    + intros k i0 j t _ Hj. destruct k; discriminate.
  - set (n := length (idsToPlay p)) in *.
    assert (Hn : (0 < n)%nat).
    { unfold size in Hnz. lia. }
    destruct (idsToPlay p !! (n - 1)%nat) as [i0 |] eqn:Ei0;
      [| apply lookup_ge_None in Ei0; fold n in Ei0; lia].
    destruct (timesToPlayAt p !! (n - 1)%nat) as [t0 |] eqn:Et0;
      [| apply lookup_ge_None in Et0; lia].
    assert (Hthis : at_ 0 (idsToPlay p ++ [i]) (size (idsToPlay p ++ [i]) - 1) = i).
    { unfold at_, size. rewrite length_app. simpl. fold n.
      replace (Z.to_nat (Z.of_nat (n + 1) - 1)) with (n + 0)%nat by lia.
      unfold n. rewrite lookup_app_r by lia.
      replace (length (idsToPlay p) + 0 - length (idsToPlay p))%nat with 0%nat by lia.
      reflexivity. }
    assert (Hprev : at_ 0 (idsToPlay p ++ [i]) (size (idsToPlay p ++ [i]) - 2) = i0).
    { unfold at_, size. rewrite length_app. simpl. fold n.
      replace (Z.to_nat (Z.of_nat (n + 1) - 2)) with (n - 1)%nat by lia.
      rewrite lookup_app_l by (fold n; lia). rewrite Ei0. reflexivity. }
    assert (Hback : default pzero (last (timesToPlayAt p)) = t0).
    { rewrite last_lookup. rewrite Hlen. fold n.
      replace (Nat.pred n) with (n - 1)%nat by lia. rewrite Et0. reflexivity. }
    rewrite Hthis, Hprev, Hback.
    unfold plan_ok. cbn [idsToPlay timesToPlayAt]. split_and!.
    + rewrite !length_app. simpl. lia.
    + intros t Ht. apply Hfirst. rewrite lookup_app_l in Ht by lia. exact Ht.
    + intros k a b t Ha Hb Ht.
      destruct (decide (S k < n)%nat) as [Hlt | Hge].
      * rewrite lookup_app_l in Ha by (fold n; lia).
        rewrite lookup_app_l in Hb by (fold n; lia).
        rewrite lookup_app_l in Ht by lia.
        rewrite lookup_app_l by lia. eapply Hnext; eassumption.
      * pose proof (lookup_lt_Some _ _ _ Hb) as Hk. rewrite length_app in Hk. simpl in Hk.
        fold n in Hk. assert (Hkn : k = (n - 1)%nat) by lia. subst k.
        rewrite lookup_app_l in Ha by (fold n; lia).
        rewrite lookup_app_l in Ht by lia.
        replace (S (n - 1)) with (n + 0)%nat in * by lia.
        unfold n in Hb. rewrite lookup_app_r in Hb by lia.
        replace (length (idsToPlay p) + 0 - length (idsToPlay p))%nat with 0%nat in Hb by lia.
        rewrite <- Hlen. rewrite lookup_app_r by lia.
        replace (length (timesToPlayAt p) + 0 - length (timesToPlayAt p))%nat
          with 0%nat by lia.
        simpl in Hb. injection Hb as <-.
        rewrite Ei0 in Ha. injection Ha as <-. rewrite Et0 in Ht. injection Ht as <-.
        reflexivity.
Qed.

Lemma plan_loop_ok (r : ImageFolderReader) (speed : float) (b : bounds) :
  forall (fuel : nat) (i : Z) (p p' : plan),
    plan_ok r speed p -> plan_loop fuel r speed b i p = Some p' -> plan_ok r speed p'.
Proof.
  induction fuel as [| fuel IH]; intros i p p' Hp; simpl;
    destruct ((i >=? 0) && (i <? getNumImages r) && (linc b * i <? linc b * lend b)).
  - discriminate.
  - intros [= <-]. exact Hp.
  - apply IH. apply plan_push_ok. exact Hp.
  - intros [= <-]. exact Hp.
Qed.

Lemma build_plan_ok (r : ImageFolderReader) (speed : float) (b : bounds) (p : plan) :
  build_plan r speed b = Some p -> plan_ok r speed p.
Proof.
  apply plan_loop_ok. unfold plan_ok. simpl. split_and!; [reflexivity | discriminate |].
  intros k i j t Hi. destruct k; discriminate.
Qed.

(** *** The pacing decision *)







Lemma pace_unpaced (speed : float) (ii : Z) (target since : double) :
  f32_eqb speed (f32_of_int 0) = true -> pace speed ii target since = Feed.
Proof. intros Hs. unfold pace. rewrite Hs. reflexivity. Qed.

Section Session.

Variable new_FullSystem : FullSystem.
Variable addActiveFrame : FullSystem -> ImageAndExposure -> Z -> FullSystem.
Variable cfg : config.

Local Abbreviation handle_reset := (handle_reset new_FullSystem cfg).
Local Abbreviation after_frame := (after_frame new_FullSystem cfg).
Local Abbreviation iteration := (iteration new_FullSystem addActiveFrame cfg).
Local Abbreviation playback := (playback new_FullSystem addActiveFrame cfg).
Local Abbreviation runthread := (runthread new_FullSystem addActiveFrame cfg).
Local Abbreviation fresh_engine := (fresh_engine new_FullSystem cfg).
Local Abbreviation initial_engine := (initial_engine new_FullSystem cfg).
Local Abbreviation feed_frame := (feed_frame addActiveFrame).
Local Abbreviation fetch_image := (fetch_image cfg).
Local Abbreviation pacing_of := (pacing_of cfg).
Local Abbreviation finalize := (finalize cfg).
Local Abbreviation paced := (paced addActiveFrame cfg).

(** *** Frames fed by one iteration *)

Lemma fed_app (a b : list event) : fed (a ++ b) = fed a ++ fed b.
Proof. unfold fed. apply omap_app. Qed.

Lemma fed_pauses (n : nat) : fed (replicate n (Usleep (Some 5000))) = [].
Proof. induction n as [| n IH]; [reflexivity | exact IH]. Qed.

Lemma fed_wrapper_resets (wraps : list ptr) : fed (map WrapperReset wraps) = [].
Proof. induction wraps as [| w wraps IH]; [reflexivity | exact IH]. Qed.

Lemma handle_reset_fed (ii : Z) (st : session) :
  fed (events (handle_reset ii st)) = fed (events st).
Proof.
  unfold Main.handle_reset.
  destruct (initFailed (fullSystem st) || setting_fullResetRequested st); [| reflexivity].
  destruct ((ii <? 250) || setting_fullResetRequested st); [| reflexivity].
  simpl. unfold reset_events. rewrite !fed_app, fed_wrapper_resets. simpl.
  rewrite app_nil_r. reflexivity.
Qed.

Lemma after_frame_fed (ii : Z) (st : session) :
  fed (events (snd (after_frame ii st))) = fed (events st).
Proof.
  unfold Main.after_frame.
  destruct (isLost (fullSystem (handle_reset ii st))); simpl; apply handle_reset_fed.
Qed.

Lemma feed_frame_fed (pc : pacing) (ii i : Z) (img : ImageAndExposure) (st : session) :
  fed (events (feed_frame pc ii i img st))
  = fed (events st) ++ (if skipFrame pc then [] else [i]).
Proof.
  unfold Main.feed_frame. destruct pc; simpl; rewrite ?fed_app; simpl;
    rewrite ?app_nil_r; reflexivity.
Qed.

Lemma fetch_image_events (imgs : list ImageAndExposure) (ii i : Z) (st : session) :
  events (snd (fetch_image imgs ii i st)) = events st.
Proof.
  unfold Main.fetch_image. destruct (preload cfg); [reflexivity |].
  destruct (getImage (reader st) i). reflexivity.
Qed.

Lemma anchor_start_events (target : double) (e : env) (st : session) :
  events (anchor_start target e st) = events st.
Proof. unfold anchor_start. destruct (negb _); reflexivity. Qed.

(** With the image at hand, an iteration feeds the frame unless the
    pacing decision is to skip it, and feeds nothing else. *)
Lemma iteration_fed (imgs : list ImageAndExposure) (ii i : Z) (target : double)
    (e : env) (st st1 : session) (img : ImageAndExposure) :
  fetch_image imgs ii i (anchor_start target e (wait_while_paused e st)) = (Ok img, st1) ->
  fed (events (snd (iteration imgs ii i target e st)))
  = fed (events st) ++ (if skipFrame (pacing_of ii target e st1) then [] else [i]).
Proof.
  intros Hfetch. unfold Main.iteration. rewrite Hfetch.
  pose proof (fetch_image_events imgs ii i (anchor_start target e (wait_while_paused e st)))
    as Hev.
  rewrite Hfetch in Hev. simpl in Hev.
  rewrite anchor_start_events in Hev. unfold wait_while_paused in Hev. simpl in Hev.
  assert (Hfed1 : fed (events st1) = fed (events st)).
  { rewrite Hev, fed_app, fed_pauses, app_nil_r. reflexivity. }
  destruct (bool_decide (is_Some (viewer cfg)) && viewer_isDead e); simpl.
  - rewrite feed_frame_fed, Hfed1. reflexivity.
  - rewrite after_frame_fed. simpl. rewrite feed_frame_fed, Hfed1. reflexivity.
Qed.

(** Fetching the image changes nothing of the session but the reader. *)
Lemma fetch_image_session (imgs : list ImageAndExposure) (ii i : Z) (st st1 : session)
    (o : outcome ImageAndExposure) :
  fetch_image imgs ii i st = (o, st1) -> st1 = set_reader st (reader st1).
Proof.
  unfold Main.fetch_image. destruct (preload cfg).
  - intros [= _ <-]. destruct st; reflexivity.
  - destruct (getImage (reader st) i) as [o' r']. intros [= _ <-]. reflexivity.
Qed.

(** The session of an iteration when the frame has been paced and handed
    over or skipped. *)
Lemma feed_frame_paced (imgs : list ImageAndExposure) (ii i : Z) (target : double)
    (e : env) (st st1 : session) (img : ImageAndExposure) :
  fetch_image imgs ii i (anchor_start target e (wait_while_paused e st)) = (Ok img, st1) ->
  feed_frame (pacing_of ii target e st1) ii i img st1
  = paced ii i target e st (reader st1) img.
Proof.
  intros Hfetch. apply fetch_image_session in Hfetch. rewrite Hfetch.
  unfold Main.feed_frame, Main.pacing_of, Examples.paced, elapsed, anchor_of, anchor_start,
    wait_while_paused.
  destruct (initialized (fullSystem st)) eqn:Hinit;
    unfold log, set_fullSystem, set_reader, set_start; simpl; rewrite ?Hinit; simpl;
    match goal with
    | |- context [pace ?a ?b ?c ?d] => destruct (pace a b c d)
    end; simpl; rewrite <- ?app_assoc; reflexivity.
Qed.

(** An iteration that gets its image: the frame is paced and handed over
    or skipped, the loop is left if the display is dead, and otherwise the
    reset request of the display is taken in and the reset and the loss are
    checked. *)
Lemma iteration_Ok (imgs : list ImageAndExposure) (ii i : Z) (target : double)
    (e : env) (st st1 : session) (img : ImageAndExposure) :
  fetch_image imgs ii i (anchor_start target e (wait_while_paused e st)) = (Ok img, st1) ->
  iteration imgs ii i target e st
  = if bool_decide (is_Some (viewer cfg)) && viewer_isDead e
    then (LoopExit, paced ii i target e st (reader st1) img)
    else after_frame ii
           (set_fullResetRequested (paced ii i target e st (reader st1) img)
              (setting_fullResetRequested st || reset_requested e)).
Proof.
  intros Hfetch. unfold Main.iteration. rewrite Hfetch.
  rewrite (feed_frame_paced imgs ii i target e st st1 img Hfetch). reflexivity.
Qed.

Lemma handle_reset_anchor (ii : Z) (st : session) :
  tv_start (handle_reset ii st) = tv_start st
  /\ sInitializerOffset (handle_reset ii st) = sInitializerOffset st
  /\ reader (handle_reset ii st) = reader st.
Proof.
  unfold Main.handle_reset.
  destruct (initFailed (fullSystem st) || setting_fullResetRequested st);
    [| split_and!; reflexivity].
  destruct ((ii <? 250) || setting_fullResetRequested st); split_and!; reflexivity.
Qed.




End Session.


(** *** Reset, loss and finalization *)

Section Control.

Variable new_FullSystem : FullSystem.
Variable addActiveFrame : FullSystem -> ImageAndExposure -> Z -> FullSystem.
Variable cfg : config.

Local Abbreviation handle_reset := (handle_reset new_FullSystem cfg).
Local Abbreviation after_frame := (after_frame new_FullSystem cfg).
Local Abbreviation iteration := (iteration new_FullSystem addActiveFrame cfg).
Local Abbreviation playback := (playback new_FullSystem addActiveFrame cfg).
Local Abbreviation runthread := (runthread new_FullSystem addActiveFrame cfg).
Local Abbreviation fresh_engine := (fresh_engine new_FullSystem cfg).
Local Abbreviation initial_engine := (initial_engine new_FullSystem cfg).
Local Abbreviation initial_session := (initial_session new_FullSystem cfg).
Local Abbreviation finalize := (finalize cfg).
Local Abbreviation the_plan := (the_plan cfg).
Local Abbreviation fetch_image := (fetch_image cfg).
Local Abbreviation paced := (paced addActiveFrame cfg).
Local Abbreviation rebuilt := (rebuilt new_FullSystem cfg).

Lemma handle_reset_honoured (ii : Z) (st : session) :
  initFailed (fullSystem st) || setting_fullResetRequested st = true ->
  (ii <? 250) || setting_fullResetRequested st = true ->
  handle_reset ii st
  = {| fullSystem := set_outputWrapper (fresh_engine (reader st))
                                       (outputWrapper (fullSystem st));
       reader := reader st; tv_start := tv_start st;
       sInitializerOffset := sInitializerOffset st;
       setting_fullResetRequested := false;
       events := events st ++ reset_events (outputWrapper (fullSystem st)) |}.
Proof. intros H1 H2. unfold Main.handle_reset. rewrite H1, H2. reflexivity. Qed.

Lemma handle_reset_declined (ii : Z) (st : session) :
  (ii <? 250) || setting_fullResetRequested st = false -> handle_reset ii st = st.
Proof.
  intros H. unfold Main.handle_reset. rewrite H.
  destruct (initFailed (fullSystem st) || setting_fullResetRequested st); reflexivity.
Qed.

Lemma getImage_keeps_gamma (r : ImageFolderReader) (i : Z) :
  getPhotometricGamma (snd (getImage r i)) = getPhotometricGamma r.
Proof.
  unfold getImage, getImage_internal, getPhotometricGamma.
  destruct (use16Bit r), (useColour r); simpl; try reflexivity.
  apply (getImageRaw_keeps_series r i).
Qed.

Lemma initial_engine_settings (r : ImageFolderReader) :
  gammaFunction (initial_engine r) = getPhotometricGamma r
  /\ linearizeOperation (initial_engine r) = f32_eqb (playbackSpeed cfg) (f32_of_int 0).
Proof.
  unfold Main.initial_engine, push_back_opt.
  destruct (useSampleOutput cfg), (viewer cfg); split; reflexivity.
Qed.

Lemma iteration_keeps_gamma (imgs : list ImageAndExposure) (ii i : Z) (target : double)
    (e : env) (st : session) :
  getPhotometricGamma (reader (snd (iteration imgs ii i target e st)))
  = getPhotometricGamma (reader st).
Proof.
  destruct (fetch_image imgs ii i (anchor_start target e (wait_while_paused e st)))
    as [o st1] eqn:Hfetch.
  assert (Hg : getPhotometricGamma (reader st1) = getPhotometricGamma (reader st)).
  { revert Hfetch. unfold Main.fetch_image, anchor_start, wait_while_paused.
    destruct (preload cfg).
    - intros [= _ <-]. destruct (negb _); reflexivity.
    - destruct (negb _); cbn [reader set_start log];
        destruct (getImage (reader st) i) as [o' r'] eqn:Hget; intros [= _ <-];
        cbn [reader set_reader];
        change r' with (snd (o', r')); rewrite <- Hget; apply getImage_keeps_gamma. }
  destruct o as [img | code |].
  - rewrite (iteration_Ok new_FullSystem addActiveFrame cfg imgs ii i target e st st1 img Hfetch).
    destruct (bool_decide (is_Some (viewer cfg)) && viewer_isDead e); [exact Hg |].
    unfold Main.after_frame.
    match goal with
    | |- context [Main.handle_reset ?a ?b ?c ?d] =>
        pose proof (proj2 (proj2 (handle_reset_anchor new_FullSystem cfg c d))) as Hr;
        destruct (isLost (fullSystem (Main.handle_reset a b c d)))
    end; cbn [snd]; rewrite Hr; exact Hg.
  - unfold Main.iteration. rewrite Hfetch. exact Hg.
  - unfold Main.iteration. rewrite Hfetch. exact Hg.
Qed.

(** The reader keeps its gamma function all along the playback loop. *)
Lemma playback_keeps_gamma (p : plan) (imgs : list ImageAndExposure) (envs : Z -> env)
    (n : nat) :
  forall (ii : Z) (st : session),
    getPhotometricGamma (reader (snd (playback p imgs envs n ii st)))
    = getPhotometricGamma (reader st).
Proof.
  induction n as [| n IH]; intros ii st; [reflexivity |].
  cbn [Main.playback].
  destruct (vec_at (idsToPlay p) ii) as [i | |]; try reflexivity.
  destruct (vec_at (timesToPlayAt p) ii) as [target | |]; try reflexivity.
  pose proof (iteration_keeps_gamma imgs ii i target (envs ii) st) as Hit.
  destruct (iteration imgs ii i target (envs ii) st) as [[] st1]; cbn [snd] in *;
    try exact Hit.
  rewrite IH. exact Hit.
Qed.

(** C3, as stated, fails. The display is checked before the reset: in
    an iteration in which the display is closed the loop is left at line
    337, and an engine that reports [initFailed] at position 0, below 250, is
    not reset. The run goes on to the finalization with that engine. *)
Lemma reset_counterexample :
  initFailed (fullSystem (snd (Main.runthread engine0 (fails_at 0) cfg0 three_frames tv0
                                 (closed_at 0)))) = true
  /\ 0 < 250
  /\ events (snd (Main.runthread engine0 (fails_at 0) cfg0 three_frames tv0 (closed_at 0)))
     = [AddActiveFrame 0;
        BlockUntilMappingIsFinished; PrintResult; PrintStatistics; WriteTimeLog].
Proof. vm_compute. split_and!; reflexivity. Qed.

(** C3, amended. The reset check of position [ii] is reached only when
    the display was not closed during the iteration: otherwise the loop is
    left before it and nothing is reset. At the check, when the engine
    reports [initFailed] or a full reset is requested, the reset is
    performed exactly when [ii < 250] or the reset is requested. A performed
    reset tells every output wrapper to reset, waits, deletes the engine and
    builds a new one, which gets the gamma function of the reader and the
    linearized flag of the playback speed, as the first engine did (the
    reader keeps its gamma function all along the loop), and the very list
    of output wrappers of the old engine; it clears the request and leaves
    the reader, the start time and the offset as they are. The loop then
    goes on with position [ii + 1] (the new engine not being lost). When
    the reset is not performed the session, engine included, is left as it
    is. *)
Theorem reset_policy (ii : Z) (st : session) :
  initFailed (fullSystem st) || setting_fullResetRequested st = true ->
  (events (handle_reset ii st)
   = events st ++ reset_events (outputWrapper (fullSystem st))
   <-> ii < 250 \/ setting_fullResetRequested st = true)
  /\ (ii < 250 \/ setting_fullResetRequested st = true ->
      fullSystem (handle_reset ii st)
      = set_outputWrapper (fresh_engine (reader st)) (outputWrapper (fullSystem st))
      /\ fullSystem (handle_reset ii st)
         = rebuilt (reader st) (outputWrapper (fullSystem st))
      /\ gammaFunction (fullSystem (handle_reset ii st)) = getPhotometricGamma (reader st)
      /\ linearizeOperation (fullSystem (handle_reset ii st))
         = f32_eqb (playbackSpeed cfg) (f32_of_int 0)
      /\ outputWrapper (fullSystem (handle_reset ii st)) = outputWrapper (fullSystem st)
      /\ setting_fullResetRequested (handle_reset ii st) = false
      /\ reader (handle_reset ii st) = reader st
      /\ tv_start (handle_reset ii st) = tv_start st
      /\ sInitializerOffset (handle_reset ii st) = sInitializerOffset st
      /\ (isLost new_FullSystem = false ->
          after_frame ii st = (Next, handle_reset ii st)
          /\ forall (p : plan) (imgs : list ImageAndExposure) (envs : Z -> env) (n : nat)
                    (st0 : session) (i : Z) (target : double),
              vec_at (idsToPlay p) ii = Ok i ->
              vec_at (timesToPlayAt p) ii = Ok target ->
              iteration imgs ii i target (envs ii) st0 = after_frame ii st ->
              playback p imgs envs (S n) ii st0
              = playback p imgs envs n (ii + 1) (handle_reset ii st)))
  /\ (~ (ii < 250 \/ setting_fullResetRequested st = true) -> handle_reset ii st = st)
  /\ (forall (r : ImageFolderReader) (i : Z),
      getPhotometricGamma (snd (getImage r i)) = getPhotometricGamma r)
  /\ (forall r : ImageFolderReader,
      gammaFunction (initial_engine r) = getPhotometricGamma r
      /\ linearizeOperation (initial_engine r) = f32_eqb (playbackSpeed cfg) (f32_of_int 0))
  /\ (forall (p : plan) (imgs : list ImageAndExposure) (envs : Z -> env) (n : nat)
             (r : ImageFolderReader) (tv : timeval),
      getPhotometricGamma
        (reader (snd (playback p imgs envs n 0 (initial_session r tv))))
      = gammaFunction (initial_engine r))
  /\ (forall (imgs : list ImageAndExposure) (i : Z) (target : double) (e : env)
             (st0 st1 : session) (img : ImageAndExposure),
      fetch_image imgs ii i (anchor_start target e (wait_while_paused e st0)) = (Ok img, st1) ->
      (bool_decide (is_Some (viewer cfg)) && viewer_isDead e = true ->
       iteration imgs ii i target e st0 = (LoopExit, paced ii i target e st0 (reader st1) img))
      /\ (bool_decide (is_Some (viewer cfg)) && viewer_isDead e = false ->
          iteration imgs ii i target e st0
          = after_frame ii
              (set_fullResetRequested (paced ii i target e st0 (reader st1) img)
                 (setting_fullResetRequested st0 || reset_requested e))
          /\ snd (iteration imgs ii i target e st0)
             = handle_reset ii
                 (set_fullResetRequested (paced ii i target e st0 (reader st1) img)
                    (setting_fullResetRequested st0 || reset_requested e)))).
Proof.
  intros Hcond.
  assert (Hdec : (ii <? 250) || setting_fullResetRequested st = true
                 <-> ii < 250 \/ setting_fullResetRequested st = true).
  { rewrite orb_true_iff, Z.ltb_lt. reflexivity. }
  split_and!.
  - split.
    + intros Hev. destruct ((ii <? 250) || setting_fullResetRequested st) eqn:E.
      * apply Hdec. reflexivity.
      * rewrite (handle_reset_declined ii st E) in Hev.
        apply (f_equal length) in Hev. unfold reset_events in Hev.
        rewrite !length_app in Hev. simpl in Hev. lia.
    + intros H. apply Hdec in H. rewrite (handle_reset_honoured ii st Hcond H). reflexivity.
  - intros H. apply Hdec in H. rewrite (handle_reset_honoured ii st Hcond H).
    cbn [fullSystem setting_fullResetRequested reader tv_start sInitializerOffset].
    split_and!; try reflexivity.
    intros Hfresh.
    assert (Hafter : after_frame ii st = (Next, handle_reset ii st)).
    { unfold Main.after_frame. rewrite (handle_reset_honoured ii st Hcond H).
      cbn [fullSystem set_outputWrapper isLost Main.fresh_engine
           set_linearizeOperation setGammaFunction].
      rewrite Hfresh. reflexivity. }
    split; [rewrite Hafter, (handle_reset_honoured ii st Hcond H); reflexivity |].
    intros p imgs envs n st0 i target Hi Ht Hit. cbn [Main.playback].
    rewrite Hi, Ht, Hit, Hafter, (handle_reset_honoured ii st Hcond H). reflexivity.
  - intros H. apply handle_reset_declined.
    destruct ((ii <? 250) || setting_fullResetRequested st) eqn:E; [| reflexivity].
    exfalso. apply H, Hdec. reflexivity.
  - apply getImage_keeps_gamma.
  - apply initial_engine_settings.
  - intros p imgs envs n r tv. rewrite playback_keeps_gamma.
    symmetry. apply initial_engine_settings.
  - intros imgs i target e st0 st1 img Hfetch.
    rewrite (iteration_Ok new_FullSystem addActiveFrame cfg imgs ii i target e st0 st1 img
               Hfetch).
    split.
    + intros ->. reflexivity.
    + intros ->. split; [reflexivity |]. unfold Main.after_frame.
      destruct (isLost _); reflexivity.
Qed.

(** *** Tracking loss *)

Lemma log_log (st : session) (a b : list event) : log (log st a) b = log st (a ++ b).
Proof. unfold log. simpl. rewrite app_assoc. reflexivity. Qed.

Lemma playback_split (p : plan) (imgs : list ImageAndExposure) (envs : Z -> env)
    (k m : nat) :
  forall (ii : Z) (st : session),
    playback p imgs envs (k + m) ii st
    = match playback p imgs envs k ii st with
      | (Next, st_k) => playback p imgs envs m (ii + Z.of_nat k) st_k
      | stop => stop
      end.
Proof.
  induction k as [| k IH]; intros ii st.
  - simpl. rewrite Z.add_0_r. reflexivity.
  - cbn [Nat.add Main.playback].
    destruct (vec_at (idsToPlay p) ii); try reflexivity.
    destruct (vec_at (timesToPlayAt p) ii); try reflexivity.
    destruct (iteration imgs ii a a0 (envs ii) st) as [[] st1]; try reflexivity.
    rewrite IH. replace (ii + 1 + Z.of_nat k) with (ii + Z.of_nat (S k)) by lia.
    reflexivity.
Qed.

(** An iteration that lets the loop go on leaves an engine that is not
    lost. *)
Lemma iteration_next_not_lost (imgs : list ImageAndExposure) (ii i : Z) (target : double)
    (e : env) (st st' : session) :
  iteration imgs ii i target e st = (Next, st') -> isLost (fullSystem st') = false.
Proof.
  unfold Main.iteration.
  destruct (Main.fetch_image cfg imgs ii i _) as [[img | code |] st1]; try discriminate.
  destruct (bool_decide (is_Some (viewer cfg)) && viewer_isDead e); [discriminate |].
  unfold Main.after_frame.
  destruct (isLost (fullSystem (handle_reset ii _))) eqn:E; [discriminate |].
  intros [= <-]. exact E.
Qed.

Lemma finalize_events (p : plan) (st : session) :
  idsToPlay p <> [] ->
  finalize p st = (Returned, log st (finalization_events (setting_logStuff cfg))).
Proof.
  intros Hne. unfold Main.finalize. destruct (idsToPlay p); [contradiction |].
  rewrite log_log. reflexivity.
Qed.

(** C8, as stated, fails. The loss is read after the reset handling, on
    the engine then current. Here the engine reports the loss when it is
    given frame 1 and the display asks for a full reset during the same
    iteration: the lost engine is replaced before line 363 reads [isLost],
    the loop goes on and frame 2 is fed. *)
Lemma loss_counterexample :
  (forall (fs : FullSystem) (img : ImageAndExposure), isLost (lost_at 1 fs img 1) = true)
  /\ events (snd (Main.runthread engine0 (lost_at 1) cfg0 three_frames tv0 (reset_at 1)))
     = [AddActiveFrame 0; AddActiveFrame 1;
        WrapperReset 1%nat; Usleep (Some 20000); DeleteFullSystem; NewFullSystem;
        AddActiveFrame 2;
        BlockUntilMappingIsFinished; PrintResult; PrintStatistics; WriteTimeLog]
  /\ fed (events (snd (Main.runthread engine0 (lost_at 1) cfg0 three_frames tv0 (reset_at 1))))
     = [0; 1; 2].
Proof.
  split_and!.
  - intros fs img. unfold lost_at. cbn [isLost]. apply orb_true_r.
  - vm_compute. reflexivity.
  - vm_compute. reflexivity.
Qed.

(** C8, amended. If, after [k] iterations, iteration [k] gets its image
    and ends with an engine that reports [isLost], then the loop is left at
    that iteration, and the thread goes on to block until the mapping is
    finished, print the result and print the statistics (and write the time
    log when logging is on): the events of the whole run are those up to
    the end of that iteration followed by the finalization, and no frame is
    fed after the loss. The engine read is the one current after the reset
    handling. When the engine that was given the frame reports the loss,
    the loop is left in that iteration if the display is closed or no reset
    is performed; when a reset is performed the lost engine is replaced
    before the check, and the loop goes on with the next position unless the
    new engine is lost as built. *)
Theorem loss_ends_playback
    (r r1 : ImageFolderReader) (tv : timeval) (envs : Z -> env)
    (imgs : list ImageAndExposure) (k : nat) (st_k st' : session)
    (i : Z) (target : double) (fl : flow) :
  (if preload cfg then preload_images r (idsToPlay (the_plan r)) else (Ok [], r))
  = (Ok imgs, r1) ->
  playback (the_plan r) imgs envs k 0 (initial_session r1 tv) = (Next, st_k) ->
  vec_at (idsToPlay (the_plan r)) (Z.of_nat k) = Ok i ->
  vec_at (timesToPlayAt (the_plan r)) (Z.of_nat k) = Ok target ->
  iteration imgs (Z.of_nat k) i target (envs (Z.of_nat k)) st_k = (fl, st') ->
  fl = Next \/ fl = LoopExit ->
  isLost (fullSystem st') = true ->
  fl = LoopExit
  /\ runthread r tv envs
     = (Returned, log st' (finalization_events (setting_logStuff cfg)))
  /\ events (snd (runthread r tv envs))
     = events st' ++ finalization_events (setting_logStuff cfg)
  /\ fed (events (snd (runthread r tv envs))) = fed (events st')
  /\ (forall (st1 : session) (img : ImageAndExposure),
      fetch_image imgs (Z.of_nat k) i
        (anchor_start target (envs (Z.of_nat k)) (wait_while_paused (envs (Z.of_nat k)) st_k))
      = (Ok img, st1) ->
      bool_decide (is_Some (viewer cfg)) && viewer_isDead (envs (Z.of_nat k)) = false ->
      st' = handle_reset (Z.of_nat k)
              (set_fullResetRequested
                 (paced (Z.of_nat k) i target (envs (Z.of_nat k)) st_k (reader st1) img)
                 (setting_fullResetRequested st_k || reset_requested (envs (Z.of_nat k)))))
  /\ (forall (imgs0 : list ImageAndExposure) (ii j : Z) (t : double) (e : env)
             (st st1 : session) (img : ImageAndExposure),
      fetch_image imgs0 ii j (anchor_start t e (wait_while_paused e st)) = (Ok img, st1) ->
      isLost (fullSystem (paced ii j t e st (reader st1) img)) = true ->
      let fs1 := fullSystem (paced ii j t e st (reader st1) img) in
      let req := setting_fullResetRequested st || reset_requested e in
      (bool_decide (is_Some (viewer cfg)) && viewer_isDead e = true ->
       iteration imgs0 ii j t e st = (LoopExit, paced ii j t e st (reader st1) img))
      /\ (bool_decide (is_Some (viewer cfg)) && viewer_isDead e = false ->
          (initFailed fs1 || req) && ((ii <? 250) || req) = false ->
          iteration imgs0 ii j t e st
          = (LoopExit, set_fullResetRequested (paced ii j t e st (reader st1) img) req))
      /\ (bool_decide (is_Some (viewer cfg)) && viewer_isDead e = false ->
          (initFailed fs1 || req) && ((ii <? 250) || req) = true ->
          fst (iteration imgs0 ii j t e st)
          = (if isLost new_FullSystem then LoopExit else Next)
          /\ fullSystem (snd (iteration imgs0 ii j t e st))
             = rebuilt (reader st1) (outputWrapper fs1)
          /\ events (snd (iteration imgs0 ii j t e st))
             = events (paced ii j t e st (reader st1) img)
               ++ reset_events (outputWrapper fs1))).
Proof.
  intros Hpre Hk Hi Ht Hit Hfl Hlost.
  assert (Hexit : fl = LoopExit).
  { destruct Hfl as [-> | ->]; [| reflexivity].
    rewrite (iteration_next_not_lost _ _ _ _ _ _ _ Hit) in Hlost. discriminate. }
  subst fl.
  assert (Hrun : runthread r tv envs
                 = (Returned, log st' (finalization_events (setting_logStuff cfg)))).
  { unfold Main.runthread. rewrite Hpre.
    pose proof Hi as Hi0.
    apply vec_at_Ok in Hi as [_ Hi]. rewrite Nat2Z.id in Hi.
    pose proof (lookup_lt_Some _ _ _ Hi) as Hlen.
    replace (length (idsToPlay (the_plan r)))
      with (k + S (length (idsToPlay (the_plan r)) - S k))%nat by lia.
    rewrite playback_split, Hk. cbn [Main.playback]. rewrite Z.add_0_l.
    rewrite Hi0, Ht, Hit. apply finalize_events.
    intros Hnil. rewrite Hnil in Hi. discriminate. }
  split_and!.
  - reflexivity.
  - exact Hrun.
  - rewrite Hrun. reflexivity.
  - rewrite Hrun. simpl. unfold fed, finalization_events. rewrite omap_app.
    destruct (setting_logStuff cfg); simpl; rewrite app_nil_r; reflexivity.
  - intros st1 img Hfetch Hdead.
    rewrite (iteration_Ok new_FullSystem addActiveFrame cfg imgs _ i target _ st_k st1 img
               Hfetch), Hdead in Hit.
    unfold Main.after_frame in Hit.
    destruct (isLost _) in Hit; [| discriminate]. injection Hit as <-. reflexivity.
  - intros imgs0 ii j t e st st1 img Hfetch Hl fs1 req. subst fs1 req.
    rewrite (iteration_Ok new_FullSystem addActiveFrame cfg imgs0 ii j t e st st1 img Hfetch).
    split_and!.
    + intros ->. reflexivity.
    + intros -> Hno. unfold Main.after_frame, Main.handle_reset.
      cbn [fullSystem set_fullResetRequested setting_fullResetRequested].
      apply andb_false_iff in Hno as [-> | Hno].
      * cbn [fullSystem set_fullResetRequested setting_fullResetRequested].
        rewrite Hl. reflexivity.
      * rewrite Hno. destruct (initFailed _ || _);
          cbn [fullSystem set_fullResetRequested setting_fullResetRequested];
          rewrite Hl; reflexivity.
    + intros -> Hyes. apply andb_true_iff in Hyes as [H1 H2].
      unfold Main.after_frame.
      rewrite (handle_reset_honoured ii
                 (set_fullResetRequested (paced ii j t e st (reader st1) img)
                    (setting_fullResetRequested st || reset_requested e)) H1 H2).
      cbn [fullSystem set_fullResetRequested setting_fullResetRequested isLost
           set_outputWrapper Main.fresh_engine set_linearizeOperation setGammaFunction
           reader events fst snd].
      destruct (isLost new_FullSystem); split_and!; reflexivity.
Qed.

End Control.

Lemma reset_policy_witness :
  (fullSystem (handle_reset engine0 cfg0 100 failed_session)
   = set_outputWrapper (fresh_engine engine0 cfg0 three_frames) [1; 2]%nat
   /\ events (handle_reset engine0 cfg0 100 failed_session)
      = [AddActiveFrame 0; WrapperReset 1%nat; WrapperReset 2%nat; Usleep (Some 20000);
         DeleteFullSystem; NewFullSystem]
   /\ after_frame engine0 cfg0 100 failed_session
      = (Next, handle_reset engine0 cfg0 100 failed_session))
  /\ handle_reset engine0 cfg0 300 failed_session = failed_session.
Proof.
  destruct (reset_policy engine0 (lost_at 1) cfg0 100 failed_session eq_refl)
    as (H1 & H2 & _).
  destruct (reset_policy engine0 (lost_at 1) cfg0 300 failed_session eq_refl)
    as (_ & _ & H3 & _).
  split.
  - destruct H2 as (Hfs & _ & _ & _ & _ & _ & _ & _ & _ & Hnext); [left; lia |].
    split; [exact Hfs |].
    split; [apply (proj2 H1); left; lia |].
    apply Hnext. reflexivity.
  - apply H3. intros [Hlt | Hreq]; [lia | discriminate].
Defined.

Lemma loss_ends_playback_witness :
  events (snd (runthread engine0 (lost_at 1) cfg0 three_frames tv0 quiet))
  = [AddActiveFrame 0; AddActiveFrame 1;
     BlockUntilMappingIsFinished; PrintResult; PrintStatistics; WriteTimeLog]
  /\ fed (events (snd (runthread engine0 (lost_at 1) cfg0 three_frames tv0 quiet))) = [0; 1].
Proof.
  destruct (loss_ends_playback engine0 (lost_at 1) cfg0 three_frames three_frames tv0 quiet
              [] 1
              (snd (playback engine0 (lost_at 1) cfg0 (the_plan cfg0 three_frames) []
                             quiet 1 0 (initial_session engine0 cfg0 three_frames tv0)))
              (snd (iteration engine0 (lost_at 1) cfg0 [] 1 1 (S754_infinity false) (quiet 1)
                      (snd (playback engine0 (lost_at 1) cfg0 (the_plan cfg0 three_frames) []
                                     quiet 1 0
                                     (initial_session engine0 cfg0 three_frames tv0)))))
              1 (S754_infinity false) LoopExit)
    as (_ & _ & Hev & Hfed & _);
    try (vm_compute; reflexivity).
  - right. reflexivity.
  - split.
    + rewrite Hev. vm_compute. reflexivity.
    + rewrite Hfed. vm_compute. reflexivity.
Defined.

End PlaybackProperties.

Module CatalogProperties.
Import DatasetReader ReaderNotions Examples ReaderProperties.

(** *** The archive buffer *)

Lemma set_databuffer_same (r : ImageFolderReader) : set_databuffer r (databuffer r) = r.
Proof. destruct r; reflexivity. Qed.

Lemma same_catalog_set (r r' : ImageFolderReader) :
  same_catalog r r' -> r' = set_databuffer r (databuffer r').
Proof.
  unfold same_catalog. destruct r, r'; cbn. intros H. injection H as -> -> -> -> -> -> -> -> -> -> ->.
  reflexivity.
Qed.

Lemma same_catalog_refl (r : ImageFolderReader) : same_catalog r r.
Proof. reflexivity. Qed.

Lemma same_catalog_sym (r r' : ImageFolderReader) : same_catalog r r' -> same_catalog r' r.
Proof. unfold same_catalog. intros H. symmetry. exact H. Qed.

Lemma same_catalog_trans (r1 r2 r3 : ImageFolderReader) :
  same_catalog r1 r2 -> same_catalog r2 r3 -> same_catalog r1 r3.
Proof. unfold same_catalog. intros H1 H2. rewrite H1. exact H2. Qed.

Lemma getImageRaw_same_catalog (r : ImageFolderReader) (id : Z) :
  same_catalog (reader_after (getImageRaw_internal r id)) r.
Proof.
  unfold same_catalog, getImageRaw_internal.
  destruct (isZipped r); cbn; [| reflexivity].
  destruct (vec_at (files r) id); cbn; try reflexivity.
  repeat match goal with |- context [if ?c then _ else _] => destruct c end; reflexivity.
Qed.

Lemma getImage_same_catalog (r : ImageFolderReader) (id : Z) :
  same_catalog (snd (getImage r id)) r.
Proof.
  unfold getImage, getImage_internal.
  destruct (use16Bit r), (useColour r); cbn; try reflexivity.
  apply getImageRaw_same_catalog.
Qed.

Lemma getImageRaw_result_buffer (r : ImageFolderReader) (b : option Z) (id : Z) :
  result (getImageRaw_internal (set_databuffer r b) id) = result (getImageRaw_internal r id)
  /\ reads (getImageRaw_internal (set_databuffer r b) id) = reads (getImageRaw_internal r id).
Proof.
  unfold getImageRaw_internal. cbn [isZipped files widthOrg heightOrg ziparchive set_databuffer].
  destruct (isZipped r); cbn; [| split; reflexivity].
  destruct (vec_at (files r) id); cbn; try (split; reflexivity).
  repeat match goal with |- context [if ?c then _ else _] => destruct c end; split; reflexivity.
Qed.

Lemma getImage_result_buffer (r : ImageFolderReader) (b : option Z) (id : Z) :
  fst (getImage (set_databuffer r b) id) = fst (getImage r id).
Proof.
  unfold getImage, getImage_internal. cbn [use16Bit useColour files set_databuffer].
  destruct (use16Bit r), (useColour r); cbn [fst]; try reflexivity.
  destruct (getImageRaw_result_buffer r b id) as [-> _]. reflexivity.
Qed.

Lemma getImage_result_same_catalog (r r' : ImageFolderReader) (id : Z) :
  same_catalog r r' -> fst (getImage r' id) = fst (getImage r id).
Proof.
  intros H. rewrite (same_catalog_set r r' H). apply getImage_result_buffer.
Qed.

(** X1. Reading a frame changes nothing of the reader but the archive
    buffer, and the buffer never changes what a read returns: after any
    read, every frame is read as it would have been before it. *)
Theorem frame_read_ignores_buffer (r : ImageFolderReader) (j id : Z) :
  same_catalog (snd (getImage r j)) r
  /\ fst (getImage (snd (getImage r j)) id) = fst (getImage r id)
  /\ result (getImageRaw (reader_after (getImageRaw r j)) id) = result (getImageRaw r id)
  /\ reads (getImageRaw (reader_after (getImageRaw r j)) id) = reads (getImageRaw r id).
Proof.
  split_and!.
  - apply getImage_same_catalog.
  - apply getImage_result_same_catalog. apply same_catalog_sym, getImage_same_catalog.
  - unfold getImageRaw.
    rewrite (same_catalog_set r _ (same_catalog_sym _ _ (getImageRaw_same_catalog r j))).
    apply getImageRaw_result_buffer.
  - unfold getImageRaw.
    rewrite (same_catalog_set r _ (same_catalog_sym _ _ (getImageRaw_same_catalog r j))).
    apply getImageRaw_result_buffer.
Qed.

(** X2. Reading frame [id] of an archive into a buffer that is null or
    large enough for the first read writes past the end of the buffer
    exactly when the entry holds more than [w*h*30] bytes, which is exactly
    when the call ends the process: the second buffer has [w*h*30] bytes and
    up to [w*h*30+10000] are read into it. While [w*h*24 >= 10000] the buffer
    the call leaves is again large enough for a first read. *)
Theorem archive_read_overrun (r : ImageFolderReader) (id : Z) (name : string) :
  isZipped r = true ->
  vec_at (files r) id = Ok name ->
  0 <= widthOrg r * heightOrg r ->
  first_read_fits r ->
  overrun (getImageRaw_internal r id)
  = Z.max 0 (Z.min (size (ziparchive r name)) (widthOrg r * heightOrg r * 30 + 10000)
             - widthOrg r * heightOrg r * 30)
  /\ (0 < overrun (getImageRaw_internal r id)
      <-> widthOrg r * heightOrg r * 30 < size (ziparchive r name))
  /\ (0 < overrun (getImageRaw_internal r id)
      <-> result (getImageRaw_internal r id) = Exit 1)
  /\ (10000 <= widthOrg r * heightOrg r * 24 ->
      first_read_fits (reader_after (getImageRaw_internal r id))).
Proof.
  intros Hzip Hname Hwh Hfit.
  unfold first_read_fits in *. unfold getImageRaw_internal. rewrite Hzip, Hname.
  simpl negb. cbv iota.
  set (wh := widthOrg r * heightOrg r) in *.
  set (entry := ziparchive r name).
  pose proof (size_nonneg entry) as Hn.
  pose proof (size_zip_fread entry (wh * 6 + 10000)) as H1.
  pose proof (size_zip_fread entry (wh * 30 + 10000)) as H2.
  set (cap := match databuffer r with Some c => c | None => wh * 6 + 10000 end).
  assert (Hcap : wh * 6 + 10000 <= cap).
  { unfold cap. destruct (databuffer r); lia. }
  destruct (Z.gtb_spec (size (zip_fread entry (wh * 6 + 10000))) (wh * 6)) as [Hgt | Hle].
  - destruct (Z.gtb_spec (size (zip_fread entry (wh * 30 + 10000))) (wh * 30)) as [Hgt2 | Hle2];
      cbn [overrun result reader_after databuffer set_databuffer widthOrg heightOrg];
      fold wh; split_and!; try lia; try (split; [lia | discriminate]);
      try (split; [lia | reflexivity]); try (split; [reflexivity | lia]).
  - cbn [overrun result reader_after databuffer set_databuffer widthOrg heightOrg];
      fold wh; split_and!; try lia; try (split; [lia | discriminate]).
Qed.

(** *** What a returned image carries *)

Lemma undistort_Ok (r : ImageFolderReader) (id : Z) (m : MinimalImage)
    (img : ImageAndExposure) :
  undistort r id m = Ok img ->
  exposure_of r id = Ok (exposure_time img) /\ timestamp_of r id = Ok (timestamp img)
  /\ image img = m.
Proof.
  unfold undistort.
  destruct (exposure_of r id) as [x | |]; try discriminate.
  destruct (timestamp_of r id) as [t | |]; try discriminate.
  cbn. intros [= <-]. auto.
Qed.

Lemma getImageRaw_Ok (r : ImageFolderReader) (id : Z) (m : MinimalImage) :
  result (getImageRaw_internal r id) = Ok m ->
  exists name, vec_at (files r) id = Ok name /\ decoded_from r name m.
Proof.
  unfold getImageRaw_internal.
  destruct (isZipped r) eqn:Hzip; cbn.
  - destruct (vec_at (files r) id) as [name | |]; cbn; try discriminate.
    set (wh := widthOrg r * heightOrg r).
    set (entry := ziparchive r name).
    pose proof (size_nonneg entry) as Hn.
    pose proof (size_zip_fread entry (wh * 6 + 10000)) as H1.
    pose proof (size_zip_fread entry (wh * 30 + 10000)) as H2.
    destruct (Z.gtb_spec (size (zip_fread entry (wh * 6 + 10000))) (wh * 6)) as [Hgt | Hle].
    + destruct (Z.gtb_spec (size (zip_fread entry (wh * 30 + 10000))) (wh * 30)) as [Hgt2 | Hle2];
        cbn; [discriminate |].
      intros [= <-]. exists name. split; [reflexivity |]. split; [exact Hzip |].
      apply zip_fread_all. fold entry wh. lia.
    + cbn. intros [= <-]. exists name. split; [reflexivity |]. split; [exact Hzip |].
      apply zip_fread_all. fold entry wh. lia.
  - destruct (vec_at (files r) id) as [name | |]; cbn; try discriminate.
    intros [= <-]. exists name. split; [reflexivity |]. split; [exact Hzip | reflexivity].
Qed.

Lemma getImage_Ok (r : ImageFolderReader) (id : Z) (img : ImageAndExposure) :
  fst (getImage r id) = Ok img ->
  exposure_of r id = Ok (exposure_time img) /\ timestamp_of r id = Ok (timestamp img)
  /\ exists name, getFilename r id = Ok name /\ decoded_from r name (image img).
Proof.
  unfold getImage, getImage_internal, getFilename.
  destruct (use16Bit r), (useColour r); cbn [fst]; try discriminate.
  - destruct (vec_at (files r) id) as [f | |]; cbn; try discriminate.
    intros H. apply undistort_Ok in H as (He & Ht & Hi). rewrite Hi.
    split_and!; [exact He | exact Ht |]. exists f. split; reflexivity.
  - unfold getImageRaw3_internal. destruct (isZipped r); cbn; try discriminate.
    destruct (vec_at (files r) id) as [f | |]; cbn; try discriminate.
    intros H. apply undistort_Ok in H as (He & Ht & Hi). rewrite Hi.
    split_and!; [exact He | exact Ht |]. exists f. split; reflexivity.
  - destruct (result (getImageRaw_internal r id)) as [m | |] eqn:Hraw; cbn; try discriminate.
    intros H. apply undistort_Ok in H as (He & Ht & Hi). rewrite Hi.
    split_and!; [exact He | exact Ht |]. apply getImageRaw_Ok. exact Hraw.
Qed.

(** X3. An image [getImage] returns for [id] is decoded from [files[id]]
    (by an 8-bit greyscale reader on an archive, from the whole archive
    entry of that name, never from a truncated read; in every other case by
    the file reader called with that name) and carries the exposure and the
    timestamp of [id]. Its timestamp is what [getTimestamp(id)] returns when
    timestamps are loaded; when none is loaded it is 0, whereas
    [getTimestamp(id)] is [id*0.04f]. *)
Theorem image_metadata (r : ImageFolderReader) (id : Z) (img : ImageAndExposure) :
  fst (getImage r id) = Ok img ->
  (exists name, getFilename r id = Ok name /\ decoded_from r name (image img))
  /\ exposure_of r id = Ok (exposure_time img)
  /\ (exposures r = [] -> exposure_time img = f32_of_int 1)
  /\ (timestamps r <> [] -> timestamp img = getTimestamp r id)
  /\ (timestamps r = [] ->
      timestamp img = f64_of_int 0
      /\ getTimestamp r id = f64_of_f32 (f32_mul (f32_of_int id) c_0_04f)).
Proof.
  intros H. destruct (getImage_Ok r id img H) as (He & Ht & Hname).
  split_and!.
  - exact Hname.
  - exact He.
  - intros Hnil. unfold exposure_of in He. rewrite Hnil in He. cbn in He.
    injection He as <-. reflexivity.
  - intros Hne. unfold timestamp_of in Ht.
    destruct (Z.eqb_spec (size (timestamps r)) 0) as [Hz | Hnz].
    + apply size_zero_nil in Hz. contradiction.
    + apply vec_at_Ok in Ht as [Hid Ht]. unfold getTimestamp, getTimestamp_outcome.
      pose proof (lookup_lt_Some _ _ _ Ht) as Hlen.
      destruct (Z.eqb_spec (size (timestamps r)) 0) as [? | _]; [contradiction |].
      destruct (Z.geb_spec id (size (timestamps r))) as [Hge | _]; [unfold size in Hge; lia |].
      destruct (Z.ltb_spec id 0) as [? | _]; [lia |].
      assert (Hv : vec_at (timestamps r) id = Ok (timestamp img)) by (apply vec_at_Ok; auto).
      rewrite Hv. reflexivity.
  - intros Hnil. unfold timestamp_of in Ht. rewrite Hnil in Ht. cbn in Ht.
    injection Ht as <-. split; [reflexivity |].
    unfold getTimestamp, getTimestamp_outcome. rewrite Hnil. reflexivity.
Qed.

(** *** Instances *)

Import Examples.

Lemma archive_read_overrun_witness :
  overrun (getImageRaw_internal (archive 18001) 0) = 1
  /\ result (getImageRaw_internal (archive 18001) 0) = Exit 1
  /\ overrun (getImageRaw_internal (archive 18000) 0) = 0.
Proof.
  destruct (archive_read_overrun (archive 18001) 0 "000.png" eq_refl eq_refl)
    as (H1 & _ & H3 & _); [vm_compute; discriminate | exact I |].
  destruct (archive_read_overrun (archive 18000) 0 "000.png" eq_refl eq_refl)
    as (H4 & _); [vm_compute; discriminate | exact I |].
  split; [rewrite H1; vm_compute; reflexivity |].
  split; [apply H3; rewrite H1; vm_compute; reflexivity |].
  rewrite H4. vm_compute. reflexivity.
Defined.

Lemma image_metadata_witness :
  exposure_of three_frames 2 = Ok (f32_of_int 1)
  /\ f64_of_int 2 = getTimestamp three_frames 2.
Proof.
  destruct (image_metadata three_frames 2
              {| image := readImageBW_8U "img.png"; exposure_time := f32_of_int 1;
                 timestamp := f64_of_int 2 |} eq_refl) as (_ & H2 & _ & H4 & _).
  split; [exact H2 | apply H4; vm_compute; discriminate].
Defined.

End CatalogProperties.

Module SidecarProperties.
Import DatasetReader ReaderNotions Examples ReaderProperties CatalogProperties.

(** *** The series [loadTimestamps] reads *)

Lemma read_lines_entries (lines : list times_line) (r : ImageFolderReader) :
  ids (fold_left read_line lines r) = ids r ++ map entry_id (entries lines)
  /\ timestamps (fold_left read_line lines r)
     = timestamps r ++ map entry_stamp (entries lines)
  /\ exposures (fold_left read_line lines r)
     = exposures r ++ map entry_exposure (entries lines).
Proof.
  revert r. induction lines as [| l lines IH]; intros r.
  - cbn. rewrite !app_nil_r. auto.
  - cbn [fold_left]. destruct (IH (read_line r l)) as (H1 & H2 & H3).
    rewrite H1, H2, H3. unfold entries. destruct l; cbn; rewrite <- ?app_assoc; auto.
Qed.

Lemma loadTimestamps_ids (r : ImageFolderReader) (lines : list times_line) :
  ids (loadTimestamps r lines) = ids r ++ map entry_id (entries lines).
Proof.
  destruct (read_lines_entries lines r) as (<- & _). unfold loadTimestamps.
  destruct (repair_loop _ _) as [ex good]. cbn.
  repeat match goal with |- context [if ?c then _ else _] => destruct c end; reflexivity.
Qed.

Lemma zero_not_positive (x : float) :
  f32_eqb x (f32_of_int 0) = true -> f32_ltb (f32_of_int 0) x = false.
Proof. destruct x as [[] | [] | | [] m e]; cbn; intros H; try reflexivity; discriminate. Qed.

(** The repair loop leaves a series without zeros as it is. *)
Lemma repair_loop_nonzero (e : list float) (g : bool) :
  (forall x, x ∈ e -> f32_eqb x (f32_of_int 0) = false) -> fst (repair_loop e g) = e.
Proof.
  intros Hnz. destruct (repair_loop_spec e g) as (Hlen & _ & _). cbn in Hlen.
  apply list_eq. intros i. destruct (e !! i) as [cur |] eqn:E.
  - rewrite (repair_loop_lookup e g i cur E). unfold repaired.
    rewrite (Hnz cur) by (eapply list_elem_of_lookup_2; exact E). reflexivity.
  - apply lookup_ge_None in E. apply lookup_ge_None. lia.
Qed.

(** The repair loop leaves a series of zeros as it is. *)
Lemma repair_loop_zeros (e : list float) (g : bool) :
  (forall x, x ∈ e -> f32_eqb x (f32_of_int 0) = true) -> fst (repair_loop e g) = e.
Proof.
  intros Hz. destruct (repair_loop_spec e g) as (Hlen & _ & _). cbn in Hlen.
  assert (Hall : forall i, fst (repair_loop e g) !! i = e !! i).
  { induction i as [| i IH].
    - destruct (e !! 0%nat) as [cur |] eqn:E.
      + rewrite (repair_loop_lookup e g 0 cur E). f_equal.
        rewrite repaired_average. unfold positive_neighbours.
        destruct (e !! 1%nat) as [x |] eqn:Ex.
        * rewrite (zero_not_positive x) by (apply Hz; eapply list_elem_of_lookup_2; exact Ex).
          cbn. destruct (f32_eqb cur _); reflexivity.
        * cbn. destruct (f32_eqb cur _); reflexivity.
      + apply lookup_ge_None in E. apply lookup_ge_None. lia.
    - destruct (e !! S i) as [cur |] eqn:E.
      + rewrite (repair_loop_lookup e g (S i) cur E). f_equal.
        rewrite repaired_average. unfold positive_neighbours. rewrite IH.
        destruct (e !! i) as [l |] eqn:El;
          [| apply lookup_ge_None in El; apply lookup_lt_Some in E; lia].
        rewrite (zero_not_positive l) by (apply Hz; eapply list_elem_of_lookup_2; exact El).
        destruct (e !! S (S i)) as [x |] eqn:Ex.
        * rewrite (zero_not_positive x) by (apply Hz; eapply list_elem_of_lookup_2; exact Ex).
          cbn. destruct (f32_eqb cur _); reflexivity.
        * cbn. destruct (f32_eqb cur _); reflexivity.
      + apply lookup_ge_None in E. apply lookup_ge_None. lia. }
  apply list_eq. exact Hall.
Qed.

Lemma forallb_nonzero_intro (e : list float) :
  (forall x, x ∈ e -> f32_eqb x (f32_of_int 0) = false) -> forallb nonzero e = true.
Proof.
  intros H. apply forallb_forall. intros x Hx. unfold nonzero.
  rewrite (H x) by (apply list_elem_of_In; exact Hx). reflexivity.
Qed.

Lemma size_map {A B : Type} (f : A -> B) (l : list A) : size (map f l) = size l.
Proof. unfold size. rewrite length_map. reflexivity. Qed.

Lemma getTimestamp_lookup (r : ImageFolderReader) (k : nat) (t : double) :
  timestamps r !! k = Some t -> getTimestamp r (Z.of_nat k) = t.
Proof.
  intros Ht. pose proof (lookup_lt_Some _ _ _ Ht) as Hlen.
  unfold getTimestamp, getTimestamp_outcome.
  destruct (Z.eqb_spec (size (timestamps r)) 0) as [E | _]; [unfold size in E; lia |].
  destruct (Z.geb_spec (Z.of_nat k) (size (timestamps r))) as [Hge | _];
    [unfold size in Hge; lia |].
  destruct (Z.ltb_spec (Z.of_nat k) 0) as [Hneg | _]; [lia |].
  assert (Hv : vec_at (timestamps r) (Z.of_nat k) = Ok t).
  { apply vec_at_Ok. rewrite Nat2Z.id. split; [lia | exact Ht]. }
  rewrite Hv. reflexivity.
Qed.

Lemma exposure_of_lookup (r : ImageFolderReader) (k : nat) (x : float) :
  exposures r !! k = Some x -> exposure_of r (Z.of_nat k) = Ok x.
Proof.
  intros Hx. pose proof (lookup_lt_Some _ _ _ Hx) as Hlen. unfold exposure_of.
  destruct (Z.eqb_spec (size (exposures r)) 0) as [E | _]; [unfold size in E; lia |].
  apply vec_at_Ok. rewrite Nat2Z.id. split; [lia | exact Hx].
Qed.

Lemma timestamp_of_lookup (r : ImageFolderReader) (k : nat) (t : double) :
  timestamps r !! k = Some t -> timestamp_of r (Z.of_nat k) = Ok t.
Proof.
  intros Ht. pose proof (lookup_lt_Some _ _ _ Ht) as Hlen. unfold timestamp_of.
  destruct (Z.eqb_spec (size (timestamps r)) 0) as [E | _]; [unfold size in E; lia |].
  apply vec_at_Ok. rewrite Nat2Z.id. split; [lia | exact Ht].
Qed.

(** X4. Round trip of the side-car file. When a reader with no series
    yet loads a file that has one well-formed line per image and no exposure
    equal to 0, the three series are the three columns of the file, in file
    order and unchanged, and the queries for the [k]-th image return the
    values of the [k]-th line. *)
Theorem sidecar_round_trip (r : ImageFolderReader) (lines : list times_line) :
  ids r = [] -> timestamps r = [] -> exposures r = [] ->
  size (entries lines) = getNumImages r ->
  (forall e, e ∈ entries lines -> f32_eqb (entry_exposure e) (f32_of_int 0) = false) ->
  ids (loadTimestamps r lines) = map entry_id (entries lines)
  /\ timestamps (loadTimestamps r lines) = map entry_stamp (entries lines)
  /\ exposures (loadTimestamps r lines) = map entry_exposure (entries lines)
  /\ (forall (k : nat) (e : Z * double * float),
      entries lines !! k = Some e ->
      getTimestamp (loadTimestamps r lines) (Z.of_nat k) = entry_stamp e
      /\ timestamp_of (loadTimestamps r lines) (Z.of_nat k) = Ok (entry_stamp e)
      /\ exposure_of (loadTimestamps r lines) (Z.of_nat k) = Ok (entry_exposure e)).
Proof.
  intros Hi Ht He Hn Hnz.
  destruct (read_lines_entries lines r) as (_ & Hts & Hes).
  rewrite Ht in Hts. rewrite He in Hes. cbn in Hts, Hes.
  destruct (loadTimestamps_cases r lines) as (_ & Ht' & He'). cbv zeta in Ht', He'.
  rewrite Hts, Hes in *. rewrite !size_map, Hn, Z.eqb_refl in *. cbn [andb] in He'.
  assert (Hnz' : forall x, x ∈ map entry_exposure (entries lines) ->
                           f32_eqb x (f32_of_int 0) = false).
  { intros x Hx. apply list_elem_of_fmap in Hx as (e & -> & Hin). apply Hnz. exact Hin. }
  rewrite (repair_loop_nonzero _ true Hnz') in He'.
  rewrite (forallb_nonzero_intro _ Hnz') in He'.
  split_and!.
  - rewrite loadTimestamps_ids, Hi. reflexivity.
  - exact Ht'.
  - exact He'.
  - intros k e Hk. split_and!.
    + apply getTimestamp_lookup. rewrite Ht'. rewrite list_lookup_fmap, Hk. reflexivity.
    + apply timestamp_of_lookup. rewrite Ht'. rewrite list_lookup_fmap, Hk. reflexivity.
    + apply exposure_of_lookup. rewrite He'. rewrite list_lookup_fmap, Hk. reflexivity.
Qed.

(** X5. A side-car file without usable exposures. When every line read
    carries the exposure 0, which is what a line of two fields is given, the
    repair finds no positive neighbour anywhere: the exposure series is
    emptied and every exposure lookup gives 1, while the timestamps are kept
    when there is one line per image. *)
Theorem sidecar_without_exposures (r : ImageFolderReader) (lines : list times_line) :
  ids r = [] -> timestamps r = [] -> exposures r = [] ->
  (forall e, e ∈ entries lines -> f32_eqb (entry_exposure e) (f32_of_int 0) = true) ->
  exposures (loadTimestamps r lines) = []
  /\ (forall id, exposure_of (loadTimestamps r lines) id = Ok (f32_of_int 1))
  /\ (size (entries lines) = getNumImages r ->
      timestamps (loadTimestamps r lines) = map entry_stamp (entries lines)
      /\ forall (k : nat) (e : Z * double * float),
          entries lines !! k = Some e ->
          getTimestamp (loadTimestamps r lines) (Z.of_nat k) = entry_stamp e).
Proof.
  intros Hi Ht He Hz.
  destruct (read_lines_entries lines r) as (_ & Hts & Hes).
  rewrite Ht in Hts. rewrite He in Hes. cbn in Hts, Hes.
  destruct (loadTimestamps_cases r lines) as (_ & Ht' & He'). cbv zeta in Ht', He'.
  rewrite Hts, Hes in *. rewrite !size_map in *.
  assert (Hz' : forall x, x ∈ map entry_exposure (entries lines) ->
                          f32_eqb x (f32_of_int 0) = true).
  { intros x Hx. apply list_elem_of_fmap in Hx as (e & -> & Hin). apply Hz. exact Hin. }
  rewrite (repair_loop_zeros _ true Hz') in He'.
  assert (Hex : exposures (loadTimestamps r lines) = []).
  { rewrite He'. destruct (entries lines) as [| e es] eqn:E.
    - cbn. destruct (_ && _); reflexivity.
    - assert (Hnz : forallb nonzero (map entry_exposure (e :: es)) = false).
      { cbn [map forallb]. unfold nonzero at 1. rewrite (Hz e) by apply list_elem_of_here.
        reflexivity. }
      rewrite Hnz, andb_false_r. reflexivity. }
  split_and!.
  - exact Hex.
  - intros id. unfold exposure_of. rewrite Hex. reflexivity.
  - intros Hn. rewrite Hn, Z.eqb_refl in Ht'. split; [exact Ht' |].
    intros k e Hk. apply getTimestamp_lookup. rewrite Ht', list_lookup_fmap, Hk. reflexivity.
Qed.

(** X6. Fallback when the side-car file does not fit the catalog. When
    the number of well-formed lines differs from the number of images (a
    missing file reads as no line), both series are emptied: every image has
    the synthetic timestamp [id*0.04f] and the exposure 1, and an image
    returned by [getImage] carries the timestamp 0. The ids read are kept
    all the same, so [ids] then has a length of its own. *)
Theorem sidecar_mismatch_fallback (r : ImageFolderReader) (lines : list times_line) :
  ids r = [] -> timestamps r = [] -> exposures r = [] ->
  size (entries lines) <> getNumImages r ->
  timestamps (loadTimestamps r lines) = []
  /\ exposures (loadTimestamps r lines) = []
  /\ (forall id, getTimestamp (loadTimestamps r lines) id
                 = f64_of_f32 (f32_mul (f32_of_int id) c_0_04f))
  /\ (forall id, exposure_of (loadTimestamps r lines) id = Ok (f32_of_int 1))
  /\ (forall id img, fst (getImage (loadTimestamps r lines) id) = Ok img ->
                     timestamp img = f64_of_int 0 /\ exposure_time img = f32_of_int 1)
  /\ ids (loadTimestamps r lines) = map entry_id (entries lines)
  /\ size (ids (loadTimestamps r lines)) <> getNumImages (loadTimestamps r lines).
Proof.
  intros Hi Ht He Hn.
  destruct (read_lines_entries lines r) as (_ & Hts & Hes).
  rewrite Ht in Hts. rewrite He in Hes. cbn in Hts, Hes.
  destruct (loadTimestamps_cases r lines) as (Hf & Ht' & He'). cbv zeta in Ht', He'.
  rewrite Hts, Hes in *. rewrite !size_map in *.
  destruct (Z.eqb_spec (size (entries lines)) (getNumImages r)) as [? | _]; [contradiction |].
  cbn [andb] in He'.
  assert (Hids : ids (loadTimestamps r lines) = map entry_id (entries lines)).
  { rewrite loadTimestamps_ids, Hi. reflexivity. }
  split_and!.
  - exact Ht'.
  - exact He'.
  - intros id. unfold getTimestamp, getTimestamp_outcome. rewrite Ht'. reflexivity.
  - intros id. unfold exposure_of. rewrite He'. reflexivity.
  - intros id img Himg. destruct (getImage_Ok _ _ _ Himg) as (Hx & Hs & _).
    unfold timestamp_of in Hs. unfold exposure_of in Hx. rewrite Ht' in Hs. rewrite He' in Hx.
    cbn in Hs, Hx. injection Hs as <-. injection Hx as <-. split; reflexivity.
  - exact Hids.
  - rewrite Hids, size_map. unfold getNumImages. rewrite Hf. exact Hn.
Qed.

(** *** Instances *)

Import Examples.

Lemma sidecar_round_trip_witness :
  exposures (loadTimestamps (folder 3 []) (lines_of [1; 2; 3])) = map f32_of_int [1; 2; 3]
  /\ getTimestamp (loadTimestamps (folder 3 []) (lines_of [1; 2; 3])) 1 = f64_of_int 1.
Proof.
  destruct (sidecar_round_trip (folder 3 []) (lines_of [1; 2; 3]) eq_refl eq_refl eq_refl
              eq_refl) as (_ & _ & H3 & H4).
  - intros e He. apply list_elem_of_In in He. cbn in He.
    destruct He as [<- | [<- | [<- | []]]]; reflexivity.
  - split; [exact H3 |].
    exact (proj1 (H4 1%nat (1, f64_of_int 1, f32_of_int 2) eq_refl)).
Defined.

Lemma sidecar_without_exposures_witness :
  exposures (loadTimestamps (folder 3 []) (lines_of [0; 0; 0])) = []
  /\ exposure_of (loadTimestamps (folder 3 []) (lines_of [0; 0; 0])) 1 = Ok (f32_of_int 1)
  /\ timestamps (loadTimestamps (folder 3 []) (lines_of [0; 0; 0])) = map f64_of_int [0; 1; 2].
Proof.
  destruct (sidecar_without_exposures (folder 3 []) (lines_of [0; 0; 0]) eq_refl eq_refl
              eq_refl) as (H1 & H2 & H3).
  - intros e He. apply list_elem_of_In in He. cbn in He.
    destruct He as [<- | [<- | [<- | []]]]; reflexivity.
  - split; [exact H1 |]. split; [apply H2 |]. exact (proj1 (H3 eq_refl)).
Defined.

Lemma sidecar_mismatch_fallback_witness :
  timestamps (loadTimestamps (folder 3 []) (lines_of [1])) = []
  /\ getTimestamp (loadTimestamps (folder 3 []) (lines_of [1])) 2
     = f64_of_f32 (f32_mul (f32_of_int 2) c_0_04f)
  /\ ids (loadTimestamps (folder 3 []) (lines_of [1])) = [0].
Proof.
  destruct (sidecar_mismatch_fallback (folder 3 []) (lines_of [1]) eq_refl eq_refl eq_refl)
    as (H1 & _ & H3 & _ & _ & H6 & _).
  - vm_compute. discriminate.
  - split; [exact H1 |]. split; [apply H3 | exact H6].
Defined.

End SidecarProperties.

Module RunProperties.
Import DatasetReader ReaderNotions Main RunSettings Examples ReaderProperties PlaybackProperties
  CatalogProperties.

(** *** The ids of a plan *)

Lemma NoDup_stride (a step : Z) (n : nat) : step <> 0 -> NoDup (stride a step n).
Proof.
  intros Hstep. unfold stride. apply (NoDup_fmap_2_strong (fun k => a + step * Z.of_nat k)).
  - intros x y _ _ Hxy. nia.
  - apply NoDup_seq.
Qed.

Lemma the_plan_ids (cfg : config) (r : ImageFolderReader) :
  idsToPlay (the_plan cfg r)
  = if reverse cfg then
      stride (Z.min (endIndex cfg) (getNumImages r) - 1) (-1)
        (Z.to_nat (Z.min (endIndex cfg) (getNumImages r) - 1 - Z.max (startIndex cfg) (-1)))
    else if 0 <=? startIndex cfg then
      stride (startIndex cfg) 1
        (Z.to_nat (Z.min (endIndex cfg) (getNumImages r) - startIndex cfg))
    else [].
Proof.
  pose proof (the_plan_built cfg r) as Hp.
  destruct (reverse cfg).
  - pose proof (backward_ids r (playbackSpeed cfg) (startIndex cfg) (endIndex cfg)) as H.
    rewrite Hp in H. cbn in H. injection H as H. exact H.
  - pose proof (forward_ids r (playbackSpeed cfg) (startIndex cfg) (endIndex cfg)) as H.
    rewrite Hp in H. cbn in H. injection H as H. exact H.
Qed.

Lemma the_plan_in_range (cfg : config) (r : ImageFolderReader) (i : Z) :
  i ∈ idsToPlay (the_plan cfg r) -> in_range r i.
Proof.
  rewrite the_plan_ids. unfold in_range.
  pose proof (size_nonneg (files r)) as HN. fold (getNumImages r) in HN.
  destruct (reverse cfg).
  - intros Hi. apply list_elem_of_lookup in Hi as [k Hk].
    apply stride_lookup in Hk as [Hk ->]. lia.
  - destruct (Z.leb_spec 0 (startIndex cfg)); [| intros Hi; inversion Hi].
    intros Hi. apply list_elem_of_lookup in Hi as [k Hk].
    apply stride_lookup in Hk as [Hk ->]. lia.
Qed.

Lemma the_plan_NoDup (cfg : config) (r : ImageFolderReader) :
  NoDup (idsToPlay (the_plan cfg r)).
Proof.
  rewrite the_plan_ids. destruct (reverse cfg); [apply NoDup_stride; lia |].
  destruct (0 <=? startIndex cfg); [apply NoDup_stride; lia | apply NoDup_nil_2].
Qed.

Lemma the_plan_lengths (cfg : config) (r : ImageFolderReader) :
  length (timesToPlayAt (the_plan cfg r)) = length (idsToPlay (the_plan cfg r)).
Proof. apply (build_plan_ok _ _ _ _ (the_plan_built cfg r)). Qed.

Section Run.

Variable new_FullSystem : FullSystem.
Variable addActiveFrame : FullSystem -> ImageAndExposure -> Z -> FullSystem.
Variable cfg : config.

Local Abbreviation handle_reset := (handle_reset new_FullSystem cfg).
Local Abbreviation after_frame := (after_frame new_FullSystem cfg).
Local Abbreviation iteration := (iteration new_FullSystem addActiveFrame cfg).
Local Abbreviation playback := (playback new_FullSystem addActiveFrame cfg).
Local Abbreviation runthread := (runthread new_FullSystem addActiveFrame cfg).
Local Abbreviation initial_session := (initial_session new_FullSystem cfg).
Local Abbreviation feed_frame := (feed_frame addActiveFrame).
Local Abbreviation fetch_image := (fetch_image cfg).
Local Abbreviation pacing_of := (pacing_of cfg).
Local Abbreviation finalize := (finalize cfg).
Local Abbreviation the_plan := (the_plan cfg).

(** *** The frames fed are frames of the plan, in plan order *)

Lemma iteration_fed_cases (imgs : list ImageAndExposure) (ii i : Z) (target : double)
    (e : env) (st : session) :
  exists l, fed (events (snd (iteration imgs ii i target e st))) = fed (events st) ++ l
            /\ (l = [] \/ l = [i]).
Proof.
  destruct (fetch_image imgs ii i (anchor_start target e (wait_while_paused e st)))
    as [[img | code |] st1] eqn:Hfetch.
  - rewrite (iteration_fed new_FullSystem addActiveFrame cfg imgs ii i target e st st1 img Hfetch).
    destruct (skipFrame _); eauto.
  - exists []. split; [| auto]. unfold Main.iteration. rewrite Hfetch. cbn [snd].
    pose proof (fetch_image_events cfg imgs ii i
                  (anchor_start target e (wait_while_paused e st))) as Hev.
    rewrite Hfetch in Hev. cbn [snd] in Hev. rewrite Hev, anchor_start_events.
    unfold wait_while_paused. cbn [events log].
    rewrite fed_app, fed_pauses. reflexivity.
  - exists []. split; [| auto]. unfold Main.iteration. rewrite Hfetch. cbn [snd].
    pose proof (fetch_image_events cfg imgs ii i
                  (anchor_start target e (wait_while_paused e st))) as Hev.
    rewrite Hfetch in Hev. cbn [snd] in Hev. rewrite Hev, anchor_start_events.
    unfold wait_while_paused. cbn [events log].
    rewrite fed_app, fed_pauses. reflexivity.
Qed.

Lemma vec_at_lookup {A : Type} (v : list A) (k : nat) :
  vec_at v (Z.of_nat k) = match v !! k with Some x => Ok x | None => OutOfBounds end.
Proof.
  unfold vec_at. destruct (Z.leb_spec 0 (Z.of_nat k)); [| lia]. rewrite Nat2Z.id. reflexivity.
Qed.

Lemma playback_fed (p : plan) (imgs : list ImageAndExposure) (envs : Z -> env) (n : nat) :
  forall (k : nat) (st : session),
    exists l, fed (events (snd (playback p imgs envs n (Z.of_nat k) st)))
              = fed (events st) ++ l
              /\ l `sublist_of` take n (drop k (idsToPlay p)).
Proof.
  induction n as [| n IH]; intros k st.
  - exists []. cbn. rewrite app_nil_r. split; [reflexivity | apply sublist_nil_l].
  - cbn [Main.playback]. rewrite !vec_at_lookup.
    destruct (idsToPlay p !! k) as [i |] eqn:Ei.
    2:{ exists []. cbn. rewrite app_nil_r. split; [reflexivity | apply sublist_nil_l]. }
    destruct (timesToPlayAt p !! k) as [target |] eqn:Et.
    2:{ exists []. cbn. rewrite app_nil_r. split; [reflexivity | apply sublist_nil_l]. }
    rewrite (drop_S _ _ _ Ei). cbn [take].
    destruct (iteration_fed_cases imgs (Z.of_nat k) i target (envs (Z.of_nat k)) st)
      as (l1 & Hl1 & Hcase).
    destruct (iteration imgs (Z.of_nat k) i target (envs (Z.of_nat k)) st) as [fl st1].
    cbn [snd] in Hl1.
    assert (Hstop : exists l, fed (events st1) = fed (events st) ++ l
                              /\ l `sublist_of` i :: take n (drop (S k) (idsToPlay p))).
    { exists l1. split; [exact Hl1 |].
      destruct Hcase as [-> | ->]; [apply sublist_nil_l | apply sublist_skip, sublist_nil_l]. }
    destruct fl; try exact Hstop.
    replace (Z.of_nat k + 1) with (Z.of_nat (S k)) by lia.
    destruct (IH (S k) st1) as (l2 & Hl2 & Hsub).
    exists (l1 ++ l2). split.
    + rewrite Hl2, Hl1, app_assoc. reflexivity.
    + destruct Hcase as [-> | ->]; cbn; [apply sublist_cons | apply sublist_skip]; exact Hsub.
Qed.

Lemma finalize_fed (p : plan) (st : session) :
  fed (events (snd (finalize p st))) = fed (events st).
Proof.
  unfold Main.finalize. destruct (idsToPlay p); cbn [snd events log];
    rewrite !fed_app; cbn; rewrite ?app_nil_r; [reflexivity |].
  destruct (setting_logStuff cfg); cbn; rewrite app_nil_r; reflexivity.
Qed.

Lemma runthread_fed (r : ImageFolderReader) (tv : timeval) (envs : Z -> env) :
  fed (events (snd (runthread r tv envs))) `sublist_of` idsToPlay (the_plan r).
Proof.
  unfold Main.runthread.
  destruct (if preload cfg then preload_images r (idsToPlay (the_plan r)) else (Ok [], r))
    as [[imgs | code |] r1]; cbn [snd events Main.initial_session fed omap];
    try apply sublist_nil_l.
  destruct (playback_fed (the_plan r) imgs envs (length (idsToPlay (the_plan r))) 0
              (initial_session r1 tv)) as (l & Hl & Hsub).
  change (Z.of_nat 0) with 0 in Hl. rewrite drop_0, take_ge in Hsub by lia.
  destruct (playback (the_plan r) imgs envs (length (idsToPlay (the_plan r))) 0
              (initial_session r1 tv)) as [fl st'].
  cbn [snd] in Hl. cbn in Hl.
  destruct fl; rewrite ?finalize_fed; cbn [snd]; rewrite Hl; exact Hsub.
Qed.

(** X7. Whatever the engine, the display and the clock do, the frames
    handed to the engine during a run are frames of the plan, in the order
    of the plan: each is the id of an image of the catalog, and none is
    handed over twice. *)
Theorem frames_fed_follow_plan (r : ImageFolderReader) (tv : timeval) (envs : Z -> env) :
  fed (events (snd (runthread r tv envs))) `sublist_of` idsToPlay (the_plan r)
  /\ NoDup (fed (events (snd (runthread r tv envs))))
  /\ (forall i, i ∈ fed (events (snd (runthread r tv envs))) -> in_range r i).
Proof.
  pose proof (runthread_fed r tv envs) as Hsub. split_and!.
  - exact Hsub.
  - exact (sublist_NoDup _ _ (the_plan_NoDup cfg r) Hsub).
  - intros i Hi. apply (the_plan_in_range cfg r).
    exact (elem_of_sublist _ _ _ Hi Hsub).
Qed.

(** *** The reader during a run *)

Lemma handle_reset_reader (ii : Z) (st : session) : reader (handle_reset ii st) = reader st.
Proof.
  unfold Main.handle_reset.
  destruct (initFailed (fullSystem st) || setting_fullResetRequested st); [| reflexivity].
  destruct ((ii <? 250) || setting_fullResetRequested st); reflexivity.
Qed.

Lemma after_frame_reader (ii : Z) (st : session) :
  reader (snd (after_frame ii st)) = reader st.
Proof.
  unfold Main.after_frame. destruct (isLost _); cbn [snd]; apply handle_reset_reader.
Qed.

Lemma feed_frame_reader (pc : pacing) (ii i : Z) (img : ImageAndExposure) (st : session) :
  reader (feed_frame pc ii i img st) = reader st.
Proof. unfold Main.feed_frame. destruct pc; reflexivity. Qed.

Lemma anchor_start_reader (target : double) (e : env) (st : session) :
  reader (anchor_start target e st) = reader st.
Proof. unfold anchor_start. destruct (negb _); reflexivity. Qed.

Lemma fetch_image_reader (imgs : list ImageAndExposure) (ii i : Z) (st : session) :
  same_catalog (reader (snd (fetch_image imgs ii i st))) (reader st).
Proof.
  unfold Main.fetch_image. destruct (preload cfg); [apply same_catalog_refl |].
  pose proof (getImage_same_catalog (reader st) i) as H.
  destruct (getImage (reader st) i) as [img r']. exact H.
Qed.

Lemma iteration_reader (imgs : list ImageAndExposure) (ii i : Z) (target : double)
    (e : env) (st : session) :
  same_catalog (reader (snd (iteration imgs ii i target e st))) (reader st).
Proof.
  unfold Main.iteration.
  pose proof (fetch_image_reader imgs ii i (anchor_start target e (wait_while_paused e st)))
    as H.
  rewrite anchor_start_reader in H. change (reader (wait_while_paused e st)) with (reader st) in H.
  destruct (fetch_image imgs ii i _) as [[img | code |] st1]; cbn [snd] in *; try exact H.
  destruct (bool_decide (is_Some (viewer cfg)) && viewer_isDead e); cbn [snd].
  - rewrite feed_frame_reader. exact H.
  - rewrite after_frame_reader. cbn [reader set_fullResetRequested].
    rewrite feed_frame_reader. exact H.
Qed.

Lemma playback_reader_same (p : plan) (imgs : list ImageAndExposure) (envs : Z -> env)
    (n : nat) :
  forall (ii : Z) (st : session),
    same_catalog (reader (snd (playback p imgs envs n ii st))) (reader st).
Proof.
  induction n as [| n IH]; intros ii st; [apply same_catalog_refl |].
  cbn [Main.playback].
  destruct (vec_at (idsToPlay p) ii); try apply same_catalog_refl.
  destruct (vec_at (timesToPlayAt p) ii); try apply same_catalog_refl.
  pose proof (iteration_reader imgs ii a a0 (envs ii) st) as Hit.
  destruct (iteration imgs ii a a0 (envs ii) st) as [fl st1]. cbn [snd] in Hit.
  destruct fl; try exact Hit.
  eapply same_catalog_trans; [apply IH | exact Hit].
Qed.

(** *** Indexing during a run *)

Lemma same_catalog_fields (r r' : ImageFolderReader) :
  same_catalog r r' ->
  files r' = files r /\ timestamps r' = timestamps r /\ exposures r' = exposures r
  /\ photometricGamma r' = photometricGamma r.
Proof. intros H. rewrite (same_catalog_set r r' H). cbn. auto. Qed.

Lemma getImage_unsupported (r : ImageFolderReader) (id : Z) :
  unsupported r = true -> fst (getImage r id) = Exit 1.
Proof.
  unfold unsupported, getImage, getImage_internal, getImageRaw3_internal.
  destruct (use16Bit r), (useColour r), (isZipped r); cbn; intros H;
    try discriminate; reflexivity.
Qed.

Lemma getImage_in_range (r : ImageFolderReader) (id : Z) :
  lengths_reconciled r -> in_range r id -> fst (getImage r id) <> OutOfBounds.
Proof.
  intros Hlen Hin Hoob. destruct (unsupported r) eqn:Hsup.
  - rewrite (getImage_unsupported r id Hsup) in Hoob. discriminate.
  - apply (getImage_OutOfBounds r id Hsup Hlen) in Hoob. contradiction.
Qed.

Lemma preload_images_Ok (r : ImageFolderReader) (ids : list Z) :
  forall (r0 r1 : ImageFolderReader) (imgs : list ImageAndExposure),
    same_catalog r r0 ->
    preload_images r0 ids = (Ok imgs, r1) ->
    same_catalog r r1
    /\ length imgs = length ids
    /\ forall (k : nat) (i : Z), ids !! k = Some i ->
         exists img, imgs !! k = Some img /\ fst (getImage r i) = Ok img.
Proof.
  induction ids as [| i ids IH]; intros r0 r1 imgs Hsame; cbn [preload_images].
  - intros [= <- <-]. split_and!; [exact Hsame | reflexivity |]. intros k i Hk. discriminate.
  - pose proof (getImage_same_catalog r0 i) as Hr'.
    pose proof (getImage_result_same_catalog r r0 i Hsame) as Hres.
    destruct (getImage r0 i) as [[img | code |] r']; cbn [fst snd] in *; try discriminate.
    assert (Hsame' : same_catalog r r').
    { eapply same_catalog_trans; [exact Hsame | apply same_catalog_sym; exact Hr']. }
    specialize (IH r'). destruct (preload_images r' ids) as [[imgs' | code |] r''];
      try discriminate.
    intros [= <- <-]. destruct (IH r'' imgs' Hsame' eq_refl) as (H1 & H2 & H3).
    split_and!; [exact H1 | cbn; lia |].
    intros [| k] j Hk; cbn in *.
    + injection Hk as <-. exists img. split; [reflexivity | symmetry; exact Hres].
    + apply H3. exact Hk.
Qed.

Lemma preload_images_in_range (r : ImageFolderReader) (ids : list Z) :
  lengths_reconciled r -> (forall i, i ∈ ids -> in_range r i) ->
  forall r0, same_catalog r r0 -> fst (preload_images r0 ids) <> OutOfBounds.
Proof.
  intros Hlen. induction ids as [| i ids IH]; intros Hin r0 Hsame; cbn [preload_images].
  - discriminate.
  - pose proof (getImage_same_catalog r0 i) as Hr'.
    pose proof (getImage_result_same_catalog r r0 i Hsame) as Hres.
    pose proof (getImage_in_range r i Hlen (Hin i (list_elem_of_here _ _))) as Hnot.
    destruct (getImage r0 i) as [[img | code |] r']; cbn [fst snd] in *.
    + assert (Hsame' : same_catalog r r').
      { eapply same_catalog_trans; [exact Hsame | apply same_catalog_sym; exact Hr']. }
      assert (Hin' : forall j, j ∈ ids -> in_range r j).
      { intros j Hj. apply Hin. apply list_elem_of_further. exact Hj. }
      specialize (IH Hin' r' Hsame').
      destruct (preload_images r' ids) as [[imgs' | code |] r'']; cbn in *;
        [discriminate | discriminate | exact IH].
    + discriminate.
    + congruence.
Qed.

Lemma iteration_in_range (r : ImageFolderReader) (imgs : list ImageAndExposure)
    (k : nat) (i : Z) (target : double) (e : env) (st : session) :
  lengths_reconciled r -> same_catalog r (reader st) -> in_range r i ->
  (preload cfg = true -> (k < length imgs)%nat) ->
  fst (iteration imgs (Z.of_nat k) i target e st) <> IndexOutOfBounds.
Proof.
  intros Hlen Hsame Hin Himgs. unfold Main.iteration, Main.fetch_image.
  destruct (preload cfg) eqn:Hpre.
  - rewrite vec_at_lookup. destruct (imgs !! k) as [img |] eqn:E.
    + destruct (bool_decide _ && viewer_isDead e); cbn [fst]; [discriminate |].
      unfold Main.after_frame. destruct (isLost _); discriminate.
    + apply lookup_ge_None in E. specialize (Himgs eq_refl). lia.
  - rewrite anchor_start_reader. change (reader (wait_while_paused e st)) with (reader st).
    pose proof (getImage_result_same_catalog r (reader st) i Hsame) as Hres.
    pose proof (getImage_in_range r i Hlen Hin) as Hnot.
    destruct (getImage (reader st) i) as [[img | code |] r']; cbn [fst] in *.
    + destruct (bool_decide _ && viewer_isDead e); cbn [fst]; [discriminate |].
      unfold Main.after_frame. destruct (isLost _); discriminate.
    + discriminate.
    + congruence.
Qed.

Lemma playback_in_range (r : ImageFolderReader) (p : plan) (imgs : list ImageAndExposure)
    (envs : Z -> env) :
  lengths_reconciled r ->
  length (timesToPlayAt p) = length (idsToPlay p) ->
  (forall i, i ∈ idsToPlay p -> in_range r i) ->
  (preload cfg = true -> length imgs = length (idsToPlay p)) ->
  forall (n k : nat) (st : session),
    (k + n <= length (idsToPlay p))%nat -> same_catalog r (reader st) ->
    fst (playback p imgs envs n (Z.of_nat k) st) <> IndexOutOfBounds.
Proof.
  intros Hlen Htimes Hin Himgs. induction n as [| n IH]; intros k st Hk Hsame.
  - discriminate.
  - cbn [Main.playback]. rewrite !vec_at_lookup.
    destruct (idsToPlay p !! k) as [i |] eqn:Ei; [| apply lookup_ge_None in Ei; lia].
    destruct (timesToPlayAt p !! k) as [target |] eqn:Et; [| apply lookup_ge_None in Et; lia].
    pose proof (iteration_in_range r imgs k i target (envs (Z.of_nat k)) st Hlen Hsame
                  (Hin i (list_elem_of_lookup_2 _ _ _ Ei))) as Hit.
    pose proof (iteration_reader imgs (Z.of_nat k) i target (envs (Z.of_nat k)) st) as Hrd.
    destruct (iteration imgs (Z.of_nat k) i target (envs (Z.of_nat k)) st) as [fl st1].
    cbn [fst snd] in *.
    destruct fl; try discriminate.
    + replace (Z.of_nat k + 1) with (Z.of_nat (S k)) by lia. apply IH; [lia |].
      eapply same_catalog_trans; [exact Hsame | apply same_catalog_sym; exact Hrd].
    + apply Hit. intros Hpre. rewrite (Himgs Hpre). lia.
Qed.

(** X8. With the series lengths [loadTimestamps] leaves, a run indexes a
    vector out of its bounds in one case only: when the plan is empty, and
    then it does so after the loop, at [idsToPlay[0]]. No image, target or
    preloaded image is ever fetched at an index outside its vector. *)
Theorem run_indexing (r : ImageFolderReader) (tv : timeval) (envs : Z -> env) :
  lengths_reconciled r ->
  (fst (runthread r tv envs) = IndexOutOfBounds <-> idsToPlay (the_plan r) = []).
Proof.
  intros Hlen. unfold Main.runthread.
  pose proof (the_plan_lengths cfg r) as Htimes.
  pose proof (the_plan_in_range cfg r) as Hin.
  split.
  - intros Hoob. destruct (idsToPlay (the_plan r)) as [| i0 ids0] eqn:Eids; [reflexivity |].
    exfalso. rewrite <- Eids in *.
    destruct (preload cfg) eqn:Hpre.
    + pose proof (preload_images_in_range r _ Hlen Hin r (same_catalog_refl r)) as Hnot.
      pose proof (preload_images_Ok r (idsToPlay (the_plan r)) r) as Hok.
      destruct (preload_images r (idsToPlay (the_plan r))) as [[imgs | code |] r1];
        cbn [fst] in *; [| discriminate | congruence].
      destruct (Hok r1 imgs (same_catalog_refl r) eq_refl) as (Hsame & Hlenimgs & _).
      pose proof (playback_in_range r (the_plan r) imgs envs Hlen Htimes Hin
                    (fun _ => Hlenimgs) (length (idsToPlay (the_plan r))) 0
                    (initial_session r1 tv) ltac:(lia) Hsame) as Hpb.
      change (Z.of_nat 0) with 0 in Hpb.
      destruct (playback (the_plan r) imgs envs _ 0 (initial_session r1 tv)) as [fl st'].
      cbn [fst] in *. unfold Main.finalize in Hoob. rewrite Eids in Hoob.
      destruct fl; cbn in Hoob; try discriminate. congruence.
    + pose proof (playback_in_range r (the_plan r) [] envs Hlen Htimes Hin
                    ltac:(intros; congruence) (length (idsToPlay (the_plan r))) 0
                    (initial_session r tv) ltac:(lia) (same_catalog_refl r)) as Hpb.
      change (Z.of_nat 0) with 0 in Hpb.
      destruct (playback (the_plan r) [] envs _ 0 (initial_session r tv)) as [fl st'].
      cbn [fst] in *. unfold Main.finalize in Hoob. rewrite Eids in Hoob.
      destruct fl; cbn in Hoob; try discriminate. congruence.
  - intros Hnil. rewrite Hnil. cbn [preload_images length Main.playback].
    destruct (preload cfg); cbn; unfold Main.finalize; rewrite Hnil; reflexivity.
Qed.

(** *** An empty selection *)

Lemma stride_nil (a step : Z) (n : nat) : stride a step n = [] <-> n = 0%nat.
Proof.
  destruct n as [| n]; [split; reflexivity |]. rewrite stride_S. split; discriminate.
Qed.

Lemma the_plan_empty (r : ImageFolderReader) :
  idsToPlay (the_plan r) = []
  <-> if reverse cfg
      then Z.min (endIndex cfg) (getNumImages r) - 1 <= Z.max (startIndex cfg) (-1)
      else startIndex cfg < 0 \/ Z.min (endIndex cfg) (getNumImages r) <= startIndex cfg.
Proof.
  rewrite the_plan_ids. destruct (reverse cfg).
  - rewrite stride_nil. lia.
  - destruct (Z.leb_spec 0 (startIndex cfg)).
    + rewrite stride_nil. lia.
    + split; [intros _; left; lia | reflexivity].
Qed.

Lemma runthread_empty_plan (r : ImageFolderReader) (tv : timeval) (envs : Z -> env) :
  idsToPlay (the_plan r) = [] ->
  runthread r tv envs
  = (IndexOutOfBounds, log (initial_session r tv) [BlockUntilMappingIsFinished; PrintResult]).
Proof.
  intros Hnil. unfold Main.runthread. rewrite Hnil. cbn [preload_images length Main.playback].
  destruct (preload cfg); unfold Main.finalize; rewrite Hnil; reflexivity.
Qed.

(** X9. The selection of frames is empty exactly when, played forward,
    [startIndex] is negative or not below [min(endIndex, N)], and, played in
    reverse, [min(endIndex, N) - 1] is not above [max(startIndex, -1)]; a
    catalog without images always gives an empty selection. The thread then
    runs no iteration, blocks until the mapping is finished and prints the
    result, and then reads [idsToPlay[0]] of the empty vector. *)
Theorem empty_selection (r : ImageFolderReader) (tv : timeval) (envs : Z -> env) :
  (idsToPlay (the_plan r) = []
   <-> if reverse cfg
       then Z.min (endIndex cfg) (getNumImages r) - 1 <= Z.max (startIndex cfg) (-1)
       else startIndex cfg < 0 \/ Z.min (endIndex cfg) (getNumImages r) <= startIndex cfg)
  /\ (getNumImages r = 0 -> idsToPlay (the_plan r) = [])
  /\ (idsToPlay (the_plan r) = [] ->
      runthread r tv envs
      = (IndexOutOfBounds,
         log (initial_session r tv) [BlockUntilMappingIsFinished; PrintResult])).
Proof.
  split_and!.
  - apply the_plan_empty.
  - intros HN. apply the_plan_empty. rewrite HN. destruct (reverse cfg); lia.
  - apply runthread_empty_plan.
Qed.

(** *** A run that nothing disturbs *)

Section Undisturbed.

Hypothesis unpaced : f32_eqb (playbackSpeed cfg) (f32_of_int 0) = true.
Hypothesis fresh_not_lost : isLost new_FullSystem = false.
Hypothesis never_lost : forall fs img i, isLost (addActiveFrame fs img i) = false.

Lemma handle_reset_not_lost (ii : Z) (st : session) :
  isLost (fullSystem st) = false -> isLost (fullSystem (handle_reset ii st)) = false.
Proof.
  intros H. unfold Main.handle_reset.
  destruct (initFailed (fullSystem st) || setting_fullResetRequested st); [| exact H].
  destruct ((ii <? 250) || setting_fullResetRequested st); [| exact H].
  exact fresh_not_lost.
Qed.

Lemma iteration_undisturbed (imgs : list ImageAndExposure) (ii i : Z) (target : double)
    (e : env) (st st1 : session) (img : ImageAndExposure) :
  fetch_image imgs ii i (anchor_start target e (wait_while_paused e st)) = (Ok img, st1) ->
  bool_decide (is_Some (viewer cfg)) && viewer_isDead e = false ->
  exists st', iteration imgs ii i target e st = (Next, st')
              /\ fed (events st') = fed (events st) ++ [i].
Proof.
  intros Hfetch Hview.
  pose proof (iteration_fed new_FullSystem addActiveFrame cfg imgs ii i target e st st1 img
                Hfetch) as Hfed.
  unfold Main.pacing_of in Hfed. rewrite (pace_unpaced _ _ _ _ unpaced) in Hfed.
  cbn [skipFrame] in Hfed.
  unfold Main.iteration in *. rewrite Hfetch in *. rewrite Hview in *.
  unfold Main.pacing_of in *. rewrite (pace_unpaced _ _ _ _ unpaced) in *.
  unfold Main.after_frame in *.
  rewrite handle_reset_not_lost in * by apply never_lost.
  eexists. split; [reflexivity | exact Hfed].
Qed.

Lemma playback_undisturbed (r : ImageFolderReader) (p : plan)
    (imgs : list ImageAndExposure) (envs : Z -> env) :
  length (timesToPlayAt p) = length (idsToPlay p) ->
  (forall ii, bool_decide (is_Some (viewer cfg)) && viewer_isDead (envs ii) = false) ->
  (if preload cfg then length imgs = length (idsToPlay p)
   else forall i, i ∈ idsToPlay p -> exists img, fst (getImage r i) = Ok img) ->
  forall (n k : nat) (st : session),
    (k + n <= length (idsToPlay p))%nat -> same_catalog r (reader st) ->
    exists st', playback p imgs envs n (Z.of_nat k) st = (Next, st')
                /\ fed (events st') = fed (events st) ++ take n (drop k (idsToPlay p)).
Proof.
  intros Htimes Hview Himgs. induction n as [| n IH]; intros k st Hk Hsame.
  - exists st. cbn. rewrite app_nil_r. auto.
  - cbn [Main.playback]. rewrite !vec_at_lookup.
    destruct (idsToPlay p !! k) as [i |] eqn:Ei; [| apply lookup_ge_None in Ei; lia].
    destruct (timesToPlayAt p !! k) as [target |] eqn:Et; [| apply lookup_ge_None in Et; lia].
    assert (Hfetch : exists img st1,
               fetch_image imgs (Z.of_nat k) i
                 (anchor_start target (envs (Z.of_nat k))
                    (wait_while_paused (envs (Z.of_nat k)) st)) = (Ok img, st1)).
    { unfold Main.fetch_image. destruct (preload cfg).
      - rewrite vec_at_lookup. destruct (imgs !! k) as [img |] eqn:E; [eauto |].
        apply lookup_ge_None in E. lia.
      - rewrite anchor_start_reader.
        change (reader (wait_while_paused (envs (Z.of_nat k)) st)) with (reader st).
        destruct (Himgs i (list_elem_of_lookup_2 _ _ _ Ei)) as [img Himg].
        rewrite <- (getImage_result_same_catalog r (reader st) i Hsame) in Himg.
        destruct (getImage (reader st) i) as [o r']. cbn [fst] in Himg. subst o. eauto. }
    destruct Hfetch as (img & st1 & Hfetch).
    destruct (iteration_undisturbed imgs (Z.of_nat k) i target (envs (Z.of_nat k)) st st1 img
                Hfetch (Hview _)) as (st2 & Hit & Hfed).
    pose proof (iteration_reader imgs (Z.of_nat k) i target (envs (Z.of_nat k)) st) as Hrd.
    rewrite Hit in *. cbn [snd] in Hrd.
    replace (Z.of_nat k + 1) with (Z.of_nat (S k)) by lia.
    destruct (IH (S k) st2 ltac:(lia)) as (st' & Hpb & Hfed').
    { eapply same_catalog_trans; [exact Hsame | apply same_catalog_sym; exact Hrd]. }
    exists st'. split; [exact Hpb |].
    rewrite Hfed', Hfed, <- app_assoc. rewrite (drop_S _ _ _ Ei). reflexivity.
Qed.

Lemma preload_images_total (r : ImageFolderReader) (ids : list Z) :
  (forall i, i ∈ ids -> exists img, fst (getImage r i) = Ok img) ->
  forall r0, same_catalog r r0 ->
    exists imgs r1, preload_images r0 ids = (Ok imgs, r1).
Proof.
  induction ids as [| i ids IH]; intros Himgs r0 Hsame; cbn [preload_images].
  - eauto.
  - pose proof (getImage_same_catalog r0 i) as Hr'.
    pose proof (getImage_result_same_catalog r r0 i Hsame) as Hres.
    destruct (Himgs i (list_elem_of_here _ _)) as [img Himg]. rewrite Himg in Hres.
    destruct (getImage r0 i) as [o r']. cbn [fst snd] in *. subst o.
    destruct (IH (fun j Hj => Himgs j (list_elem_of_further _ _ _ Hj)) r') as (imgs & r1 & ->).
    { eapply same_catalog_trans; [exact Hsame | apply same_catalog_sym; exact Hr']. }
    eauto.
Qed.

(** X10. A run that nothing disturbs plays the whole plan. When playback
    is not paced (speed 0), the engine never reports that it is lost, the
    display stays alive and every image of the plan can be read, the thread
    hands every id of a non-empty plan to the engine, once and in plan order,
    whether the images are preloaded or not and whatever resets happen on
    the way, and then runs the finalization to its end. *)
Theorem undisturbed_run_plays_the_plan
    (r : ImageFolderReader) (tv : timeval) (envs : Z -> env) :
  (forall ii, bool_decide (is_Some (viewer cfg)) && viewer_isDead (envs ii) = false) ->
  (forall i, i ∈ idsToPlay (the_plan r) -> exists img, fst (getImage r i) = Ok img) ->
  idsToPlay (the_plan r) <> [] ->
  fst (runthread r tv envs) = Returned
  /\ fed (events (snd (runthread r tv envs))) = idsToPlay (the_plan r)
  /\ exists evs, events (snd (runthread r tv envs))
                 = evs ++ finalization_events (setting_logStuff cfg)
                 /\ fed evs = idsToPlay (the_plan r).
Proof.
  intros Hview Himgs Hne.
  pose proof (the_plan_lengths cfg r) as Htimes.
  assert (Hrun : exists st', runthread r tv envs
                             = (Returned, log st' (finalization_events (setting_logStuff cfg)))
                             /\ fed (events st') = idsToPlay (the_plan r)).
  { unfold Main.runthread. destruct (preload cfg) eqn:Hpre.
    - destruct (preload_images_total r _ Himgs r (same_catalog_refl r)) as (imgs & r1 & Hpl).
      rewrite Hpl.
      destruct (preload_images_Ok r _ r r1 imgs (same_catalog_refl r) Hpl) as (Hsame & Hlen & _).
      destruct (playback_undisturbed r (the_plan r) imgs envs Htimes Hview
                  ltac:(rewrite Hpre; exact Hlen) (length (idsToPlay (the_plan r))) 0
                  (initial_session r1 tv) ltac:(lia) Hsame) as (st' & Hpb & Hfed).
      change (Z.of_nat 0) with 0 in Hpb. rewrite Hpb.
      rewrite drop_0, take_ge in Hfed by lia.
      exists st'. split; [apply finalize_events; exact Hne | exact Hfed].
    - destruct (playback_undisturbed r (the_plan r) [] envs Htimes Hview
                  ltac:(rewrite Hpre; exact Himgs) (length (idsToPlay (the_plan r))) 0
                  (initial_session r tv) ltac:(lia) (same_catalog_refl r))
        as (st' & Hpb & Hfed).
      change (Z.of_nat 0) with 0 in Hpb. rewrite Hpb.
      rewrite drop_0, take_ge in Hfed by lia.
      exists st'. split; [apply finalize_events; exact Hne | exact Hfed]. }
  destruct Hrun as (st' & Hrun & Hfed). rewrite Hrun. cbn [fst snd events log].
  split_and!.
  - reflexivity.
  - rewrite fed_app, Hfed. unfold finalization_events.
    destruct (setting_logStuff cfg); cbn; rewrite app_nil_r; reflexivity.
  - exists (events st'). split; [reflexivity | exact Hfed].
Qed.

End Undisturbed.

End Run.

(** *** Preloading *)

Section Preload.

Variable new_FullSystem : FullSystem.
Variable addActiveFrame : FullSystem -> ImageAndExposure -> Z -> FullSystem.
Variable cfg : config.

Local Abbreviation after_frame := (after_frame new_FullSystem cfg).
Local Abbreviation feed_frame := (feed_frame addActiveFrame).

Lemma handle_reset_set_reader (c : config) (ii : Z) (st : session) (rd : ImageFolderReader) :
  same_catalog (reader st) rd ->
  Main.handle_reset new_FullSystem c ii (set_reader st rd)
  = set_reader (Main.handle_reset new_FullSystem c ii st) rd.
Proof.
  intros Hsame. apply same_catalog_fields in Hsame as (_ & _ & _ & Hg).
  unfold Main.handle_reset. cbn [fullSystem setting_fullResetRequested set_reader].
  destruct (initFailed (fullSystem st) || setting_fullResetRequested st); [| reflexivity].
  destruct ((ii <? 250) || setting_fullResetRequested st); [| reflexivity].
  unfold set_reader, set_fullResetRequested, set_fullSystem, log, Main.fresh_engine,
    getPhotometricGamma. cbn. rewrite Hg. reflexivity.
Qed.

Lemma after_frame_set_reader (c : config) (ii : Z) (st : session) (rd : ImageFolderReader) :
  same_catalog (reader st) rd ->
  Main.after_frame new_FullSystem c ii (set_reader st rd)
  = (fst (Main.after_frame new_FullSystem c ii st),
     set_reader (snd (Main.after_frame new_FullSystem c ii st)) rd).
Proof.
  intros Hsame. unfold Main.after_frame. rewrite (handle_reset_set_reader c ii st rd Hsame).
  cbn [fullSystem set_reader]. destruct (isLost _); reflexivity.
Qed.

Lemma after_frame_preload (b : bool) (ii : Z) (st : session) :
  Main.after_frame new_FullSystem (set_preload cfg b) ii st = after_frame ii st.
Proof. reflexivity. Qed.

Lemma wait_while_paused_set_reader (e : env) (st : session) (rd : ImageFolderReader) :
  wait_while_paused e (set_reader st rd) = set_reader (wait_while_paused e st) rd.
Proof. reflexivity. Qed.

Lemma anchor_start_set_reader (target : double) (e : env) (st : session)
    (rd : ImageFolderReader) :
  anchor_start target e (set_reader st rd) = set_reader (anchor_start target e st) rd.
Proof.
  unfold anchor_start. cbn [fullSystem set_reader].
  destruct (negb (initialized (fullSystem st))); reflexivity.
Qed.

Lemma feed_frame_set_reader (pc : pacing) (ii i : Z) (img : ImageAndExposure)
    (st : session) (rd : ImageFolderReader) :
  feed_frame pc ii i img (set_reader st rd) = set_reader (feed_frame pc ii i img st) rd.
Proof. unfold Main.feed_frame. destruct pc; reflexivity. Qed.

(** One iteration of the loop reading its image from the reader [rd],
    against the same iteration taking the same image from the preloaded
    ones. *)
Lemma iteration_preloaded (imgs imgs' : list ImageAndExposure) (k : nat) (i : Z)
    (target : double) (e : env) (st : session) (rd : ImageFolderReader)
    (img : ImageAndExposure) :
  same_catalog (reader st) rd ->
  imgs !! k = Some img -> fst (getImage rd i) = Ok img ->
  Main.iteration new_FullSystem addActiveFrame (set_preload cfg false) imgs' (Z.of_nat k) i
    target e (set_reader st rd)
  = (fst (Main.iteration new_FullSystem addActiveFrame (set_preload cfg true) imgs
            (Z.of_nat k) i target e st),
     set_reader (snd (Main.iteration new_FullSystem addActiveFrame (set_preload cfg true) imgs
                        (Z.of_nat k) i target e st))
                (snd (getImage rd i))).
Proof.
  intros Hsame Himg Hget.
  pose proof (getImage_same_catalog rd i) as Hrd'.
  unfold Main.iteration, Main.fetch_image. cbn [preload set_preload viewer].
  rewrite vec_at_lookup, Himg.
  rewrite wait_while_paused_set_reader, anchor_start_set_reader.
  set (st1 := anchor_start target e (wait_while_paused e st)).
  cbn [reader set_reader].
  destruct (getImage rd i) as [o rd']. cbn [fst snd] in *. subst o.
  assert (Hsame1 : same_catalog (reader st1) rd').
  { unfold st1. rewrite anchor_start_reader. cbn.
    eapply same_catalog_trans; [exact Hsame | apply same_catalog_sym; exact Hrd']. }
  change (set_reader (set_reader st1 rd) rd') with (set_reader st1 rd').
  replace (Main.pacing_of (set_preload cfg false) (Z.of_nat k) target e (set_reader st1 rd'))
    with (Main.pacing_of (set_preload cfg true) (Z.of_nat k) target e st1) by reflexivity.
  set (pc := Main.pacing_of (set_preload cfg true) (Z.of_nat k) target e st1).
  rewrite feed_frame_set_reader.
  set (st2 := feed_frame pc (Z.of_nat k) i img st1).
  assert (Hsame2 : same_catalog (reader st2) rd').
  { unfold st2. rewrite feed_frame_reader. exact Hsame1. }
  destruct (bool_decide (is_Some (viewer cfg)) && viewer_isDead e); [reflexivity |].
  change (set_fullResetRequested (set_reader st2 rd')
            (setting_fullResetRequested (set_reader st2 rd') || reset_requested e))
    with (set_reader (set_fullResetRequested st2
                        (setting_fullResetRequested st2 || reset_requested e)) rd').
  rewrite !after_frame_preload. apply after_frame_set_reader. exact Hsame2.
Qed.

Lemma playback_preloaded (r : ImageFolderReader) (p : plan)
    (imgs imgs' : list ImageAndExposure) (envs : Z -> env) :
  (forall (k : nat) (i : Z), idsToPlay p !! k = Some i ->
     exists img, imgs !! k = Some img /\ fst (getImage r i) = Ok img) ->
  forall (n k : nat) (st : session) (rd : ImageFolderReader),
    same_catalog r (reader st) -> same_catalog r rd ->
    exists rd', same_catalog r rd'
      /\ Main.playback new_FullSystem addActiveFrame (set_preload cfg false) p imgs' envs n
           (Z.of_nat k) (set_reader st rd)
         = (fst (Main.playback new_FullSystem addActiveFrame (set_preload cfg true) p imgs envs n
                   (Z.of_nat k) st),
            set_reader (snd (Main.playback new_FullSystem addActiveFrame (set_preload cfg true)
                               p imgs envs n (Z.of_nat k) st)) rd').
Proof.
  intros Himgs. induction n as [| n IH]; intros k st rd Hst Hrd.
  - exists rd. split; [exact Hrd | reflexivity].
  - cbn [Main.playback]. rewrite !vec_at_lookup.
    destruct (idsToPlay p !! k) as [i |] eqn:Ei;
      [| exists rd; split; [exact Hrd | reflexivity]].
    destruct (timesToPlayAt p !! k) as [target |] eqn:Et;
      [| exists rd; split; [exact Hrd | reflexivity]].
    destruct (Himgs k i Ei) as (img & Himg & Hget).
    rewrite <- (getImage_result_same_catalog r rd i Hrd) in Hget.
    assert (Hsame : same_catalog (reader st) rd).
    { eapply same_catalog_trans; [apply same_catalog_sym; exact Hst | exact Hrd]. }
    rewrite (iteration_preloaded imgs imgs' k i target (envs (Z.of_nat k)) st rd img
               Hsame Himg Hget).
    pose proof (getImage_same_catalog rd i) as Hrd'.
    assert (Hrd1 : same_catalog r (snd (getImage rd i))).
    { eapply same_catalog_trans; [exact Hrd | apply same_catalog_sym; exact Hrd']. }
    assert (Hst1 : same_catalog r
              (reader (snd (Main.iteration new_FullSystem addActiveFrame (set_preload cfg true)
                              imgs (Z.of_nat k) i target (envs (Z.of_nat k)) st)))).
    { eapply same_catalog_trans; [exact Hst |].
      apply same_catalog_sym, iteration_reader. }
    destruct (Main.iteration new_FullSystem addActiveFrame (set_preload cfg true) imgs
                (Z.of_nat k) i target (envs (Z.of_nat k)) st) as [fl st1].
    cbn [fst snd] in *.
    destruct fl; try (exists (snd (getImage rd i)); split; [exact Hrd1 | reflexivity]).
    replace (Z.of_nat k + 1) with (Z.of_nat (S k)) by lia.
    apply IH; assumption.
Qed.

Lemma finalize_set_reader (b : bool) (p : plan) (st : session) (rd : ImageFolderReader) :
  Main.finalize (set_preload cfg b) p (set_reader st rd)
  = (fst (Main.finalize cfg p st), set_reader (snd (Main.finalize cfg p st)) rd).
Proof. unfold Main.finalize. destruct (idsToPlay p); reflexivity. Qed.

Lemma initial_session_same_catalog (b b' : bool) (r r1 : ImageFolderReader) (tv : timeval) :
  same_catalog r r1 ->
  Main.initial_session new_FullSystem (set_preload cfg b) r tv
  = set_reader (Main.initial_session new_FullSystem (set_preload cfg b') r1 tv) r.
Proof.
  intros Hsame. apply same_catalog_fields in Hsame as (_ & _ & _ & Hg).
  unfold Main.initial_session, Main.initial_engine, Main.fresh_engine, getPhotometricGamma,
    set_reader. cbn. rewrite Hg. reflexivity.
Qed.

(** X11. Preloading changes nothing of a run but the time at which the
    images are read. For the same readings of the clock and the same
    behaviour of the engine and the display, when all the images of the
    plan can be read ahead, the run that preloads them and the run that
    reads each image in its iteration end the same way, with the same
    events in the same order and the same engine; the two readers differ at
    most in the archive buffer.
    When reading ahead ends the process instead, it does so before any frame
    is handed to the engine. *)
Theorem preloading_changes_nothing
    (r r1 : ImageFolderReader) (tv : timeval) (envs : Z -> env) :
  (forall imgs : list ImageAndExposure,
      preload_images r (idsToPlay (Main.the_plan cfg r)) = (Ok imgs, r1) ->
      let preloaded := Main.runthread new_FullSystem addActiveFrame (set_preload cfg true)
                         r tv envs in
      let streamed := Main.runthread new_FullSystem addActiveFrame (set_preload cfg false)
                        r tv envs in
      fst streamed = fst preloaded
      /\ events (snd streamed) = events (snd preloaded)
      /\ fullSystem (snd streamed) = fullSystem (snd preloaded)
      /\ tv_start (snd streamed) = tv_start (snd preloaded)
      /\ sInitializerOffset (snd streamed) = sInitializerOffset (snd preloaded)
      /\ setting_fullResetRequested (snd streamed) = setting_fullResetRequested (snd preloaded)
      /\ same_catalog (reader (snd streamed)) (reader (snd preloaded)))
  /\ (forall code : Z,
      preload_images r (idsToPlay (Main.the_plan cfg r)) = (Exit code, r1) ->
      fst (Main.runthread new_FullSystem addActiveFrame (set_preload cfg true) r tv envs)
      = ProcessExit code
      /\ events (snd (Main.runthread new_FullSystem addActiveFrame (set_preload cfg true)
                        r tv envs)) = []).
Proof.
  split.
  - intros imgs Hpre. cbv zeta.
    destruct (preload_images_Ok r _ r r1 imgs (same_catalog_refl r) Hpre) as (Hsame & _ & Himgs).
    assert (Hrun : exists rd, same_catalog r rd
              /\ Main.runthread new_FullSystem addActiveFrame (set_preload cfg false) r tv envs
                 = (fst (Main.runthread new_FullSystem addActiveFrame (set_preload cfg true)
                           r tv envs),
                    set_reader (snd (Main.runthread new_FullSystem addActiveFrame
                                       (set_preload cfg true) r tv envs)) rd)).
    { unfold Main.runthread. cbn [preload set_preload].
      change (Main.the_plan (set_preload cfg true) r) with (Main.the_plan cfg r).
      change (Main.the_plan (set_preload cfg false) r) with (Main.the_plan cfg r).
      rewrite Hpre.
      rewrite (initial_session_same_catalog false true r r1 tv Hsame).
      destruct (playback_preloaded r (Main.the_plan cfg r) imgs [] envs Himgs
                  (length (idsToPlay (Main.the_plan cfg r))) 0
                  (Main.initial_session new_FullSystem (set_preload cfg true) r1 tv) r
                  Hsame (same_catalog_refl r)) as (rd & Hrd & Hpb).
      change (Z.of_nat 0) with 0 in Hpb. rewrite Hpb.
      destruct (Main.playback new_FullSystem addActiveFrame (set_preload cfg true)
                  (Main.the_plan cfg r) imgs envs _ 0 _) as [fl st']. cbn [fst snd].
      exists rd. split; [exact Hrd |].
      destruct fl; try reflexivity; apply finalize_set_reader. }
    destruct Hrun as (rd & Hrd & ->). cbn [fst snd].
    split_and!; try reflexivity. cbn [reader set_reader].
    unfold Main.runthread. cbn [preload set_preload].
    change (Main.the_plan (set_preload cfg true) r) with (Main.the_plan cfg r).
    rewrite Hpre.
    pose proof (playback_reader_same new_FullSystem addActiveFrame (set_preload cfg true)
                  (Main.the_plan cfg r) imgs envs (length (idsToPlay (Main.the_plan cfg r))) 0
                  (Main.initial_session new_FullSystem (set_preload cfg true) r1 tv)) as Hpb.
    destruct (Main.playback new_FullSystem addActiveFrame (set_preload cfg true)
                (Main.the_plan cfg r) imgs envs _ 0 _) as [fl st']. cbn [snd] in Hpb.
    assert (Hst' : same_catalog rd (reader st')).
    { eapply same_catalog_trans; [apply same_catalog_sym; exact Hrd |].
      eapply same_catalog_trans; [exact Hsame | apply same_catalog_sym; exact Hpb]. }
    destruct fl; cbn [snd]; try exact Hst';
      unfold Main.finalize; destruct (idsToPlay _); exact Hst'.
  - intros code Hpre. unfold Main.runthread. cbn [preload set_preload].
    change (Main.the_plan (set_preload cfg true) r) with (Main.the_plan cfg r).
    rewrite Hpre. split; reflexivity.
Qed.

End Preload.

(** *** Instances *)

Import Examples Setups.

Lemma run_indexing_witness :
  fst (runthread engine0 (lost_at 1) cfg0 (folder 0 []) tv0 quiet) = IndexOutOfBounds
  /\ fst (runthread engine0 (lost_at 1) cfg0 three_frames tv0 quiet) <> IndexOutOfBounds.
Proof.
  split.
  - apply (run_indexing engine0 (lost_at 1) cfg0 (folder 0 []) tv0 quiet).
    + split; left; reflexivity.
    + reflexivity.
  - intros H.
    apply (run_indexing engine0 (lost_at 1) cfg0 three_frames tv0 quiet) in H.
    + vm_compute in H. discriminate.
    + split; right; reflexivity.
Defined.

Lemma undisturbed_run_plays_the_plan_witness :
  fst (runthread engine0 tracking cfg0 three_frames tv0 quiet) = Returned
  /\ fed (events (snd (runthread engine0 tracking cfg0 three_frames tv0 quiet))) = [0; 1; 2].
Proof.
  destruct (undisturbed_run_plays_the_plan engine0 tracking cfg0 eq_refl eq_refl
              (fun _ _ _ => eq_refl) three_frames tv0 quiet) as (H1 & H2 & _).
  - intros ii. reflexivity.
  - intros i Hi. change (i ∈ [0; 1; 2]) in Hi. apply list_elem_of_In in Hi. cbn in Hi.
    destruct Hi as [<- | [<- | [<- | []]]]; eexists; reflexivity.
  - vm_compute. discriminate.
  - split; [exact H1 | exact H2].
Defined.

Lemma preloading_changes_nothing_witness :
  events (snd (runthread engine0 tracking (set_preload cfg0 false) three_frames tv0 quiet))
  = events (snd (runthread engine0 tracking (set_preload cfg0 true) three_frames tv0 quiet)).
Proof.
  destruct (preloading_changes_nothing engine0 tracking cfg0 three_frames three_frames tv0
              quiet) as (H & _).
  exact (proj1 (proj2 (H (map (fun k => {| image := readImageBW_8U "img.png";
                                           exposure_time := f32_of_int 1;
                                           timestamp := f64_of_int k |}) [0; 1; 2])
                         eq_refl))).
Defined.

End RunProperties.

Module DirectoryProperties.
Import DatasetReader Directory Construction Main ReaderProperties RunProperties.

(** *** The order of [std::string] *)

Lemma string_compare_refl (s : string) : String.compare s s = Eq.
Proof.
  induction s as [| c s IH]; [reflexivity |]. cbn.
  unfold Ascii.compare. rewrite N.compare_refl. exact IH.
Qed.

Lemma string_compare_trans (c : comparison) :
  forall s1 s2 s3 : string,
    String.compare s1 s2 = c -> String.compare s2 s3 = c -> String.compare s1 s3 = c.
Proof.
  induction s1 as [| a1 s1 IH]; intros [| a2 s2] [| a3 s3]; cbn; try congruence.
  unfold Ascii.compare.
  destruct (N.compare_spec (Ascii.N_of_ascii a1) (Ascii.N_of_ascii a2)) as [E12 | L12 | G12];
    destruct (N.compare_spec (Ascii.N_of_ascii a2) (Ascii.N_of_ascii a3)) as [E23 | L23 | G23];
    destruct (N.compare_spec (Ascii.N_of_ascii a1) (Ascii.N_of_ascii a3)) as [E13 | L13 | G13];
    try lia; try congruence.
  apply IH.
Qed.

Lemma string_le_refl (s : string) : string_le s s.
Proof. unfold string_le, String.leb. rewrite string_compare_refl. exact I. Qed.

Lemma string_le_trans : Transitive string_le.
Proof.
  intros s1 s2 s3. unfold string_le, String.leb.
  destruct (String.compare s1 s2) eqn:E12; destruct (String.compare s2 s3) eqn:E23;
    cbn; try contradiction; intros _ _.
  - rewrite (string_compare_trans Eq s1 s2 s3 E12 E23). exact I.
  - apply String.compare_eq_iff in E12. subst. rewrite E23. exact I.
  - apply String.compare_eq_iff in E23. subst. rewrite E12. exact I.
  - rewrite (string_compare_trans Lt s1 s2 s3 E12 E23). exact I.
Qed.

Lemma string_le_total : Total string_le.
Proof.
  intros s1 s2. unfold string_le.
  destruct (String.leb_total s1 s2) as [H | H]; rewrite H; cbn; auto.
Qed.

Lemma string_le_antisym : AntiSymm eq string_le.
Proof.
  intros s1 s2 H1 H2. unfold string_le in *. apply String.leb_antisym; apply Is_true_true; assumption.
Qed.

(** A common prefix does not change the order. *)
Lemma string_compare_app (p a b : string) :
  String.compare (p ++ a) (p ++ b) = String.compare a b.
Proof.
  induction p as [| c p IH]; [reflexivity |].
  change (String.compare (String c (p ++ a)) (String c (p ++ b)) = String.compare a b).
  cbn [String.compare]. unfold Ascii.compare. rewrite N.compare_refl. exact IH.
Qed.

Lemma string_le_app (p a b : string) : string_le (p ++ a) (p ++ b) <-> string_le a b.
Proof. unfold string_le, String.leb. rewrite string_compare_app. reflexivity. Qed.

(** *** Sorting the names *)

Lemma sort_files_Permutation (files : list string) : sort_files files ≡ₚ files.
Proof. apply merge_sort_Permutation. Qed.

Lemma sort_files_sorted (files : list string) : StronglySorted string_le (sort_files files).
Proof.
  apply (@StronglySorted_merge_sort _ string_le _ string_le_trans string_le_total).
Qed.

(** The sorted vector is the only sorted arrangement of the names. *)
Lemma sorted_files_unique (files sorted : list string) :
  sorted ≡ₚ files -> StronglySorted string_le sorted -> sorted = sort_files files.
Proof.
  intros Hperm Hsorted.
  apply (@StronglySorted_unique _ string_le string_le_antisym); [exact Hsorted | |].
  - apply sort_files_sorted.
  - rewrite Hperm. symmetry. apply sort_files_Permutation.
Qed.

(** *** [getdir] *)

Lemma string_get_lt (s : string) :
  forall n : nat, (n < String.length s)%nat -> exists c, String.get n s = Some c.
Proof.
  induction s as [| a s IH]; intros n Hn; cbn in Hn; [lia |].
  destruct n as [| n]; cbn; [eauto |]. apply IH. lia.
Qed.

Lemma string_at_last (s : string) :
  s <> ""%string -> exists c, string_at s (length_minus_1 s) = Done c.
Proof.
  intros Hne. unfold string_at, length_minus_1.
  assert (Hlen : (0 < String.length s)%nat).
  { destruct s; [contradiction | cbn; lia]. }
  destruct (Z.eqb_spec (Z.of_nat (String.length s)) 0) as [E | _]; [lia |].
  destruct (Z.ltb_spec (Z.of_nat (String.length s) - 1) (Z.of_nat (String.length s))); [| lia].
  destruct (string_get_lt s (Z.to_nat (Z.of_nat (String.length s) - 1)) ltac:(lia)) as [c ->].
  eauto.
Qed.

Lemma slashed_cases (dir : string) :
  slashed dir = dir \/ slashed dir = (dir ++ "/")%string.
Proof.
  unfold slashed. destruct (string_at dir (length_minus_1 dir)) as [c |]; [| auto].
  destruct (negb (Ascii.eqb c slash)); auto.
Qed.

Lemma with_dir_plain (dir f : string) :
  plain_name f -> with_dir dir f = Done (dir ++ f)%string.
Proof.
  destruct f as [| c f]; [contradiction |]. intros Hc. change (c <> slash) in Hc.
  unfold with_dir, string_at. cbn [String.length].
  destruct (Z.ltb_spec 0 (Z.of_nat (S (String.length f)))); [| lia].
  change (String.get (Z.to_nat 0) (String c f)) with (Some c).
  apply Ascii.eqb_neq in Hc. cbv iota beta. rewrite Hc. reflexivity.
Qed.

Lemma prefix_files_plain (dir : string) (files : list string) :
  Forall plain_name files -> prefix_files dir files = Done (map (String.append dir) files).
Proof.
  induction 1 as [| f files Hf _ IH]; [reflexivity |].
  cbn [prefix_files map]. rewrite (with_dir_plain dir f Hf), IH. reflexivity.
Qed.

Lemma elem_of_kept (names : list string) (name : string) :
  name ∈ filter (fun name => keep_entry name = true) names
  <-> name ∈ names /\ name <> "."%string /\ name <> ".."%string.
Proof.
  rewrite list_elem_of_filter. unfold keep_entry.
  rewrite andb_true_iff, !negb_true_iff, !String.eqb_neq. tauto.
Qed.

Lemma kept_plain (names : list string) :
  Forall plain_name names ->
  Forall plain_name (sort_files (filter (fun name => keep_entry name = true) names)).
Proof.
  intros Hplain. rewrite sort_files_Permutation. rewrite Forall_forall in *.
  intros x Hx. apply list_elem_of_filter in Hx as [_ Hx]. apply Hplain. exact Hx.
Qed.

Lemma getdir_plain (dir : string) (names : list string) :
  dir <> ""%string -> Forall plain_name names ->
  getdir dir (Some names) []
  = Done (size (filter (fun name => keep_entry name = true) names),
          map (String.append (slashed dir))
            (sort_files (filter (fun name => keep_entry name = true) names))).
Proof.
  intros Hdir Hplain. unfold getdir. cbn [app].
  destruct (string_at_last dir Hdir) as [c Hc]. rewrite Hc.
  replace (if negb (Ascii.eqb c slash) then (dir ++ "/")%string else dir)
    with (slashed dir) by (unfold slashed; rewrite Hc; reflexivity).
  rewrite (prefix_files_plain _ _ (kept_plain names Hplain)). f_equal. f_equal.
  unfold size. rewrite length_map.
  rewrite (Permutation_length (sort_files_Permutation _)). reflexivity.
Qed.

Lemma prefixed_sorted (dir : string) (files : list string) :
  StronglySorted string_le (map (String.append dir) (sort_files files)).
Proof.
  apply (StronglySorted_fmap (String.append dir) string_le string_le).
  - intros x y Hxy. apply string_le_app. exact Hxy.
  - apply sort_files_sorted.
Qed.

(** X12. [getdir] on a directory that cannot be opened returns -1 and
    leaves [files] as it is. Called with an empty vector on a directory
    that opens, whose name is not empty and whose names are as [readdir]
    gives them, it returns the number of names other than "." and "..",
    and leaves in [files] exactly those names, each once per occurrence,
    each behind the directory name with one slash, in ascending order of
    [std::string]; the vector is the only sorted arrangement of them. *)
Theorem getdir_catalog (dir : string) (names files0 : list string) :
  getdir dir None files0 = Done (-1, files0)
  /\ (dir <> ""%string -> Forall plain_name names ->
      let kept := filter (fun name => keep_entry name = true) names in
      let files := map (String.append (slashed dir)) (sort_files kept) in
      getdir dir (Some names) [] = Done (size kept, files)
      /\ files ≡ₚ map (String.append (slashed dir)) kept
      /\ StronglySorted string_le files
      /\ (forall sorted, sorted ≡ₚ kept -> StronglySorted string_le sorted ->
                         files = map (String.append (slashed dir)) sorted)
      /\ (forall f, f ∈ files
                    <-> exists name, name ∈ names /\ name <> "."%string /\ name <> ".."%string
                                     /\ f = (slashed dir ++ name)%string)).
Proof.
  split_and!.
  - reflexivity.
  - intros Hdir Hplain kept files.
    split_and!.
    + apply getdir_plain; assumption.
    + unfold files. apply Permutation_map. apply sort_files_Permutation.
    + apply prefixed_sorted.
    + intros sorted Hperm Hsorted. unfold files.
      rewrite (sorted_files_unique kept sorted Hperm Hsorted). reflexivity.
    + intros f. unfold files. rewrite list_elem_of_fmap. split.
      * intros (name & -> & Hin). rewrite sort_files_Permutation in Hin.
        apply elem_of_kept in Hin as (H1 & H2 & H3). eauto 6.
      * intros (name & H1 & H2 & H3 & ->). exists name. split; [reflexivity |].
        rewrite sort_files_Permutation. apply elem_of_kept. auto.
Qed.

(** *** The path of the dataset *)

Lemma classic_in (c : Ascii.ascii) (s : string) :
  In c (String.list_ascii_of_string s) \/ ~ In c (String.list_ascii_of_string s).
Proof.
  induction s as [| a s IH]; cbn; [tauto |].
  destruct (Ascii.eqb_spec a c); tauto.
Qed.

Lemma string_length_app (a b : string) :
  String.length (a ++ b) = (String.length a + String.length b)%nat.
Proof. induction a as [| c a IH]; [reflexivity |]. simpl. rewrite IH. reflexivity. Qed.

Lemma substr_from_app (a b : string) : substr_from (String.length a) (a ++ b) = b.
Proof. induction a as [| c a IH]; [destruct b; reflexivity | exact IH]. Qed.

Lemma substring_app (a b : string) : String.substring 0 (String.length a) (a ++ b) = a.
Proof.
  induction a as [| c a IH]; [destruct b; reflexivity |]. simpl. rewrite IH. reflexivity.
Qed.

Lemma substring_substr_from (n : nat) (s : string) :
  (String.substring 0 n s ++ substr_from n s)%string = s.
Proof.
  revert s. induction n as [| n IH]; intros s.
  - destruct s; reflexivity.
  - destruct s as [| c s]; [reflexivity |].
    change (String c (String.substring 0 n s ++ substr_from n s)%string = String c s).
    f_equal. apply IH.
Qed.

Lemma find_last_of_None (c : Ascii.ascii) (s : string) :
  find_last_of c s = None <-> ~ In c (String.list_ascii_of_string s).
Proof.
  induction s as [| a s IH]; cbn.
  - tauto.
  - destruct (find_last_of c s) as [k |].
    + split; [discriminate |]. intros H. exfalso. apply H. right.
      destruct (classic_in c s) as [Hin | Hout]; [exact Hin |].
      apply IH in Hout. discriminate.
    + destruct (Ascii.eqb_spec a c) as [-> | Hne].
      * split; [discriminate |]. intros H. exfalso. apply H. left. reflexivity.
      * split; [| reflexivity]. intros _ [Heq | Hin]; [contradiction |].
        apply (proj1 IH); [reflexivity | exact Hin].
Qed.

Lemma find_last_of_app (c : Ascii.ascii) (a b : string) :
  ~ In c (String.list_ascii_of_string b) ->
  find_last_of c (a ++ String c b) = Some (String.length a).
Proof.
  intros Hb. apply find_last_of_None in Hb.
  induction a as [| x a IH].
  - change (find_last_of c (String c b) = Some 0%nat).
    cbn [find_last_of]. rewrite Hb, Ascii.eqb_refl. reflexivity.
  - change (find_last_of c (String x (a ++ String c b)) = Some (S (String.length a))).
    cbn [find_last_of]. rewrite IH. reflexivity.
Qed.

(** X13. The constructor treats the dataset path as an archive exactly
    when the path is a non-empty stem followed by ".zip" (so the path ".zip"
    itself is taken for a directory). The side-car file it reads is
    "times.txt" in the directory part of the path, which is the path up to
    its last slash: next to the archive or the image directory, not inside
    the directory, unless the path ends with a slash. A path without any
    slash is used whole as the directory part. *)
Theorem dataset_path (path : string) :
  (zip_path path = true <-> exists stem, stem <> ""%string /\ path = (stem ++ ".zip")%string)
  /\ (forall dir base : string,
      ~ In slash (String.list_ascii_of_string base) ->
      path = (dir ++ String slash base)%string ->
      timesFile path = (dir ++ "/times.txt")%string)
  /\ (~ In slash (String.list_ascii_of_string path) ->
      timesFile path = (path ++ "/times.txt")%string).
Proof.
  split_and!.
  - unfold zip_path. rewrite andb_true_iff, Z.ltb_lt, String.eqb_eq. split.
    + intros [Hlen Hzip].
      exists (String.substring 0 (String.length path - 4) path). split.
      * intros Hstem.
        pose proof (substring_substr_from (String.length path - 4) path) as Hsplit.
        rewrite Hstem, Hzip in Hsplit. rewrite <- Hsplit in Hlen.
        change (String.length ("" ++ ".zip")) with 4%nat in Hlen. lia.
      * rewrite <- Hzip. symmetry. apply substring_substr_from.
    + intros (stem & Hstem & ->). rewrite string_length_app.
      assert (0 < String.length stem)%nat by (destruct stem; [contradiction | cbn; lia]).
      cbn [String.length]. split; [lia |].
      replace (String.length stem + 4 - 4)%nat with (String.length stem) by lia.
      apply substr_from_app.
  - intros dir base Hbase ->. unfold timesFile.
    rewrite (find_last_of_app slash dir base Hbase), substring_app. reflexivity.
  - intros Hpath. unfold timesFile.
    rewrite (proj2 (find_last_of_None slash path) Hpath). reflexivity.
Qed.

(** *** The constructor *)

Lemma read_lines_fields (lines : list times_line) (r : ImageFolderReader) :
  set_series (fold_left read_line lines r) [] [] [] = set_series r [] [] [].
Proof.
  revert r. induction lines as [| l lines IH]; intros r; [reflexivity |].
  cbn [fold_left]. rewrite IH. destruct l; reflexivity.
Qed.

Lemma loadTimestamps_fields (r : ImageFolderReader) (lines : list times_line) :
  set_series (loadTimestamps r lines) [] [] [] = set_series r [] [] [].
Proof.
  rewrite <- (read_lines_fields lines r). unfold loadTimestamps.
  destruct (repair_loop _ _) as [ex good]. cbn.
  repeat match goal with |- context [if ?c then _ else _] => destruct c end; reflexivity.
Qed.

Lemma loadTimestamps_reconciled (r : ImageFolderReader) (lines : list times_line) :
  lengths_reconciled (loadTimestamps r lines).
Proof.
  destruct (loadTimestamps_cases r lines) as (Hf & Ht & He). cbv zeta in Ht, He.
  set (loaded := fold_left read_line lines r) in *.
  set (out := fst (repair_loop (exposures loaded) true)) in *.
  destruct (repair_loop_spec (exposures loaded) true) as (Hlen & _ & _). fold out in Hlen.
  unfold lengths_reconciled, getNumImages. rewrite Hf, Ht, He.
  fold (getNumImages r). split.
  - destruct (Z.eqb_spec (size (timestamps loaded)) (getNumImages r)); [right | left]; auto.
  - destruct (Z.eqb_spec (size (timestamps loaded)) (getNumImages r));
      destruct (Z.eqb_spec (size (exposures loaded)) (getNumImages r));
      destruct (forallb nonzero out); cbn [andb]; try (left; reflexivity).
    right. unfold size in *. rewrite Hlen. assumption.
Qed.

Lemma construct_fields (files : list string) (w h : Z) (zipped use16 colour : bool)
    (archive : string -> list Byte.byte) (gamma : option ptr) (lines : list times_line) :
  let r := construct files w h zipped use16 colour archive gamma lines in
  DatasetReader.files r = files /\ widthOrg r = w /\ heightOrg r = h
  /\ isZipped r = zipped /\ use16Bit r = use16 /\ useColour r = colour
  /\ ziparchive r = archive /\ databuffer r = None /\ photometricGamma r = gamma
  /\ lengths_reconciled r.
Proof.
  cbv zeta. unfold construct.
  set (r0 := {| ids := []; DatasetReader.files := files; timestamps := []; exposures := [];
                widthOrg := w; heightOrg := h; isZipped := zipped; use16Bit := use16;
                useColour := colour; ziparchive := archive; databuffer := None;
                photometricGamma := gamma |}).
  pose proof (loadTimestamps_fields r0 lines) as H.
  split_and!;
    try (apply (f_equal DatasetReader.files) in H; exact H);
    try (apply (f_equal widthOrg) in H; exact H);
    try (apply (f_equal heightOrg) in H; exact H);
    try (apply (f_equal isZipped) in H; exact H);
    try (apply (f_equal use16Bit) in H; exact H);
    try (apply (f_equal useColour) in H; exact H);
    try (apply (f_equal ziparchive) in H; exact H);
    try (apply (f_equal databuffer) in H; exact H);
    try (apply (f_equal photometricGamma) in H; exact H).
  apply loadTimestamps_reconciled.
Qed.

(** X14. The catalog of a reader. On an archive that opens, the catalog
    is the names of the entries other than "." and ".." as they are, in
    ascending order; on a directory that opens, it is what [getdir] leaves:
    the names other than "." and "..", each behind the path with one slash,
    in ascending order. In both cases the reader starts with a null archive
    buffer and with series lengths that are 0 or the size of the catalog,
    whatever the side-car file holds. *)
Theorem constructor_catalog (w : surroundings) (path : string) (use16 colour : bool) :
  (zip_path path = true -> fst (zip_open w path) = 0 ->
   exists r, new_ImageFolderReader w path use16 colour = Constructed r
             /\ files r = sort_files (filter (fun name => keep_entry name = true)
                                        (snd (zip_open w path)))
             /\ StronglySorted string_le (files r)
             /\ ziparchive r = zip_entry w path)
  /\ (zip_path path = false -> path <> ""%string ->
      forall names, opendir w path = Some names -> Forall plain_name names ->
      exists r, new_ImageFolderReader w path use16 colour = Constructed r
                /\ files r = map (String.append (slashed path))
                               (sort_files (filter (fun name => keep_entry name = true) names))
                /\ StronglySorted string_le (files r))
  /\ (forall r, new_ImageFolderReader w path use16 colour = Constructed r ->
      isZipped r = zip_path path /\ use16Bit r = use16 /\ useColour r = colour
      /\ databuffer r = None /\ getPhotometricGamma r = photometricG w
      /\ lengths_reconciled r).
Proof.
  split_and!.
  - intros Hzip Herr. unfold new_ImageFolderReader, list_files. rewrite Hzip.
    destruct (zip_open w path) as [ziperror names]. cbn [fst snd] in *. subst ziperror.
    cbn [Z.eqb negb]. eexists. split; [reflexivity |].
    destruct (construct_fields (sort_files (filter (fun name => keep_entry name = true) names))
                (fst (originalSize w)) (snd (originalSize w)) true use16 colour
                (zip_entry w path) (photometricG w) (text_lines w (timesFile path)))
      as (Hf & _ & _ & _ & _ & _ & Ha & _).
    rewrite Hf. split_and!; [reflexivity | apply sort_files_sorted | exact Ha].
  - intros Hzip Hdir names Hopen Hplain.
    unfold new_ImageFolderReader, list_files. rewrite Hzip, Hopen.
    rewrite (getdir_plain path names Hdir Hplain). eexists. split; [reflexivity |].
    match goal with
    | |- context [construct ?f ?a ?b ?c ?d ?e ?g ?h ?i] =>
        destruct (construct_fields f a b c d e g h i) as (Hf & _)
    end.
    rewrite Hf. split; [reflexivity | apply prefixed_sorted].
  - intros r. unfold new_ImageFolderReader.
    destruct (list_files w path) as [stop | files] eqn:E.
    + intros ->. unfold list_files in E. destruct (zip_path path).
      * destruct (zip_open w path) as [ziperror names].
        destruct (negb (ziperror =? 0)); discriminate.
      * destruct (getdir path (opendir w path) []) as [[n fs] |]; discriminate.
    + intros [= <-].
      match goal with
      | |- context [construct ?f ?a ?b ?c ?d ?e ?g ?h ?i] =>
          destruct (construct_fields f a b c d e g h i)
            as (_ & _ & _ & H1 & H2 & H3 & _ & H4 & H5 & H6)
      end.
      unfold getPhotometricGamma. split_and!; assumption.
Qed.

(** X15. A dataset that cannot be read. An archive that fails to open
    ends the process with [exit(1)] in the constructor. A directory that
    fails to open is no error for the constructor, which does not look at
    what [getdir] returns: the reader is built with an empty catalog and
    empty series, and a run on it plays no frame, prints its result and
    then reads [idsToPlay[0]] of an empty vector. *)
Theorem unreadable_dataset (w : surroundings) (path : string) (use16 colour : bool) :
  (zip_path path = true -> fst (zip_open w path) <> 0 ->
   new_ImageFolderReader w path use16 colour = ConstructionExits 1)
  /\ (zip_path path = false -> opendir w path = None ->
      exists r, new_ImageFolderReader w path use16 colour = Constructed r
                /\ getNumImages r = 0
                /\ timestamps r = [] /\ exposures r = []
                /\ forall (new_FullSystem : FullSystem)
                          (addActiveFrame : FullSystem -> ImageAndExposure -> Z -> FullSystem)
                          (cfg : config) (tv : timeval) (envs : Z -> env),
                    runthread new_FullSystem addActiveFrame cfg r tv envs
                    = (IndexOutOfBounds,
                       log (initial_session new_FullSystem cfg r tv)
                         [BlockUntilMappingIsFinished; PrintResult])).
Proof.
  split.
  - intros Hzip Herr. unfold new_ImageFolderReader, list_files. rewrite Hzip.
    destruct (zip_open w path) as [ziperror names]. cbn [fst] in Herr.
    destruct (Z.eqb_spec ziperror 0); [contradiction | reflexivity].
  - intros Hzip Hopen. unfold new_ImageFolderReader, list_files. rewrite Hzip, Hopen.
    cbn [getdir]. eexists. split; [reflexivity |].
    match goal with
    | |- context [construct ?f ?a ?b ?c ?d ?e ?g ?h ?i] =>
        destruct (construct_fields f a b c d e g h i)
          as (Hf & _ & _ & _ & _ & _ & _ & _ & _ & [Ht He]);
        set (r := construct f a b c d e g h i) in *
    end.
    assert (HN : getNumImages r = 0) by (unfold getNumImages; rewrite Hf; reflexivity).
    rewrite HN in Ht, He.
    split_and!.
    + exact HN.
    + apply size_zero_nil. lia.
    + apply size_zero_nil. lia.
    + intros nf aaf cfg tv envs.
      apply runthread_empty_plan. apply the_plan_empty. rewrite HN.
      destruct (reverse cfg); lia.
Qed.

(** *** Instances *)

Import Examples Setups.

Lemma getdir_catalog_witness :
  getdir "/data/seq" (Some [".."; "2.png"; "."; "1.png"]%string) []
  = Done (2, ["/data/seq/1.png"; "/data/seq/2.png"]%string).
Proof.
  destruct (getdir_catalog "/data/seq" [".."; "2.png"; "."; "1.png"]%string [])
    as (_ & H).
  refine (proj1 (H _ _)).
  - discriminate.
  - repeat constructor; vm_compute; discriminate.
Defined.

Lemma dataset_path_witness :
  zip_path "/data/seq.zip" = true
  /\ timesFile "/data/seq.zip" = "/data/times.txt"%string
  /\ timesFile "/data/seq/" = "/data/seq/times.txt"%string.
Proof.
  destruct (dataset_path "/data/seq.zip") as (H1 & H2 & _).
  destruct (dataset_path "/data/seq/") as (_ & H3 & _).
  split; [apply H1; exists "/data/seq"%string; split; [discriminate | reflexivity] |].
  split.
  - apply (H2 "/data"%string "seq.zip"%string); [vm_compute; intuition discriminate | reflexivity].
  - apply (H3 "/data/seq"%string ""%string); [intros [] | reflexivity].
Defined.

Lemma constructor_catalog_witness :
  (exists r, new_ImageFolderReader disk "/data/seq.zip" false false = Constructed r
             /\ files r = ["1.png"; "2.png"]%string)
  /\ (exists r, new_ImageFolderReader disk "/data/seq" false false = Constructed r
                /\ files r = ["/data/seq/1.png"; "/data/seq/2.png"]%string).
Proof.
  destruct (constructor_catalog disk "/data/seq.zip" false false) as (H1 & _).
  destruct (constructor_catalog disk "/data/seq" false false) as (_ & H2 & _).
  split.
  - destruct (H1 eq_refl eq_refl) as (r & Hr & Hf & _). exists r. split; [exact Hr | exact Hf].
  - destruct (H2 eq_refl ltac:(discriminate) [".."; "2.png"; "."; "1.png"]%string eq_refl)
      as (r & Hr & Hf & _).
    + repeat constructor; vm_compute; discriminate.
    + exists r. split; [exact Hr | exact Hf].
Defined.

Lemma unreadable_dataset_witness :
  new_ImageFolderReader disk "/data/other.zip" false false = ConstructionExits 1
  /\ exists r, new_ImageFolderReader disk "/data/other" false false = Constructed r
               /\ getNumImages r = 0.
Proof.
  destruct (unreadable_dataset disk "/data/other.zip" false false) as (H1 & _).
  destruct (unreadable_dataset disk "/data/other" false false) as (_ & H2).
  split.
  - apply H1; [reflexivity | vm_compute; discriminate].
  - destruct (H2 eq_refl eq_refl) as (r & Hr & Hn & _). exists r. split; assumption.
Defined.

End DirectoryProperties.

Module ArithmeticProperties.
Import Numbers RoundingProperties.

(** *** What [binary_round_aux] returns *)

Lemma Zdigits2_bounds (m : Z) :
  0 < m -> 2 ^ (Zdigits2 m - 1) <= m < 2 ^ Zdigits2 m.
Proof.
  destruct m as [| p | p]; try lia. intros _. apply digits2_pos_bounds.
Qed.

Lemma Zdigits2_nonneg (m : Z) : 0 <= Zdigits2 m.
Proof. destruct m; cbn; lia. Qed.

Lemma Zdigits2_le (m : Z) (d : Z) : 0 <= d -> 0 <= m < 2 ^ d -> Zdigits2 m <= d.
Proof.
  intros Hd [Hm Hlt]. destruct (Z.eq_dec m 0) as [-> | Hne]; [cbn; lia |].
  pose proof (Zdigits2_bounds m ltac:(lia)) as [HL _].
  destruct (Z.leb_spec (Zdigits2 m) d); [assumption |].
  assert (2 ^ d <= 2 ^ (Zdigits2 m - 1)) by (apply Z.pow_le_mono_r; lia). lia.
Qed.

Lemma Zdigits2_ge (m : Z) (d : Z) : 2 ^ (d - 1) <= m -> 0 < m -> d <= Zdigits2 m.
Proof.
  intros Hge Hm. pose proof (Zdigits2_bounds m Hm) as [_ HU].
  destruct (Z.leb_spec d (Zdigits2 m)); [assumption |].
  assert (2 ^ Zdigits2 m <= 2 ^ (d - 1)) by (apply Z.pow_le_mono_r; lia). lia.
Qed.

Lemma shr_m_shr (mrs : shr_record) (e n : Z) :
  0 <= shr_m mrs -> 0 <= n ->
  shr_m (fst (shr mrs e n)) = shr_m mrs / 2 ^ n /\ snd (shr mrs e n) = e + n.
Proof.
  intros Hm Hn. destruct n as [| p | p]; [| | lia].
  - cbn [shr fst snd]. rewrite Z.pow_0_r, Z.div_1_r. split; lia.
  - cbn [shr fst snd]. rewrite iter_pos_nat, shr_iter_m by exact Hm.
    rewrite positive_nat_Z. split; reflexivity.
Qed.

Lemma shr_record_of_loc_m (m : Z) (l : location) : shr_m (shr_record_of_loc m l) = m.
Proof. destruct l as [| []]; reflexivity. Qed.

(** Rounding a magnitude [mx * 2^ex] whose digits reach down to the
    exponent of the format gives a value of the format with the sign asked
    for: a zero, a finite value or an infinity, never NaN. *)
Lemma binary_round_aux_valid (s : bool) (mx ex : Z) (lx : location) :
  0 <= mx -> ex <= fexp64 (Zdigits2 mx + ex) ->
  valid_binary 53 1024 (binary_round_aux 53 1024 s mx ex lx) = true
  /\ (binary_round_aux 53 1024 s mx ex lx = S754_zero s
      \/ binary_round_aux 53 1024 s mx ex lx = S754_infinity s
      \/ exists m e, binary_round_aux 53 1024 s mx ex lx = S754_finite s m e).
Proof.
  intros Hmx Hex. unfold binary_round_aux, shr_fexp. rewrite fexp_64.
  set (d := Zdigits2 mx) in *. set (E := fexp64 (d + ex)) in *.
  pose proof (Zdigits2_nonneg mx) as Hd. fold d in Hd.
  destruct (shr_m_shr (shr_record_of_loc mx lx) ex (E - ex)) as [Hm1 He1];
    [rewrite shr_record_of_loc_m; exact Hmx | lia |].
  rewrite shr_record_of_loc_m in Hm1.
  destruct (shr (shr_record_of_loc mx lx) ex (E - ex)) as [mrs1 e1]. cbn [fst snd] in *.
  assert (He1' : e1 = E) by lia. clear He1. subst e1.
  set (m1 := shr_m mrs1) in *.
  assert (Hpow : 0 < 2 ^ (E - ex)) by (apply Z.pow_pos_nonneg; lia).
  assert (Hm1nn : 0 <= m1) by (rewrite Hm1; apply Z.div_pos; lia).
  assert (HEmin : -1074 <= E) by (unfold E, fexp64; lia).
  assert (Hm1U : m1 < 2 ^ 53).
  { rewrite Hm1. apply Z.div_lt_upper_bound; [lia |].
    destruct (Z.eq_dec mx 0) as [-> | Hne]; [lia |].
    pose proof (Zdigits2_bounds mx ltac:(lia)) as [_ HU]. fold d in HU.
    destruct (Z.leb_spec d 53).
    - assert (2 ^ d <= 2 ^ 53) by (apply Z.pow_le_mono_r; lia). nia.
    - assert (2 ^ d = 2 ^ 53 * 2 ^ (d - 53)) by (rewrite <- Z.pow_add_r by lia; f_equal; lia).
      assert (2 ^ (d - 53) <= 2 ^ (E - ex)) by (apply Z.pow_le_mono_r; unfold E, fexp64; lia).
      nia. }
  assert (Hm1L : -1074 < E -> 2 ^ 52 <= m1).
  { intros Hnormal. assert (HE : E = d + ex - 53) by (unfold E, fexp64 in *; lia).
    assert (Hmx0 : 0 < mx).
    { destruct (Z.eq_dec mx 0) as [E0 | ?]; [| lia]. unfold d in *. rewrite E0 in *. cbn in *.
      unfold fexp64 in *. lia. }
    pose proof (Zdigits2_bounds mx Hmx0) as [HL _]. fold d in HL.
    rewrite Hm1. apply Z.div_le_lower_bound; [lia |].
    replace (E - ex) with (d - 53) by lia.
    assert (2 ^ (d - 1) = 2 ^ 52 * 2 ^ (d - 53))
      by (rewrite <- Z.pow_add_r by lia; f_equal; lia).
    lia. }
  pose proof (rne_bounds m1 (loc_of_shr_record mrs1)) as Hrne.
  set (m2 := round_nearest_even m1 (loc_of_shr_record mrs1)) in *.
  rewrite fexp_64.
  destruct (Z.eq_dec m2 0) as [Hz | Hnz].
  - (* the rounded mantissa is 0 *)
    rewrite Hz. cbn [Zdigits2 shr_record_of_loc].
    replace (fexp64 (0 + E) - E) with (- (E - fexp64 (0 + E))) by lia.
    assert (Hn : 0 <= E - fexp64 (0 + E)) by (unfold fexp64; lia).
    destruct (E - fexp64 (0 + E)) as [| p | p]; [| | lia]; cbn [Z.opp shr shr_m];
      split; auto.
  - assert (Hm2pos : 0 < m2) by lia.
    destruct (Z.ltb_spec m2 (2 ^ 53)) as [Hsmall | Hbig].
    + (* no carry *)
      pose proof (Zdigits2_le m2 53 ltac:(lia) ltac:(lia)) as Hd2.
      pose proof (Zdigits2_bounds m2 Hm2pos) as [Hd2L Hd2U].
      set (d2 := Zdigits2 m2) in *.
      assert (Hcanon : fexp64 (d2 + E) = E).
      { destruct (Z.eq_dec E (-1074)) as [-> | Hne]; [unfold fexp64; lia |].
        assert (53 <= d2) by (apply Zdigits2_ge; [specialize (Hm1L ltac:(lia)); simpl; lia | lia]).
        unfold fexp64. lia. }
      rewrite Hcanon, Z.sub_diag. cbn [shr shr_m shr_record_of_loc].
      destruct m2 as [| p2 | p2] eqn:Em2; [lia | | lia].
      destruct (Z.leb_spec E (1024 - 53)); [| split; auto].
      split; [| eauto 6].
      cbn [valid_binary]. apply bounded_intro; [exact Hcanon | lia].
    + (* the mantissa carries to 2^53 *)
      assert (Hm2 : m2 = 2 ^ 53) by lia.
      rewrite Hm2. change (Zdigits2 (2 ^ 53)) with 54.
      replace (fexp64 (54 + E) - E) with 1 by (unfold fexp64; lia).
      cbn [shr shr_record_of_loc SpecFloat.iter_pos].
      change (shr_m (shr_1 {| shr_m := 2 ^ 53; shr_r := false; shr_s := false |}))
        with (2 ^ 52).
      change (2 ^ 52) with (Zpos (Pos.shiftl 1 52)).
      destruct (Z.leb_spec (E + 1) (1024 - 53)); [| split; auto].
      split; [| eauto 6].
      cbn [valid_binary]. apply bounded_intro; [| lia].
      change (Zpos (digits2_pos (Pos.shiftl 1 52))) with 53. unfold fexp64. lia.
Qed.

(** *** Division *)

Lemma SFdiv_core_reaches (mx my : positive) (ex ey : Z) :
  0 <= fst (fst (SFdiv_core_binary 53 1024 (Zpos mx) ex (Zpos my) ey))
  /\ snd (fst (SFdiv_core_binary 53 1024 (Zpos mx) ex (Zpos my) ey))
     <= fexp64 (Zdigits2 (fst (fst (SFdiv_core_binary 53 1024 (Zpos mx) ex (Zpos my) ey)))
                + snd (fst (SFdiv_core_binary 53 1024 (Zpos mx) ex (Zpos my) ey))).
Proof.
  unfold SFdiv_core_binary. rewrite fexp_64.
  pose proof (digits2_pos_bounds mx) as [H1L H1U].
  pose proof (digits2_pos_bounds my) as [H2L H2U].
  cbn [Zdigits2].
  set (d1 := Zpos (digits2_pos mx)) in *. set (d2 := Zpos (digits2_pos my)) in *.
  set (X := d1 + ex - (d2 + ey)).
  set (e' := Z.min (fexp64 X) (ex - ey)).
  set (sh := ex - ey - e').
  assert (Hsh : 0 <= sh) by (unfold sh, e'; lia).
  set (m' := match sh with
             | 0 => Zpos mx
             | Zpos _ => Z.shiftl (Zpos mx) sh
             | Zneg _ => 0
             end).
  assert (Hm' : m' = Zpos mx * 2 ^ sh).
  { unfold m'. destruct sh as [| p | p] eqn:Es; [rewrite Z.pow_0_r; lia | | lia].
    apply Z.shiftl_mul_pow2. lia. }
  assert (Hdiv : Z.div_eucl m' (Zpos my) = (m' / Zpos my, m' mod Zpos my)).
  { unfold Z.div, Z.modulo. destruct (Z.div_eucl m' (Zpos my)); reflexivity. }
  rewrite Hdiv. cbn [fst snd].
  set (q := m' / Zpos my).
  assert (Hpow : 0 < 2 ^ sh) by (apply Z.pow_pos_nonneg; lia).
  assert (Hq : 0 <= q) by (apply Z.div_pos; lia).
  split; [exact Hq |].
  assert (Hd1 : 0 < d1) by (unfold d1; lia).
  assert (Hd2 : 0 < d2) by (unfold d2; lia).
  assert (HX : X - e' = d1 + sh - d2) by (unfold X, sh; lia).
  assert (He'X : e' <= fexp64 X) by (unfold e'; lia).
  destruct (Z.eq_dec q 0) as [Hq0 | Hqne].
  - (* the quotient is 0 *)
    rewrite Hq0. cbn [Zdigits2].
    assert (Hlt : m' < Zpos my).
    { destruct (Z.ltb_spec m' (Zpos my)); [assumption |].
      assert (1 <= q) by (apply Z.div_le_lower_bound; lia). lia. }
    assert (Hk : d1 - 1 + sh < d2).
    { destruct (Z.ltb_spec (d1 - 1 + sh) d2); [assumption |].
      assert (2 ^ d2 <= 2 ^ (d1 - 1 + sh)) by (apply Z.pow_le_mono_r; lia).
      rewrite Z.pow_add_r in * by lia. nia. }
    unfold fexp64 in *. lia.
  - (* the quotient is positive *)
    pose proof (Zdigits2_bounds q ltac:(lia)) as [HqL HqU].
    set (dq := Zdigits2 q) in *.
    assert (Hdq : 0 < dq) by (unfold dq; destruct q; cbn; lia).
    assert (Hge : X <= dq + e').
    { destruct (Z.leb_spec (d1 + sh - d2) 0) as [Hsmall | Hlarge]; [lia |].
      assert (Hq1 : 2 ^ (d1 + sh - d2 - 1) <= q).
      { apply Z.div_le_lower_bound; [lia |].
        assert (2 ^ (d1 - 1 + sh) = 2 ^ (d1 + sh - d2 - 1) * 2 ^ d2)
          by (rewrite <- Z.pow_add_r by lia; f_equal; lia).
        assert (0 < 2 ^ (d1 + sh - d2 - 1)) by (apply Z.pow_pos_nonneg; lia).
        rewrite Hm'. rewrite Z.pow_add_r in * by lia.
        assert (2 ^ (d1 - 1) * 2 ^ sh <= Zpos mx * 2 ^ sh) by nia.
        nia. }
      pose proof (Zdigits2_ge q (d1 + sh - d2) Hq1 ltac:(lia)). fold dq in H. lia. }
    pose proof (fexp64_mono _ _ Hge). lia.
Qed.

Lemma SFdiv_finite_valid (sx sy : bool) (mx my : positive) (ex ey : Z) :
  let r := SFdiv 53 1024 (S754_finite sx mx ex) (S754_finite sy my ey) in
  valid_binary 53 1024 r = true
  /\ (r = S754_zero (xorb sx sy) \/ r = S754_infinity (xorb sx sy)
      \/ exists m e, r = S754_finite (xorb sx sy) m e).
Proof.
  cbv zeta. unfold SFdiv.
  pose proof (SFdiv_core_reaches mx my ex ey) as [Hq He].
  destruct (SFdiv_core_binary 53 1024 (Zpos mx) ex (Zpos my) ey) as [[q e'] l].
  cbn [fst snd] in *. apply binary_round_aux_valid; assumption.
Qed.

(** The quotient of two doubles is a double. *)
Lemma SFdiv_valid (x y : spec_float) :
  valid_binary 53 1024 (SFdiv 53 1024 x y) = true.
Proof.
  destruct x as [sx | sx | | sx mx ex], y as [sy | sy | | sy my ey]; try reflexivity.
  apply SFdiv_finite_valid.
Qed.

(** The quotient of a number that is not negative by a positive finite
    value is a number that is not negative. *)
Lemma SFdiv_nonneg (x : spec_float) (my : positive) (ey : Z) :
  nonneg_number x = true ->
  nonneg_number (SFdiv 53 1024 x (S754_finite false my ey)) = true.
Proof.
  destruct x as [[] | [] | | [] mx ex]; try discriminate; intros _; try reflexivity.
  destruct (SFdiv_finite_valid false false mx my ex ey) as [_ [-> | [-> | (m & e & ->)]]];
    reflexivity.
Qed.

(** *** Subtraction and promotion *)

Lemma binary_normalize_valid (z e : Z) (szero : bool) :
  -1074 <= e ->
  valid_binary 53 1024 (binary_normalize 53 1024 z e szero) = true
  /\ binary_normalize 53 1024 z e szero <> S754_nan.
Proof.
  intros He. destruct z as [| p | p]; cbn [binary_normalize].
  - split; [reflexivity | discriminate].
  - exact (rounded_valid _ _ _ _ (binary_round_rounded false p e He)).
  - exact (rounded_valid _ _ _ _ (binary_round_rounded true p e He)).
Qed.

(** The difference of two finite doubles is a double, and is not NaN. *)
Lemma SFsub_finite (x y : spec_float) :
  valid_binary 53 1024 x = true -> valid_binary 53 1024 y = true ->
  is_finite x = true -> is_finite y = true ->
  valid_binary 53 1024 (SFsub 53 1024 x y) = true /\ SFsub 53 1024 x y <> S754_nan.
Proof.
  intros Hx Hy Hfx Hfy.
  destruct x as [sx | sx | | sx mx ex], y as [sy | sy | | sy my ey]; try discriminate.
  - destruct sx, sy; split; try reflexivity; discriminate.
  - cbn. split; [exact Hy | discriminate].
  - cbn. split; [exact Hx | discriminate].
  - cbn [valid_binary] in Hx, Hy.
    pose proof (bounded_facts _ _ Hx) as (Hxr & _).
    pose proof (bounded_facts _ _ Hy) as (Hyr & _).
    unfold SFsub. apply binary_normalize_valid. lia.
Qed.

Lemma SFabs_nonneg (x : spec_float) :
  x <> S754_nan -> nonneg_number (SFabs x) = true.
Proof. destruct x; try reflexivity. congruence. Qed.

Lemma SFabs_valid (x : spec_float) :
  valid_binary 53 1024 (SFabs x) = valid_binary 53 1024 x.
Proof. destruct x; reflexivity. Qed.

(** A positive finite [float] promotes to a positive finite [double]. *)
Lemma f64_of_f32_positive (x : spec_float) :
  is_float x = true -> is_finite x = true -> f32_ltb (f32_of_int 0) x = true ->
  exists m e, f64_of_f32 x = S754_finite false m e.
Proof.
  intros Hv Hf Hpos. destruct x as [sx | sx | | sx mx ex]; try discriminate.
  destruct sx; [discriminate |].
  unfold is_float in Hv. cbn [valid_binary] in Hv.
  unfold bounded, canonical_mantissa in Hv. apply andb_true_iff in Hv as [Hc Hb].
  apply Z.eqb_eq in Hc. apply Z.leb_le in Hb.
  unfold fexp, emin, prec32, emax32 in *.
  pose proof (digits2_pos_bounds mx) as _.
  assert (Hd : 0 < Zpos (digits2_pos mx)) by lia.
  unfold f64_of_f32. cbn [cond_Zopp binary_normalize].
  pose proof (binary_round_rounded false mx ex ltac:(lia)) as Hr.
  unfold prec64, emax64.
  destruct Hr as [Hinf | m E' _ _ _ _]; [| eauto].
  exfalso. unfold fexp64 in Hinf. lia.
Qed.

(** *** Order *)

Lemma SFleb_of_not_ltb (x y : spec_float) :
  x <> S754_nan -> y <> S754_nan -> SFltb y x = false -> SFleb x y = true.
Proof.
  unfold SFltb, SFleb, SFcompare.
  destruct x as [sx | sx | | sx mx ex], y as [sy | sy | | sy my ey];
    try congruence; intros _ _;
    try (destruct sx, sy; cbn; congruence).
  change (Pos.compare_cont Eq my mx) with (Pos.compare my mx).
  change (Pos.compare_cont Eq mx my) with (Pos.compare mx my).
  destruct sx, sy; try congruence;
    destruct (Z.compare_spec ey ex), (Z.compare_spec ex ey); try lia; try congruence;
    destruct (Pos.compare_spec my mx), (Pos.compare_spec mx my); cbn; try lia; congruence.
Qed.

(** Adding a number that is not negative to one: the sum is such a
    number again, and is not below the first operand. *)
Lemma SFadd_nonneg_number (t d : spec_float) :
  valid_binary 53 1024 t = true -> valid_binary 53 1024 d = true ->
  nonneg_number t = true -> nonneg_number d = true ->
  valid_binary 53 1024 (SFadd 53 1024 t d) = true
  /\ nonneg_number (SFadd 53 1024 t d) = true
  /\ SFltb (SFadd 53 1024 t d) t = false
  /\ SFleb t (SFadd 53 1024 t d) = true.
Proof.
  intros Ht Hd Hnt Hnd.
  assert (Hcore : valid_binary 53 1024 (SFadd 53 1024 t d) = true
                  /\ nonneg_number (SFadd 53 1024 t d) = true
                  /\ SFltb (SFadd 53 1024 t d) t = false).
  { destruct d as [sd | sd | | sd md ed]; try discriminate.
    - (* d is +0 *)
      destruct sd; [discriminate |].
      destruct (SFadd_nonneg t (S754_zero false) Ht Hd eq_refl) as (Hlt & Hv & _).
      split_and!; [exact Hv | | exact Hlt].
      destruct t as [[] | [] | | [] mt et]; try discriminate; reflexivity.
    - (* d is +infinity *)
      destruct sd; [discriminate |].
      destruct t as [[] | [] | | [] mt et]; try discriminate; cbn; auto.
    - (* d is positive and finite *)
      destruct sd; [discriminate |].
      destruct (SFadd_nonneg t (S754_finite false md ed) Ht Hd eq_refl) as (Hlt & Hv & _).
      split_and!; [exact Hv | | exact Hlt].
      destruct t as [[] | [] | | [] mt et]; try discriminate; try reflexivity.
      cbn [valid_binary] in Ht, Hd.
      pose proof (bounded_facts _ _ Ht) as (Htr & _).
      pose proof (bounded_facts _ _ Hd) as (Hdr & _).
      unfold SFadd. cbn [cond_Zopp].
      destruct (Zpos (fst (shl_align mt et (Z.min et ed)))
                + Zpos (fst (shl_align md ed (Z.min et ed)))) as [| p | p] eqn:E; try lia.
      cbn [binary_normalize].
      destruct (binary_round_rounded false p (Z.min et ed) ltac:(lia)); reflexivity. }
  destruct Hcore as (Hv & Hn & Hlt). split_and!; try assumption.
  apply SFleb_of_not_ltb; [| | exact Hlt].
  - destruct t; try discriminate; congruence.
  - destruct (SFadd 53 1024 t d); try discriminate; congruence.
Qed.

End ArithmeticProperties.

Module ScheduleProperties.
Import DatasetReader Main Examples Numbers RoundingProperties ArithmeticProperties
  PlaybackProperties.

(** One step of the schedule. *)
Lemma next_target_nonneg (r : ImageFolderReader) (speed : float) (t : double) (i j : Z) :
  is_float speed = true -> is_finite speed = true -> f32_ltb (f32_of_int 0) speed = true ->
  is_double (getTimestamp r i) = true -> is_finite (getTimestamp r i) = true ->
  is_double (getTimestamp r j) = true -> is_finite (getTimestamp r j) = true ->
  is_double t = true -> nonneg_number t = true ->
  is_double (next_target r speed t i j) = true
  /\ nonneg_number (next_target r speed t i j) = true
  /\ SFleb t (next_target r speed t i j) = true.
Proof.
  intros Hs1 Hs2 Hs3 Hi1 Hi2 Hj1 Hj2 Ht1 Ht2. unfold next_target, is_double in *.
  unfold f64_add, f64_div, f64_abs, f64_sub, prec64, emax64 in *.
  destruct (f64_of_f32_positive speed Hs1 Hs2 Hs3) as (m & e & ->).
  destruct (SFsub_finite _ _ Hj1 Hi1 Hj2 Hi2) as [Hv Hn].
  pose proof (SFdiv_nonneg _ m e (SFabs_nonneg _ Hn)) as Hd.
  pose proof (SFdiv_valid (SFabs (SFsub 53 1024 (getTimestamp r j) (getTimestamp r i)))
                (S754_finite false m e)) as Hdv.
  destruct (SFadd_nonneg_number t _ Ht1 Hdv Ht2 Hd) as (H1 & H2 & _ & H4).
  auto.
Qed.

Lemma plan_targets (r : ImageFolderReader) (speed : float) (p : plan) :
  plan_ok r speed p ->
  is_float speed = true -> is_finite speed = true -> f32_ltb (f32_of_int 0) speed = true ->
  (forall i, i ∈ idsToPlay p ->
     is_double (getTimestamp r i) = true /\ is_finite (getTimestamp r i) = true) ->
  forall (k : nat) (t : double),
    timesToPlayAt p !! k = Some t ->
    is_double t = true /\ nonneg_number t = true
    /\ forall t', timesToPlayAt p !! S k = Some t' -> SFleb t t' = true.
Proof.
  intros (Hlen & Hfirst & Hnext) Hs1 Hs2 Hs3 Hts.
  assert (Hstep : forall (k : nat) (t t' : double),
             timesToPlayAt p !! k = Some t -> timesToPlayAt p !! S k = Some t' ->
             is_double t = true -> nonneg_number t = true ->
             is_double t' = true /\ nonneg_number t' = true /\ SFleb t t' = true).
  { intros k t t' Hk HSk Hv Hn.
    pose proof (lookup_lt_Some _ _ _ HSk) as Hlt. rewrite Hlen in Hlt.
    destruct (idsToPlay p !! k) as [i |] eqn:Ei; [| apply lookup_ge_None in Ei; lia].
    destruct (idsToPlay p !! S k) as [j |] eqn:Ej; [| apply lookup_ge_None in Ej; lia].
    rewrite (Hnext k i j t Ei Ej Hk) in HSk. injection HSk as <-.
    destruct (Hts i (list_elem_of_lookup_2 _ _ _ Ei)) as [Hi1 Hi2].
    destruct (Hts j (list_elem_of_lookup_2 _ _ _ Ej)) as [Hj1 Hj2].
    apply next_target_nonneg; assumption. }
  assert (Hgood : forall (k : nat) (t : double),
             timesToPlayAt p !! k = Some t -> is_double t = true /\ nonneg_number t = true).
  { induction k as [| k IH]; intros t Hk.
    - rewrite (Hfirst t Hk). split; reflexivity.
    - destruct (timesToPlayAt p !! k) as [t0 |] eqn:E0;
        [| apply lookup_ge_None in E0; apply lookup_lt_Some in Hk; lia].
      destruct (IH t0 eq_refl) as [Hv Hn].
      destruct (Hstep k t0 t E0 Hk Hv Hn) as (H1 & H2 & _). auto. }
  intros k t Hk. destruct (Hgood k t Hk) as [Hv Hn]. split_and!; [exact Hv | exact Hn |].
  intros t' HSk. apply (Hstep k t t' Hk HSk Hv Hn).
Qed.

(** X16. The schedule never goes back. For a positive finite playback
    speed and frames whose timestamps are finite doubles, every target of
    the plan is a double that is +0, positive or +infinity (never NaN, never
    negative), and each target is less than or equal to the next one. *)
Theorem schedule_is_monotone (r : ImageFolderReader) (speed : float) (b : bounds) (p : plan) :
  build_plan r speed b = Some p ->
  is_float speed = true -> is_finite speed = true -> f32_ltb (f32_of_int 0) speed = true ->
  (forall i, i ∈ idsToPlay p ->
     is_double (getTimestamp r i) = true /\ is_finite (getTimestamp r i) = true) ->
  forall (k : nat) (t : double),
    timesToPlayAt p !! k = Some t ->
    is_double t = true /\ nonneg_number t = true
    /\ forall t', timesToPlayAt p !! S k = Some t' -> SFleb t t' = true.
Proof.
  intros Hp. apply plan_targets. apply (build_plan_ok r speed b p Hp).
Qed.

(** *** Instances *)

Import Examples.

Lemma schedule_is_monotone_witness :
  SFleb (f64_lit 1 2) (f64_of_int 1) = true.
Proof.
  refine (proj2 (proj2 (schedule_is_monotone three_frames (f32_of_int 2)
                          {| lstart := 0; lend := 100000; linc := 1 |}
                          {| idsToPlay := [0; 1; 2];
                             timesToPlayAt := [f64_of_int 0; f64_lit 1 2; f64_of_int 1] |}
                          eq_refl eq_refl eq_refl eq_refl _ 1%nat (f64_lit 1 2) eq_refl))
            (f64_of_int 1) eq_refl).
  intros i Hi. apply list_elem_of_In in Hi. cbn in Hi.
  destruct Hi as [<- | [<- | [<- | []]]]; split; reflexivity.
Defined.

End ScheduleProperties.

Module SleepProperties.
Import DatasetReader Main Examples Numbers RoundingProperties ArithmeticProperties
  PlaybackProperties.

(** For doubles, [x < y] makes [y - x] positive or +infinity. *)
Lemma SFsub_positive (x y : spec_float) :
  valid_binary 53 1024 x = true -> valid_binary 53 1024 y = true ->
  SFltb x y = true -> nonneg_number (SFsub 53 1024 y x) = true.
Proof.
  intros Hx Hy Hlt.
  destruct x as [sx | sx | | sx mx ex], y as [sy | sy | | sy my ey];
    try discriminate; try (destruct sx, sy; try discriminate; reflexivity);
    try (destruct sx; try discriminate; reflexivity);
    try (destruct sy; try discriminate; reflexivity).
  cbn [valid_binary] in Hx, Hy.
  pose proof (bounded_facts _ _ Hx) as (Hxr & Hxu & Hxn & _).
  pose proof (bounded_facts _ _ Hy) as (Hyr & Hyu & Hyn & _).
  unfold SFsub. set (ez := Z.min ey ex).
  pose proof (shl_align_val my ey ez ltac:(lia)) as Ha.
  pose proof (shl_align_val mx ex ez ltac:(lia)) as Hb.
  set (a := fst (shl_align my ey ez)) in *. set (b := fst (shl_align mx ex ez)) in *.
  assert (Hpos : 0 < cond_Zopp sy (Zpos a) - cond_Zopp sx (Zpos b)).
  { unfold SFltb, SFcompare in Hlt.
    change (Pos.compare_cont Eq mx my) with (Pos.compare mx my) in Hlt.
    destruct sx, sy; cbn [cond_Zopp]; try discriminate; try lia.
    - (* both negative *)
      destruct (Z.compare_spec ex ey) as [E | L | G]; try discriminate.
      + destruct (Pos.compare_spec mx my); try discriminate.
        subst. unfold ez in *. rewrite Z.min_id, Z.sub_diag, Z.pow_0_r in *. lia.
      + assert (2 <= 2 ^ (ex - ez)).
        { change 2 with (2 ^ 1) at 1. apply Z.pow_le_mono_r; lia. }
        replace (ey - ez) with 0 in Ha by lia. rewrite Z.pow_0_r in Ha.
        specialize (Hxn ltac:(lia)). nia.
    - (* both positive *)
      destruct (Z.compare_spec ex ey) as [E | L | G]; try discriminate.
      + destruct (Pos.compare_spec mx my); try discriminate.
        subst. unfold ez in *. rewrite Z.min_id, Z.sub_diag, Z.pow_0_r in *. lia.
      + assert (2 <= 2 ^ (ey - ez)).
        { change 2 with (2 ^ 1) at 1. apply Z.pow_le_mono_r; lia. }
        replace (ex - ez) with 0 in Hb by lia. rewrite Z.pow_0_r in Hb.
        specialize (Hyn ltac:(lia)). nia. }
  destruct (cond_Zopp sy (Zpos a) - cond_Zopp sx (Zpos b)) as [| p | p]; try lia.
  cbn [binary_normalize].
  destruct (binary_round_rounded false p ez ltac:(lia)); reflexivity.
Qed.

Lemma f64_to_int_nonneg (x : spec_float) (z : Z) :
  nonneg_number x = true \/ x = S754_nan -> f64_to_int x = Some z -> 0 <= z < 2 ^ 31.
Proof.
  intros [Hx | ->]; [| discriminate].
  destruct x as [[] | [] | | [] m e]; try discriminate; cbn [f64_to_int cond_Zopp].
  - intros [= <-]. lia.
  - set (v := match e with Zneg p => Z.shiftr (Zpos m) (Zpos p) | _ => Z.shiftl (Zpos m) e end).
    assert (Hv : 0 <= v).
    { unfold v. destruct e; [apply Z.shiftl_nonneg | apply Z.shiftl_nonneg
                             | apply Z.shiftr_nonneg]; lia. }
    destruct (Z.leb_spec (- 2 ^ 31) v); destruct (Z.ltb_spec v (2 ^ 31)); cbn;
      try discriminate. intros [= <-]. lia.
Qed.

(** The product of a double that is not negative by 1000 is a double
    that is not negative. *)
Lemma SFmul_1000 (x : spec_float) :
  valid_binary 53 1024 x = true -> nonneg_number x = true ->
  valid_binary 53 1024 (SFmul 53 1024 x (S754_finite false 8796093022208000 (-43))) = true
  /\ nonneg_number (SFmul 53 1024 x (S754_finite false 8796093022208000 (-43))) = true.
Proof.
  intros Hv Hn.
  destruct x as [[] | [] | | [] m e]; try discriminate;
    [split; reflexivity | split; reflexivity |].
  cbn [valid_binary] in Hv.
  pose proof (bounded_facts _ _ Hv) as (Hr & Hu & _ & Hc).
  unfold SFmul. cbn [xorb].
  pose proof (digits2_pos_bounds m) as [HL HU].
  set (d := Zpos (digits2_pos m)) in *.
  assert (Hd : 1 <= d) by (unfold d; lia).
  destruct (binary_round_aux_valid false (Zpos (m * 8796093022208000)) (e + -43) loc_Exact)
    as [Hvalid Hcases].
  - lia.
  - assert (Hdig : d + 52 <= Zdigits2 (Zpos (m * 8796093022208000))).
    { apply Zdigits2_ge; [| lia].
      rewrite Pos2Z.inj_mul.
      replace (d + 52 - 1) with ((d - 1) + 52) by lia.
      rewrite Z.pow_add_r by lia.
      change (2 ^ 52) with 4503599627370496. nia. }
    unfold fexp64 in *. lia.
  - split; [exact Hvalid |].
    destruct Hcases as [-> | [-> | (m' & e' & ->)]]; reflexivity.
Qed.

Lemma SFltb_fin_pos_false (m1 m2 : positive) (e1 e2 : Z) :
  SFltb (S754_finite false m1 e1) (S754_finite false m2 e2) = false
  <-> e2 < e1 \/ (e2 = e1 /\ Zpos m2 <= Zpos m1).
Proof.
  split; [| apply SFltb_fin_pos].
  unfold SFltb, SFcompare.
  change (Pos.compare_cont Eq m1 m2) with (Pos.compare m1 m2).
  destruct (Z.compare_spec e1 e2); try discriminate; try lia.
  destruct (Pos.compare_spec m1 m2); try discriminate; lia.
Qed.

(** The integer part of a positive double is below 2^31 exactly when the
    double is below 2^31. *)
Lemma truncation_below (m : positive) (e : Z) :
  bounded 53 1024 m e = true ->
  let z := match e with
           | Z.neg p => Z.shiftr (Z.pos m) (Z.pos p)
           | _ => Z.shiftl (Z.pos m) e
           end in
  0 <= z /\ (z < 2147483648 <-> e < -21 \/ (e = -21 /\ Zpos m < 4503599627370496)).
Proof.
  intros Hv z.
  pose proof (bounded_facts _ _ Hv) as (Hr & Hu & Hnorm & _).
  assert (H52 : 2 ^ 52 = 4503599627370496) by reflexivity.
  assert (H53 : 2 ^ 53 = 9007199254740992) by reflexivity.
  rewrite H52 in Hnorm. rewrite H53 in Hu. clear H52 H53.
  unfold z. destruct e as [| p | p].
  - rewrite Z.shiftl_0_r. specialize (Hnorm ltac:(lia)). lia.
  - rewrite Z.shiftl_mul_pow2 by lia. specialize (Hnorm ltac:(lia)).
    assert (0 < 2 ^ Zpos p) by (apply Z.pow_pos_nonneg; lia).
    split; [lia |]. split; [intros Hlt; exfalso | lia].
    assert (Zpos m <= Zpos m * 2 ^ Zpos p).
    { rewrite <- (Z.mul_1_r (Zpos m)) at 1. apply Z.mul_le_mono_nonneg_l; lia. }
    lia.
  - rewrite Z.shiftr_div_pow2 by lia.
    assert (Hp : 0 < 2 ^ Zpos p) by (apply Z.pow_pos_nonneg; lia).
    split; [apply Z.div_pos; lia |].
    destruct (Z.lt_trichotomy (Zpos p) 21) as [Hlt | [Heq | Hgt]].
    + (* e > -21 *)
      specialize (Hnorm ltac:(lia)).
      assert (Hpow : 2 ^ Zpos p <= 1048576).
      { change 1048576 with (2 ^ 20). apply Z.pow_le_mono_r; lia. }
      assert (4294967296 <= Zpos m / 2 ^ Zpos p).
      { apply Z.div_le_lower_bound; [lia |].
        apply Z.le_trans with (1048576 * 4294967296); [| lia].
        apply Z.mul_le_mono_nonneg_r; lia. }
      lia.
    + replace (Zpos p) with 21 by lia. change (2 ^ 21) with 2097152.
      split.
      * intros H. right. split; [lia |].
        destruct (Z.ltb_spec (Zpos m) 4503599627370496); [assumption |].
        assert (2147483648 <= Zpos m / 2097152)
          by (apply Z.div_le_lower_bound; lia). lia.
      * intros [H | [_ H]]; [lia |]. apply Z.div_lt_upper_bound; lia.
    + assert (Hpow : 4194304 <= 2 ^ Zpos p).
      { change 4194304 with (2 ^ 22). apply Z.pow_le_mono_r; lia. }
      split; [intros _; left; lia | intros _].
      apply Z.div_lt_upper_bound; [lia |].
      apply Z.lt_le_trans with (4194304 * 2147483648); [lia |].
      apply Z.mul_le_mono_nonneg_r; lia.
Qed.

(** The conversion to [int] of a double that is not negative is defined
    exactly when the double is below 2^31. *)
Lemma f64_to_int_defined (x : spec_float) :
  valid_binary 53 1024 x = true -> nonneg_number x = true ->
  (f64_to_int x = None <-> f64_ltb x (f64_of_int 2147483648) = false).
Proof.
  intros Hv Hn.
  assert (Hc : f64_of_int 2147483648 = S754_finite false 4503599627370496 (-21))
    by (vm_compute; reflexivity).
  rewrite Hc. clear Hc.
  destruct x as [[] | [] | | [] m e]; try discriminate.
  - cbn [f64_to_int]. unfold f64_ltb, SFltb, SFcompare. split; discriminate.
  - cbn [f64_to_int]. unfold f64_ltb, SFltb, SFcompare. split; reflexivity.
  - cbn [valid_binary] in Hv.
    unfold f64_ltb. rewrite SFltb_fin_pos_false.
    pose proof (truncation_below m e Hv) as [Hz0 Hz]. cbv zeta in Hz0, Hz.
    cbn [f64_to_int cond_Zopp].
    assert (H31 : 2 ^ 31 = 2147483648) by reflexivity. rewrite H31. clear H31.
    set (z := match e with
              | Z.neg p => Z.shiftr (Z.pos m) (Z.pos p)
              | _ => Z.shiftl (Z.pos m) e
              end) in *.
    destruct (Z.leb_spec (Z.opp 2147483648) z) as [_ | Hneg]; [| lia].
    cbn [andb].
    destruct (Z.ltb_spec z 2147483648) as [Hlt | Hge]; cbv iota.
    + split; [discriminate |]. lia.
    + split; [intros _ | reflexivity]. lia.
Qed.

Lemma SFsub_valid (x y : spec_float) :
  valid_binary 53 1024 x = true -> valid_binary 53 1024 y = true ->
  valid_binary 53 1024 (SFsub 53 1024 x y) = true.
Proof.
  intros Hx Hy.
  destruct (is_finite x) eqn:Fx; [destruct (is_finite y) eqn:Fy |].
  - apply SFsub_finite; assumption.
  - destruct y as [sy | sy | | sy my ey]; try discriminate;
      destruct x as [sx | sx | | sx mx ex]; try discriminate;
      try reflexivity; destruct sy; reflexivity.
  - destruct x as [sx | sx | | sx mx ex]; try discriminate;
      destruct y as [sy | sy | | sy my ey]; try reflexivity;
      destruct sx, sy; reflexivity.
Qed.

(** X17. The argument of the pacing [usleep]. Whenever the pacing
    decision, taken on a target and an elapsed time that are doubles, is to
    sleep, the wait [(target - elapsed)*1000*1000] is a double that is not
    negative, and the conversion to [int] that gives the argument is defined
    exactly when the wait is below 2^31 microseconds (about 2147 s), and
    then gives a number that is at least 0. For a longer wait the
    conversion is undefined and no value of the argument is guaranteed: a
    wait of 3000 s is such a case. *)
Theorem sleep_argument (speed : float) (ii : Z) (target since : double) (u : option Z) :
  is_double target = true -> is_double since = true ->
  pace speed ii target since = SleepThenFeed u ->
  u = f64_to_int (f64_mul (f64_mul (f64_sub target since) (f64_of_int 1000))
                          (f64_of_int 1000))
  /\ is_double (f64_mul (f64_mul (f64_sub target since) (f64_of_int 1000))
                        (f64_of_int 1000)) = true
  /\ nonneg_number (f64_mul (f64_mul (f64_sub target since) (f64_of_int 1000))
                            (f64_of_int 1000)) = true
  /\ (forall usec, u = Some usec -> 0 <= usec < 2 ^ 31)
  /\ (u = None
      <-> f64_ltb (f64_mul (f64_mul (f64_sub target since) (f64_of_int 1000))
                           (f64_of_int 1000))
                  (f64_of_int 2147483648) = false)
  /\ pace (f32_of_int 1) 1 (f64_of_int 3000) (f64_of_int 0) = SleepThenFeed None.
Proof.
  intros Ht Hs. unfold pace.
  destruct (negb (f32_eqb speed (f32_of_int 0))); [| discriminate].
  destruct (f64_ltb since target) eqn:Hlt;
    [| destruct (f64_ltb (skip_threshold target ii) since); discriminate].
  intros [= <-].
  assert (Hsub : valid_binary 53 1024 (SFsub 53 1024 target since) = true
                 /\ nonneg_number (SFsub 53 1024 target since) = true).
  { split; [apply SFsub_valid | apply SFsub_positive]; assumption. }
  destruct Hsub as [Hv0 Hn0].
  destruct (SFmul_1000 _ Hv0 Hn0) as [Hv1 Hn1].
  destruct (SFmul_1000 _ Hv1 Hn1) as [Hv2 Hn2].
  unfold f64_mul, f64_sub, prec64, emax64, is_double.
  change (f64_of_int 1000) with (S754_finite false 8796093022208000 (-43)).
  split_and!.
  - reflexivity.
  - exact Hv2.
  - exact Hn2.
  - intros usec Hu. apply (f64_to_int_nonneg _ _ (or_introl Hn2) Hu).
  - apply f64_to_int_defined; assumption.
  - vm_compute. reflexivity.
Qed.

(** *** Instances *)

Import Examples.

Lemma sleep_argument_witness :
  pace (f32_of_int 2) 1 (f64_lit 1 2) (f64_lit 1 4) = SleepThenFeed (Some 250000)
  /\ 0 <= 250000 < 2 ^ 31
  /\ pace (f32_of_int 1) 1 (f64_of_int 3000) (f64_of_int 0) = SleepThenFeed None
  /\ f64_ltb (f64_mul (f64_mul (f64_sub (f64_of_int 3000) (f64_of_int 0)) (f64_of_int 1000))
                      (f64_of_int 1000))
             (f64_of_int 2147483648) = false.
Proof.
  destruct (sleep_argument (f32_of_int 2) 1 (f64_lit 1 2) (f64_lit 1 4) (Some 250000)
              eq_refl eq_refl eq_refl) as (_ & _ & _ & H1 & _).
  destruct (sleep_argument (f32_of_int 1) 1 (f64_of_int 3000) (f64_of_int 0) None
              eq_refl eq_refl eq_refl) as (_ & _ & _ & _ & H2 & H3).
  split; [reflexivity |].
  split; [exact (H1 250000 eq_refl) |].
  split; [exact H3 |].
  exact (proj1 H2 eq_refl).
Defined.

End SleepProperties.

Module StartupProperties.
Import DatasetReader Main RunSettings RunEvents CommandLine ReaderProperties PlaybackProperties
  RunProperties.

(** *** The events of a run that is not paced *)

Section Unpaced.

Variable new_FullSystem : FullSystem.
Variable addActiveFrame : FullSystem -> ImageAndExposure -> Z -> FullSystem.
Variable cfg : config.
Hypothesis unpaced : f32_eqb (playbackSpeed cfg) (f32_of_int 0) = true.

Local Abbreviation iteration := (iteration new_FullSystem addActiveFrame cfg).
Local Abbreviation playback := (playback new_FullSystem addActiveFrame cfg).
Local Abbreviation runthread := (runthread new_FullSystem addActiveFrame cfg).

Lemma quiet_log (st : session) (evs : list event) :
  quiet_events st -> forallb unpaced_event evs = true -> quiet_events (log st evs).
Proof.
  unfold quiet_events. cbn [events log]. intros H1 H2. rewrite forallb_app, H1, H2. reflexivity.
Qed.

Lemma quiet_pauses (n : nat) : forallb unpaced_event (replicate n (Usleep (Some 5000))) = true.
Proof. induction n as [| n IH]; [reflexivity | exact IH]. Qed.

Lemma quiet_reset_events (wraps : list ptr) : forallb unpaced_event (reset_events wraps) = true.
Proof.
  unfold reset_events. rewrite forallb_app. cbn. rewrite andb_true_r.
  induction wraps as [| w wraps IH]; [reflexivity | exact IH].
Qed.

Lemma handle_reset_quiet (ii : Z) (st : session) :
  quiet_events st -> quiet_events (handle_reset new_FullSystem cfg ii st).
Proof.
  intros H. unfold Main.handle_reset.
  destruct (initFailed (fullSystem st) || setting_fullResetRequested st); [| exact H].
  destruct ((ii <? 250) || setting_fullResetRequested st); [| exact H].
  unfold quiet_events. cbn [events set_fullResetRequested set_fullSystem].
  apply quiet_log; [exact H | apply quiet_reset_events].
Qed.

Lemma iteration_quiet (imgs : list ImageAndExposure) (ii i : Z) (target : double)
    (e : env) (st : session) :
  quiet_events st -> quiet_events (snd (iteration imgs ii i target e st)).
Proof.
  intros H. unfold Main.iteration.
  assert (H1 : quiet_events (anchor_start target e (wait_while_paused e st))).
  { unfold quiet_events. rewrite anchor_start_events. apply quiet_log; [exact H |].
    apply quiet_pauses. }
  pose proof (fetch_image_events cfg imgs ii i (anchor_start target e (wait_while_paused e st)))
    as Hev.
  destruct (fetch_image cfg imgs ii i (anchor_start target e (wait_while_paused e st)))
    as [[img | code |] st1]; cbn [snd] in *;
    try (unfold quiet_events; rewrite Hev; exact H1).
  assert (H2 : quiet_events st1) by (unfold quiet_events; rewrite Hev; exact H1).
  unfold Main.pacing_of. rewrite (pace_unpaced _ _ _ _ unpaced).
  assert (H3 : quiet_events (feed_frame addActiveFrame Feed ii i img st1)).
  { unfold Main.feed_frame. cbn [skipFrame]. apply (quiet_log _ [AddActiveFrame i]);
      [exact H2 | reflexivity]. }
  destruct (bool_decide (is_Some (viewer cfg)) && viewer_isDead e); cbn [snd]; [exact H3 |].
  unfold Main.after_frame. destruct (isLost _); cbn [snd]; apply handle_reset_quiet; exact H3.
Qed.

Lemma playback_quiet (p : plan) (imgs : list ImageAndExposure) (envs : Z -> env) (n : nat) :
  forall (ii : Z) (st : session),
    quiet_events st -> quiet_events (snd (playback p imgs envs n ii st)).
Proof.
  induction n as [| n IH]; intros ii st H; [exact H |].
  cbn [Main.playback].
  destruct (vec_at (idsToPlay p) ii); try exact H.
  destruct (vec_at (timesToPlayAt p) ii); try exact H.
  pose proof (iteration_quiet imgs ii a a0 (envs ii) st H) as Hit.
  destruct (iteration imgs ii a a0 (envs ii) st) as [fl st1]. cbn [snd] in Hit.
  destruct fl; try exact Hit. apply IH. exact Hit.
Qed.

Lemma finalize_quiet (p : plan) (st : session) :
  quiet_events st -> quiet_events (snd (finalize cfg p st)).
Proof.
  intros H. unfold Main.finalize. destruct (idsToPlay p); cbn [snd].
  - apply quiet_log; [exact H | reflexivity].
  - apply quiet_log; [apply quiet_log; [exact H | reflexivity] |].
    destruct (setting_logStuff cfg); reflexivity.
Qed.

Lemma runthread_quiet (r : ImageFolderReader) (tv : timeval) (envs : Z -> env) :
  quiet_events (snd (runthread r tv envs)).
Proof.
  unfold Main.runthread.
  destruct (if preload cfg then preload_images r (idsToPlay (the_plan cfg r)) else (Ok [], r))
    as [[imgs | code |] r1]; cbn [snd]; try reflexivity.
  pose proof (playback_quiet (the_plan cfg r) imgs envs (length (idsToPlay (the_plan cfg r))) 0
                (initial_session new_FullSystem cfg r1 tv) eq_refl) as Hpb.
  destruct (playback (the_plan cfg r) imgs envs _ 0 _) as [fl st']. cbn [snd] in Hpb.
  destruct fl; cbn [snd]; try exact Hpb; apply finalize_quiet; exact Hpb.
Qed.

End Unpaced.

(** X18. A run whose playback speed is 0 is not paced at all: whatever
    the engine, the display and the clock do, it never sleeps to wait for a
    target and never skips a frame. Its only sleeps are the 5000
    microseconds of a pause poll and the 20000 microseconds of a reset. *)
Theorem unpaced_run_never_waits
    (new_FullSystem : FullSystem)
    (addActiveFrame : FullSystem -> ImageAndExposure -> Z -> FullSystem)
    (cfg : config) (r : ImageFolderReader) (tv : timeval) (envs : Z -> env) :
  f32_eqb (playbackSpeed cfg) (f32_of_int 0) = true ->
  (forall ii, PrintSkipFrame ii ∉ events (snd (runthread new_FullSystem addActiveFrame cfg
                                                  r tv envs)))
  /\ (forall usec, Usleep usec ∈ events (snd (runthread new_FullSystem addActiveFrame cfg
                                                r tv envs)) ->
                   usec = Some 5000 \/ usec = Some 20000).
Proof.
  intros Hspeed.
  pose proof (runthread_quiet new_FullSystem addActiveFrame cfg Hspeed r tv envs) as Hq.
  unfold quiet_events in Hq. rewrite forallb_forall in Hq. split.
  - intros ii Hin. apply list_elem_of_In in Hin. specialize (Hq _ Hin). discriminate.
  - intros usec Hin. apply list_elem_of_In in Hin. specialize (Hq _ Hin). cbn in Hq.
    apply orb_true_iff in Hq as [H | H]; apply bool_decide_eq_true in H; auto.
Qed.

(** *** The command line *)

Lemma start_Ok (o : options) (pc0 : Z) (ve : bool) (s : startup) :
  start o pc0 ve = Ok s ->
  help o = false /\ is_empty (source0 o) = false /\ is_empty (calib0 o) = false
  /\ s_playbackSpeed s
     = (if (opt_preset o =? 0) || (opt_preset o =? 2) then f32_of_int 0
        else if opt_preset o =? 1 then f32_of_int 1
        else if opt_preset o =? 3 then f32_of_int 5
        else opt_speed o)
  /\ s_preload s
     = (if (opt_preset o =? 2) || (opt_preset o =? 3) then opt_preset o =? 3
        else opt_preload o)
  /\ s_logStuff s
     = (if (opt_preset o =? 2) || (opt_preset o =? 3) then false else negb (opt_nolog o))
  /\ LoopClosure s = opt_loopclosure o && negb (is_empty (vocabPath o))
  /\ setting_photometricCalibration s
     = (if (opt_mode o =? 1) || (opt_mode o =? 2) then 0 else pc0)
  /\ s_reverse s = opt_reverse o /\ s_startIndex s = opt_startindex o
  /\ s_endIndex s = opt_endindex o
  /\ disableAllDisplay s = opt_nogui o /\ s_useSampleOutput s = opt_usesampleoutput o.
Proof.
  unfold start.
  destruct (help o); [discriminate |].
  destruct (is_empty (source0 o)); [discriminate |].
  destruct (is_empty (calib0 o)); [discriminate |]. cbn [orb].
  destruct (opt_loopclosure o && negb (is_empty (vocabPath o)) && ve); [discriminate |].
  destruct (Z.eqb_spec (opt_preset o) 0) as [E0 | N0].
  - rewrite E0. cbn. intros [= <-]. cbn. split_and!; reflexivity.
  - destruct (Z.eqb_spec (opt_preset o) 1) as [E1 | N1].
    + rewrite E1. cbn. intros [= <-]. cbn. split_and!; reflexivity.
    + destruct (Z.eqb_spec (opt_preset o) 2) as [E2 | N2].
      * rewrite E2. cbn. intros [= <-]. cbn. split_and!; reflexivity.
      * destruct (Z.eqb_spec (opt_preset o) 3) as [E3 | N3].
        -- cbn. intros [= <-]. cbn. split_and!; reflexivity.
        -- cbn. intros [= <-]. cbn. split_and!; reflexivity.
Qed.

(** X19. The preset decides the pace of the run, not [--speed]. With the
    preset 0, which is the default, or 2 the playback speed is 0 whatever
    the command line says: the engine is built in linearized mode and the
    run never sleeps to wait for a target nor skips a frame. The preset 1
    sets the speed to 1 and the preset 3 to 5; the presets 2 and 3 also
    decide [preload] and switch the log off, whatever [--preload] and
    [--nolog] say. [--speed], [--preload] and [--nolog] are obeyed for a
    preset outside 0..3 only (the latter two also for the presets 0 and
    1). *)
Theorem preset_decides_the_pace
    (o : options) (pc0 : Z) (ve : bool) (s : startup) (viewer_ptr sample_ptr : ptr) :
  start o pc0 ve = Ok s ->
  (opt_preset o = 0 \/ opt_preset o = 2 ->
   playbackSpeed (config_of s viewer_ptr sample_ptr) = f32_of_int 0
   /\ (forall new_FullSystem r,
        linearizeOperation (initial_engine new_FullSystem (config_of s viewer_ptr sample_ptr) r)
        = true)
   /\ (forall new_FullSystem addActiveFrame r tv envs,
        let run := runthread new_FullSystem addActiveFrame (config_of s viewer_ptr sample_ptr)
                     r tv envs in
        (forall ii, PrintSkipFrame ii ∉ events (snd run))
        /\ (forall usec, Usleep usec ∈ events (snd run) ->
                         usec = Some 5000 \/ usec = Some 20000)))
  /\ (opt_preset o = 1 -> playbackSpeed (config_of s viewer_ptr sample_ptr) = f32_of_int 1)
  /\ (opt_preset o = 3 -> playbackSpeed (config_of s viewer_ptr sample_ptr) = f32_of_int 5)
  /\ (opt_preset o = 2 \/ opt_preset o = 3 ->
      preload (config_of s viewer_ptr sample_ptr) = (opt_preset o =? 3)
      /\ setting_logStuff (config_of s viewer_ptr sample_ptr) = false)
  /\ (opt_preset o = 0 \/ opt_preset o = 1 ->
      preload (config_of s viewer_ptr sample_ptr) = opt_preload o
      /\ setting_logStuff (config_of s viewer_ptr sample_ptr) = negb (opt_nolog o))
  /\ (~ 0 <= opt_preset o <= 3 ->
      playbackSpeed (config_of s viewer_ptr sample_ptr) = opt_speed o
      /\ preload (config_of s viewer_ptr sample_ptr) = opt_preload o
      /\ setting_logStuff (config_of s viewer_ptr sample_ptr) = negb (opt_nolog o)).
Proof.
  intros Hs. destruct (start_Ok o pc0 ve s Hs)
    as (_ & _ & _ & Hspeed & Hpre & Hlog & _).
  unfold config_of. cbn [playbackSpeed preload setting_logStuff].
  rewrite Hspeed, Hpre, Hlog. split_and!.
  - intros Hp.
    assert (E : (opt_preset o =? 0) || (opt_preset o =? 2) = true).
    { destruct Hp as [-> | ->]; reflexivity. }
    rewrite E. split_and!.
    + reflexivity.
    + intros nf r. unfold initial_engine, push_back_opt.
      cbn [viewer useSampleOutput].
      destruct (s_useSampleOutput s), (disableAllDisplay s); reflexivity.
    + intros nf aaf r tv envs. cbv zeta.
      match goal with
      | |- context [runthread nf aaf ?c r tv envs] =>
          pose proof (runthread_quiet nf aaf c eq_refl r tv envs) as Hq
      end.
      unfold quiet_events in Hq. rewrite forallb_forall in Hq. split.
      * intros ii Hin. apply list_elem_of_In in Hin. specialize (Hq _ Hin). discriminate.
      * intros usec Hin. apply list_elem_of_In in Hin. specialize (Hq _ Hin). cbn in Hq.
        apply orb_true_iff in Hq as [H | H]; apply bool_decide_eq_true in H; auto.
  - intros ->. reflexivity.
  - intros ->. reflexivity.
  - intros [-> | ->]; split; reflexivity.
  - intros [-> | ->]; split; reflexivity.
  - intros Hp.
    destruct (Z.eqb_spec (opt_preset o) 0); [lia |].
    destruct (Z.eqb_spec (opt_preset o) 1); [lia |].
    destruct (Z.eqb_spec (opt_preset o) 2); [lia |].
    destruct (Z.eqb_spec (opt_preset o) 3); [lia |].
    cbn. split_and!; reflexivity.
Qed.

Lemma is_empty_true (str : string) : is_empty str = true <-> str = ""%string.
Proof. destruct str; cbn; split; congruence. Qed.

(** X20. How [main] can end before the reader is built, and what it has
    decided otherwise. It ends with status 0 exactly when help is asked for
    or the image path or the calibration path is missing, and with status 1
    exactly when, those apart, loop closure is asked for with a vocabulary
    path and the vocabulary loads empty. Otherwise loop closure stays on
    only if it was asked for with a vocabulary path, and is switched off
    without an error when the path is missing. With the mode 1 or 2 the
    check of the photometric calibration never ends the process; with
    another mode it does exactly when the setting is positive at start and
    the reader has no gamma function. *)
Theorem startup_decisions (o : options) (pc0 : Z) (ve : bool) :
  (start o pc0 ve = Exit 0
   <-> help o = true \/ source0 o = ""%string \/ calib0 o = ""%string)
  /\ (start o pc0 ve = Exit 1
      <-> help o = false /\ source0 o <> ""%string /\ calib0 o <> ""%string
          /\ opt_loopclosure o = true /\ vocabPath o <> ""%string /\ ve = true)
  /\ (forall s, start o pc0 ve = Ok s ->
      (LoopClosure s = true <-> opt_loopclosure o = true /\ vocabPath o <> ""%string)
      /\ (opt_mode o = 1 \/ opt_mode o = 2 -> forall r, photometric_check s r = Ok tt)
      /\ (opt_mode o <> 1 -> opt_mode o <> 2 ->
          forall r, photometric_check s r = Exit 1
                    <-> 0 < pc0 /\ getPhotometricGamma r = None)).
Proof.
  assert (Hne : forall str, is_empty str = false <-> str <> ""%string).
  { intros str. rewrite <- is_empty_true. destruct (is_empty str); split; congruence. }
  split_and!.
  - unfold start. rewrite <- !is_empty_true.
    destruct (help o); [split; auto |].
    destruct (is_empty (source0 o)); [split; auto |].
    destruct (is_empty (calib0 o)); [split; auto |]. cbn [orb].
    split; [| intros [? | [? | ?]]; discriminate].
    destruct (opt_loopclosure o && negb (is_empty (vocabPath o)) && ve); [discriminate |].
    repeat match goal with |- context [if ?c then _ else _] => destruct c end; discriminate.
  - unfold start. rewrite <- !Hne.
    destruct (help o); [split; [discriminate | intros (? & _); discriminate] |].
    destruct (is_empty (source0 o));
      [split; [discriminate | intros (_ & ? & _); discriminate] |].
    destruct (is_empty (calib0 o));
      [split; [discriminate | intros (_ & _ & ? & _); discriminate] |]. cbn [orb].
    destruct (opt_loopclosure o), (is_empty (vocabPath o)), ve; cbn [andb negb];
      try (split; [intros _; auto 10 | reflexivity]);
      (split; [| intros (_ & _ & _ & ? & ? & ?); discriminate]);
      repeat match goal with |- context [if ?c then _ else _] => destruct c end; discriminate.
  - intros s Hs. destruct (start_Ok o pc0 ve s Hs)
      as (_ & _ & _ & _ & _ & _ & Hloop & Hphoto & _).
    split_and!.
    + rewrite Hloop, andb_true_iff, negb_true_iff, Hne. reflexivity.
    + intros Hmode r. unfold photometric_check. rewrite Hphoto.
      assert (E : (opt_mode o =? 1) || (opt_mode o =? 2) = true)
        by (destruct Hmode as [-> | ->]; reflexivity).
      rewrite E. reflexivity.
    + intros H1 H2 r. unfold photometric_check. rewrite Hphoto.
      destruct (Z.eqb_spec (opt_mode o) 1); [contradiction |].
      destruct (Z.eqb_spec (opt_mode o) 2); [contradiction |]. cbn [orb].
      destruct (Z.ltb_spec 0 pc0); destruct (getPhotometricGamma r) as [g |]; cbn;
        split; try discriminate; try (intros [? ?]; try lia; discriminate); auto.
Qed.

(** *** Instances *)

Import Examples Setups.

Lemma unpaced_run_never_waits_witness :
  (PrintSkipFrame 1 ∉ events (snd (runthread engine0 (lost_at 1) cfg0 three_frames tv0 quiet)))
  /\ (Usleep (Some 250000)
        ∉ events (snd (runthread engine0 (lost_at 1) cfg0 three_frames tv0 quiet))).
Proof.
  destruct (unpaced_run_never_waits engine0 (lost_at 1) cfg0 three_frames tv0 quiet eq_refl)
    as (H1 & H2).
  split; [apply H1 |].
  intros Hin. destruct (H2 _ Hin); discriminate.
Defined.

Lemma preset_decides_the_pace_witness :
  exists s, start (command_line 0 (f32_of_int 3)) 2 false = Ok s
            /\ playbackSpeed (config_of s 1%nat 2%nat) = f32_of_int 0.
Proof.
  eexists. split; [reflexivity |].
  refine (proj1 (proj1 (preset_decides_the_pace (command_line 0 (f32_of_int 3)) 2 false _
                          1%nat 2%nat eq_refl) _)).
  left. reflexivity.
Defined.

End StartupProperties.

(** ** Properties of the IMU reader *)

Module IMUProperties.
Import IMU ReaderProperties.

Lemma read_samples (extract : string -> imu_fields) (data : list string) (r : IMUFolderReader) :
  fold_left (fun r sline => push_sample r (extract sline)) data r
  = {| m_gry := m_gry r ++ map (fun l => gyro_read (extract l)) data;
       m_acc := m_acc r ++ map (fun l => acc_read (extract l)) data;
       imu_time_stamp := imu_time_stamp r
                         ++ map (fun l => seconds (time_read (extract l))) data |}.
Proof.
  revert r. induction data as [| l data IH]; intros r.
  - cbn. rewrite !app_nil_r. destruct r; reflexivity.
  - cbn [fold_left map]. rewrite IH. unfold push_sample. cbn [m_gry m_acc imu_time_stamp].
    rewrite <- !app_assoc. reflexivity.
Qed.

(** X21. [getIMUfiles_euroc] drops the first line of the file and adds
    one sample for every other line, whatever the line holds: the three
    vectors grow together by the number of lines after the first, so on a
    fresh reader the gyroscope, accelerometer and timestamp of a position
    come from the same line, the timestamp being the first field divided by
    1e9. A file that cannot be opened adds nothing and a second call appends
    the samples again. The getters index without a check: position [i] is
    defined exactly for [0 <= i < n], [n] the number of samples. *)
Theorem imu_samples (extract : string -> imu_fields) (r : IMUFolderReader)
    (lines : list string) :
  let r' := getIMUfiles_euroc extract r lines in
  m_gry r' = m_gry r ++ map (fun l => gyro_read (extract l)) (tail lines)
  /\ m_acc r' = m_acc r ++ map (fun l => acc_read (extract l)) (tail lines)
  /\ imu_time_stamp r'
     = imu_time_stamp r ++ map (fun l => seconds (time_read (extract l))) (tail lines)
  /\ getIMUfiles_euroc extract r [] = r
  /\ (r = new_IMUFolderReader ->
      size (m_gry r') = size (tail lines) /\ size (m_acc r') = size (tail lines)
      /\ size (imu_time_stamp r') = size (tail lines)
      /\ (forall (k : nat) (l : string),
          lines !! S k = Some l ->
          get_gyrodata r' (Z.of_nat k) = Ok (gyro_read (extract l))
          /\ get_acceldata r' (Z.of_nat k) = Ok (acc_read (extract l))
          /\ get_timestampdata r' (Z.of_nat k)
             = Ok (option_map (fun t => f64_div t (f64_of_int 1000000000))
                     (time_read (extract l))))
      /\ (forall i, ~ 0 <= i < size (tail lines) ->
          get_gyrodata r' i = OutOfBounds /\ get_acceldata r' i = OutOfBounds
          /\ get_timestampdata r' i = OutOfBounds)
      /\ m_gry (getIMUfiles_euroc extract r' lines) = m_gry r' ++ m_gry r').
Proof.
  cbv zeta.
  assert (H : getIMUfiles_euroc extract r lines
              = {| m_gry := m_gry r ++ map (fun l => gyro_read (extract l)) (tail lines);
                   m_acc := m_acc r ++ map (fun l => acc_read (extract l)) (tail lines);
                   imu_time_stamp := imu_time_stamp r
                     ++ map (fun l => seconds (time_read (extract l))) (tail lines) |}).
  { destruct lines as [| l0 data].
    - cbn. rewrite !app_nil_r. destruct r; reflexivity.
    - cbn [getIMUfiles_euroc tail]. apply read_samples. }
  split_and!; try (rewrite H; reflexivity); [reflexivity |].
  intros ->. rewrite H. cbn [new_IMUFolderReader m_gry m_acc imu_time_stamp app].
  unfold get_gyrodata, get_acceldata, get_timestampdata, size.
  cbn [m_gry m_acc imu_time_stamp]. rewrite !length_map.
  split_and!; try reflexivity.
  - intros k l Hk.
    assert (Hk' : tail lines !! k = Some l) by (destruct lines; [discriminate | exact Hk]).
    split_and!; apply vec_at_Ok; rewrite Nat2Z.id, list_lookup_fmap, Hk';
      (split; [lia | reflexivity]).
  - intros i Hi. split_and!; apply vec_at_OutOfBounds; unfold size; rewrite length_map; lia.
  - destruct lines as [| l0 data]; [reflexivity |].
    cbn [getIMUfiles_euroc tail]. rewrite read_samples. reflexivity.
Qed.

End IMUProperties.
